(** * The IMAP command-line parser of imapserver/parse.go

    A shallow embedding of the parser (cursor primitives, lexical tokens,
    sequence sets, fetch attributes, dates, literals, tagged extensions)
    and the properties its specification states about it.

    Conventions.
    - A Go [string] is a [string] of 8-bit [ascii] bytes; byte and rune
      values are read as [Z].
    - Offsets and lengths (Go [int], never negative here) are [nat].
    - [uint32]/[int64] results are [Z], with the range checks of [strconv]
      written out.
    - A panic is an explicit result; the parser is threaded as state. *)

From Stdlib Require Import ZArith List String Ascii Bool Lia DecimalString.
Import ListNotations.

Local Open Scope string_scope.
Local Open Scope bool_scope.

(** ** Go strings *)

Module GoString.

(** The numeric value of a byte. *)
Definition byte (c : ascii) : Z := Z.of_N (N_of_ascii c).

(** The byte with a given value, wrapping modulo 256 as [uint8] does. *)
Definition of_byte (z : Z) : ascii := ascii_of_N (Z.to_N (z mod 256)).

Definition len (s : string) : nat := String.length s.

(** [s[n:]] *)
Fixpoint from (n : nat) (s : string) : string :=
  match n, s with
  | O, _ => s
  | S n', String _ t => from n' t
  | S _, EmptyString => EmptyString
  end.

(** [s[:n]] *)
Fixpoint upto (n : nat) (s : string) : string :=
  match n, s with
  | O, _ => EmptyString
  | S n', String c t => String c (upto n' t)
  | S _, EmptyString => EmptyString
  end.

(** [s[i:j]] *)
Definition slice (s : string) (i j : nat) : string := upto (j - i) (from i s).

(** [s[i]], [None] when the index is out of range. *)
Definition index (s : string) (i : nat) : option ascii := String.get i s.

(** [strings.HasPrefix(s, prefix)] *)
Fixpoint HasPrefix (s prefix : string) {struct prefix} : bool :=
  match prefix, s with
  | EmptyString, _ => true
  | String c p', String d s' => Ascii.eqb c d && HasPrefix s' p'
  | String _ _, EmptyString => false
  end.

(** [strings.HasSuffix(s, suffix)] *)
Definition HasSuffix (s suffix : string) : bool :=
  (len suffix <=? len s)%nat && String.eqb (from (len s - len suffix) s) suffix.

(** [strings.TrimSuffix(s, suffix)] *)
Definition TrimSuffix (s suffix : string) : string :=
  if HasSuffix s suffix then upto (len s - len suffix) s else s.

Fixpoint map_bytes (f : ascii -> ascii) (s : string) : string :=
  match s with
  | EmptyString => EmptyString
  | String c t => String (f c) (map_bytes f t)
  end.

(** [strings.ToLower] on its ASCII path: [A]..[Z] are moved to [a]..[z] and
    every other byte is kept.  On input with bytes above 0x7f Go maps whole
    runes through [unicode.ToLower]; the parser only compares the result with
    ASCII literals, [xflag] passes ASCII only, and no three-byte input with a
    byte above 0x7f lowers to a month name, so the comparisons agree. *)
Definition lower_byte (c : ascii) : ascii :=
  if (65 <=? byte c)%Z && (byte c <=? 90)%Z then of_byte (byte c + 32) else c.

Definition ToLower (s : string) : string := map_bytes lower_byte s.

(** The one-byte strings that cannot be written as plain literals. *)
Definition DQUOTE : string := String "034"%char EmptyString.
Definition BACKSLASH : string := String "092"%char EmptyString.

End GoString.

(** ** UTF-8, as [range] over a string and [string(rune)] see it *)

Module Utf8.
Import GoString.
Local Open Scope Z_scope.

Definition RuneError : Z := 0xFFFD.

Definition between (lo x hi : Z) : bool := (lo <=? x) && (x <=? hi).

(** [utf8.DecodeRuneInString]: the first code point of a non-empty string and
    its width; an invalid or truncated sequence is [RuneError] of width 1. *)
Definition DecodeRuneInString (s : string) : Z * nat :=
  match s with
  | EmptyString => (RuneError, 0%nat)
  | String c0 t =>
    let b0 := byte c0 in
    if b0 <? 0x80 then (b0, 1%nat)
    else if between 0xC2 b0 0xDF then
      match t with
      | String c1 _ =>
        let b1 := byte c1 in
        if between 0x80 b1 0xBF
        then ((b0 - 0xC0) * 64 + (b1 - 0x80), 2%nat)
        else (RuneError, 1%nat)
      | _ => (RuneError, 1%nat)
      end
    else if between 0xE0 b0 0xEF then
      match t with
      | String c1 (String c2 _) =>
        let b1 := byte c1 in
        let b2 := byte c2 in
        let lo := if b0 =? 0xE0 then 0xA0 else 0x80 in
        let hi := if b0 =? 0xED then 0x9F else 0xBF in
        if between lo b1 hi && between 0x80 b2 0xBF
        then (((b0 - 0xE0) * 64 + (b1 - 0x80)) * 64 + (b2 - 0x80), 3%nat)
        else (RuneError, 1%nat)
      | _ => (RuneError, 1%nat)
      end
    else if between 0xF0 b0 0xF4 then
      match t with
      | String c1 (String c2 (String c3 _)) =>
        let b1 := byte c1 in
        let b2 := byte c2 in
        let b3 := byte c3 in
        let lo := if b0 =? 0xF0 then 0x90 else 0x80 in
        let hi := if b0 =? 0xF4 then 0x8F else 0xBF in
        if between lo b1 hi && between 0x80 b2 0xBF && between 0x80 b3 0xBF
        then ((((b0 - 0xF0) * 64 + (b1 - 0x80)) * 64 + (b2 - 0x80)) * 64
              + (b3 - 0x80), 4%nat)
        else (RuneError, 1%nat)
      | _ => (RuneError, 1%nat)
      end
    else (RuneError, 1%nat)
  end.

(** [for i, c := range s]: the pairs (byte index, rune) in iteration order.
    [pending] counts the continuation bytes of the rune just produced. *)
Fixpoint range_from (pending i : nat) (s : string) : list (nat * Z) :=
  match s with
  | EmptyString => []
  | String _ t =>
    match pending with
    | S k => range_from k (S i) t
    | O =>
      let (r, w) := DecodeRuneInString s in
      (i, r) :: range_from (Nat.pred w) (S i) t
    end
  end.

Definition range (s : string) : list (nat * Z) := range_from 0 0 s.

(** [string(r)] for a rune [r]: its UTF-8 encoding, the encoding of
    [RuneError] for surrogates and values out of range. *)
Definition string_of_rune (r : Z) : string :=
  let r := if (r <? 0) || (0x10FFFF <? r) || between 0xD800 r 0xDFFF
           then RuneError else r in
  if r <? 0x80 then String (of_byte r) EmptyString
  else if r <? 0x800 then
    String (of_byte (0xC0 + r / 64))
      (String (of_byte (0x80 + r mod 64)) EmptyString)
  else if r <? 0x10000 then
    String (of_byte (0xE0 + r / 4096))
      (String (of_byte (0x80 + (r / 64) mod 64))
         (String (of_byte (0x80 + r mod 64)) EmptyString))
  else
    String (of_byte (0xF0 + r / 262144))
      (String (of_byte (0x80 + (r / 4096) mod 64))
         (String (of_byte (0x80 + (r / 64) mod 64))
            (String (of_byte (0x80 + r mod 64)) EmptyString))).

End Utf8.

(** ** strconv *)

Module Strconv.
Import GoString.
Local Open Scope Z_scope.

Inductive NumError := ErrSyntax | ErrRange.

Definition maxUint64 : Z := 2 ^ 64 - 1.

(** The digit loop of [strconv.ParseUint] in base 10 ([base = 10], so an
    underscore is a syntax error). *)
Fixpoint ParseUint_loop (maxVal : Z) (s : string) (n : Z) : Z + NumError :=
  match s with
  | EmptyString => inl n
  | String c t =>
    let d := byte c - 48 in
    if (d <? 0) || (9 <? d) then inr ErrSyntax
    else if maxUint64 / 10 + 1 <=? n then inr ErrRange
    else
      let n1 := n * 10 + d in
      if (maxUint64 <? n1) || (maxVal <? n1) then inr ErrRange
      else ParseUint_loop maxVal t n1
  end.

(** [strconv.ParseUint(s, 10, bitSize)] *)
Definition ParseUint (s : string) (bitSize : Z) : Z + NumError :=
  match s with
  | EmptyString => inr ErrSyntax
  | _ => ParseUint_loop (2 ^ bitSize - 1) s 0
  end.

(** [strconv.ParseInt(s, 10, bitSize)] *)
Definition ParseInt (s : string) (bitSize : Z) : Z + NumError :=
  match s with
  | EmptyString => inr ErrSyntax
  | String c t =>
    let neg := byte c =? 45 in
    let s' := if (byte c =? 43) || (byte c =? 45) then t else s in
    match ParseUint s' bitSize with
    | inr ErrSyntax => inr ErrSyntax
    | r =>
      let cutoff := 2 ^ (bitSize - 1) in
      match r with
      | inr _ => inr ErrRange
      | inl un =>
        if negb neg && (cutoff <=? un) then inr ErrRange
        else if neg && (cutoff <? un) then inr ErrRange
        else inl (if neg then - un else un)
      end
    end
  end.

(** [%d] of an integer. *)
Definition FormatInt (z : Z) : string := NilZero.string_of_int (Z.to_int z).

End Strconv.

(** ** Character classes and case folding *)

Import GoString.

(** [toUpper]: bytes [a]..[z] are replaced by the byte 0x20 below, every
    other byte is kept. *)
Definition upper_byte (c : ascii) : ascii :=
  if (97 <=? byte c)%Z && (byte c <=? 122)%Z then of_byte (byte c - 0x20) else c.

Definition toUpper (s : string) : string := map_bytes upper_byte s.

Fixpoint charRange_loop (fuel : nat) (c last : Z) (r : string) : string :=
  match fuel with
  | O => r
  | S f =>
    if (c <? last)%Z
    then charRange_loop f (c + 1)%Z last (r ++ Utf8.string_of_rune (c + 1))
    else r
  end.

(** The loop of [charRange] runs [last - first] times. *)
Definition charRange (first last : Z) : string :=
  charRange_loop (Z.to_nat (last - first)) first last (Utf8.string_of_rune first).

Definition contains (s : string) (c : Z) : bool :=
  existsb (fun x => (snd x =? c)%Z) (Utf8.range s).

Definition charRemove (s remove : string) : string :=
  fold_left
    (fun r ic => if contains remove (snd ic) then r
                 else r ++ Utf8.string_of_rune (snd ic))
    (Utf8.range s) EmptyString.

Definition listWildcards : string := "%*".
Definition char : string := charRange 0x01 0x7f.
Definition ctl : string := charRange 0x01 0x19.
Definition quotedSpecials : string := DQUOTE ++ BACKSLASH.
Definition respSpecials : string := "]".
Definition atomChar : string :=
  Eval vm_compute in
    charRemove char ("(){ " ++ ctl ++ listWildcards ++ quotedSpecials ++ respSpecials).
Definition astringChar : string := Eval vm_compute in atomChar ++ respSpecials.

(** ** The cursor *)

(** What the transport did, in order. *)
Inductive event :=
| SendContinuation
| ReadOctets (n : Z)
| ReadLine.

(** Modelled from the spec: the connection behind [p.conn], whose type and
    methods [xreadliteral] and [readline] are declared outside parse.go.  The
    spec (sections 5 and 6) gives the contract: [read_literal(size, sync)]
    sends the continuation prompt first when [sync] holds and then reads
    exactly [size] octets; [read_line] reads the next fragment up to and
    including CRLF and returns it without the CRLF; a transport failure is
    propagated as a transport error.  [wire] is what the client has still to
    deliver, [events] the log of transport actions. *)
Record conn := mkConn {
  wire : string;
  events : list event
}.

Record parser := mkParser {
  orig : string;
  upper : string;
  o : nat;
  contexts : list string;
  pconn : conn
}.

Definition set_o (p : parser) (n : nat) : parser :=
  mkParser (orig p) (upper p) n (contexts p) (pconn p).

Definition set_contexts (p : parser) (l : list string) : parser :=
  mkParser (orig p) (upper p) (o p) l (pconn p).

Definition set_conn (p : parser) (c : conn) : parser :=
  mkParser (orig p) (upper p) (o p) (contexts p) c.

(** [p.orig, p.upper, p.o = line, toUpper(line), 0] *)
Definition rebind (p : parser) (ln : string) : parser :=
  mkParser ln (toUpper ln) 0 (contexts p) (pconn p).

Definition newParser (s : string) (c : conn) : parser :=
  mkParser s (toUpper s) 0 [] c.

(** The value of a [syntaxError] panic.  [errmsg] is the format string of the
    failing call; the rendering of its arguments and of the remaining-input
    and context suffix (and with it the [err] field) is left out. *)
Record syntaxError := mkSyntaxError {
  line : string;
  code : string;
  errmsg : string
}.

Inductive panic :=
| PanicSyntax (e : syntaxError)
| PanicTransport
| PanicIndex
| OutOfFuel.

Inductive result (A : Type) :=
| Ok (a : A)
| Panic (e : panic).
Arguments Ok {A} a.
Arguments Panic {A} e.

(** A parser method that may panic. *)
Definition M (A : Type) : Type := parser -> result A * parser.

Definition ret {A} (a : A) : M A := fun p => (Ok a, p).

Definition bind {A B} (m : M A) (k : A -> M B) : M B :=
  fun p =>
    match m p with
    | (Ok a, p') => k a p'
    | (Panic e, p') => (Panic e, p')
    end.

(** A method that cannot panic, used inside one that can. *)
Definition lift {A} (f : parser -> A * parser) : M A :=
  fun p => let (a, p') := f p in (Ok a, p').

Definition raise {A} (e : panic) : M A := fun p => (Panic e, p).

Notation "x <- m ;; k" := (bind m (fun x => k))
  (at level 61, m at next level, right associativity).
Notation "' pat <- m ;; k" := (bind m (fun x => match x with pat => k end))
  (at level 61, pat pattern, m at next level, right associativity).
Notation "m ;; k" := (bind m (fun _ => k))
  (at level 61, right associativity).

(** [defer f()]: [f] runs when the method returns or panics. *)
Definition defer {A} (f : parser -> parser) (m : M A) : M A :=
  fun p => let (r, p') := m p in (r, f p').

Definition xerrorf {A} (format : string) : M A :=
  raise (PanicSyntax (mkSyntaxError "" "" format)).

(** [defer p.context(s)()] around [m]. *)
Definition context {A} (s : string) (m : M A) : M A :=
  fun p =>
    defer (fun q => set_contexts q (removelast (contexts q))) m
      (set_contexts p (contexts p ++ [s])%list).

Definition empty (p : parser) : bool := (o p =? len (upper p))%nat.

Definition xempty : M unit :=
  fun p => if negb (empty p) then xerrorf "leftover data" p else ret tt p.

Definition hasPrefix (s : string) (p : parser) : bool :=
  HasPrefix (from (o p) (upper p)) s.

Definition take (s : string) (p : parser) : bool * parser :=
  if negb (hasPrefix s p) then (false, p)
  else (true, set_o p (o p + len s)).

Definition xtake (s : string) : M unit :=
  ok <- lift (take s) ;;
  if negb ok then xerrorf "expected %s" else ret tt.

Definition xnonempty : M unit :=
  fun p => if empty p then xerrorf "unexpected end" p else ret tt p.

Definition xtakeall : M string :=
  fun p => (Ok (from (o p) (orig p)), set_o p (len (orig p))).

Definition xtaken (n : nat) : M string :=
  fun p =>
    if (len (orig p) <? o p + n)%nat then xerrorf "not enough data" p
    else (Ok (slice (orig p) (o p) (o p + n)), set_o p (o p + n)).

Definition xtake1n (n : nat) (what : string) : M string :=
  if (n =? 0)%nat then xerrorf "expected chars from %s" else xtaken n.

(** The index of the first rune outside [s], as the loop of [xtakechars]
    finds it. *)
Fixpoint first_outside (s : string) (rs : list (nat * Z)) : option nat :=
  match rs with
  | [] => None
  | (i, c) :: rs' => if negb (contains s c) then Some i else first_outside s rs'
  end.

Definition xtakechars (s what : string) : M string :=
  xnonempty ;;
  fun p =>
    match first_outside s (Utf8.range (from (o p) (orig p))) with
    | Some i => xtake1n i what p
    | None => xtakeall p
    end.

Definition space (p : parser) : bool * parser := take " " p.

Definition xspace : M unit :=
  ok <- lift space ;;
  if negb ok then xerrorf "expected space" else ret tt.

(** The number of leading digit runes, as the loop of [digits] counts. *)
Fixpoint digit_runes (rs : list (nat * Z)) : nat :=
  match rs with
  | [] => O
  | (_, c) :: rs' =>
    if (c <? 48)%Z || (57 <? c)%Z then O else S (digit_runes rs')
  end.

Definition digits (p : parser) : string * parser :=
  let n := digit_runes (Utf8.range (from (o p) (upper p))) in
  if (n =? 0)%nat then (EmptyString, p)
  else (slice (upper p) (o p) (o p + n), set_o p (o p + n)).

(** The number of leading digit bytes: how far the scanning loop of
    [nznumber] and [number] moves its local offset. *)
Fixpoint digit_bytes (s : string) : nat :=
  match s with
  | EmptyString => O
  | String c t =>
    if (48 <=? byte c)%Z && (byte c <=? 57)%Z then S (digit_bytes t) else O
  end.

Definition nznumber (p : parser) : (Z * bool) * parser :=
  let o' := (o p + digit_bytes (from (o p) (upper p)))%nat in
  if (o' =? o p)%nat then ((0%Z, false), p)
  else
    match Strconv.ParseUint (slice (upper p) (o p) o') 32 with
    | inr _ => ((0%Z, false), p)
    | inl n =>
      if (n =? 0)%Z then ((0%Z, false), p)
      else ((n, true), set_o p o')
    end.

Definition xnznumber : M Z :=
  '(n, ok) <- lift nznumber ;;
  if negb ok then xerrorf "expected non-zero number" else ret n.

Definition number (p : parser) : (Z * bool) * parser :=
  let o' := (o p + digit_bytes (from (o p) (upper p)))%nat in
  if (o' =? o p)%nat then ((0%Z, false), p)
  else
    match Strconv.ParseUint (slice (upper p) (o p) o') 32 with
    | inr _ => ((0%Z, false), p)
    | inl n => ((n, true), set_o p o')
    end.

Definition xnumber : M Z :=
  '(n, ok) <- lift number ;;
  if negb ok then xerrorf "expected number" else ret n.

Definition xnumber64 : M Z :=
  s <- lift digits ;;
  (if String.eqb s EmptyString then xerrorf "expected number64" else ret tt) ;;
  match Strconv.ParseInt s 64 with
  | inr _ => xerrorf "parsing number64 %q: %v"
  | inl v => ret v
  end.

Fixpoint takelist (l : list string) (p : parser) : (string * bool) * parser :=
  match l with
  | [] => ((EmptyString, false), p)
  | w :: l' =>
    let (ok, p') := take w p in
    if ok then ((w, true), p') else takelist l' p'
  end.

Definition xtakelist (l : list string) : M string :=
  '(w, ok) <- lift (takelist l) ;;
  if negb ok then xerrorf "expected one of %s" else ret w.

(** ** The transport behind [p.conn] *)

(** The text before the first CRLF and the text after it. *)
Fixpoint split_crlf (s : string) : option (string * string) :=
  match s with
  | EmptyString => None
  | String c t =>
    if Ascii.eqb c "013"%char && HasPrefix t (String "010"%char EmptyString)
    then Some (EmptyString, from 1 t)
    else
      match split_crlf t with
      | Some (l, r) => Some (String c l, r)
      | None => None
      end
  end.

(** Modelled from the spec: [conn.xreadliteral(size, sync)], declared outside
    parse.go.  Sends the continuation prompt when [sync] holds, then reads
    exactly [size] octets; fewer octets on the wire is a transport error. *)
Definition xreadliteral (size : Z) (sync : bool) : M string :=
  fun p =>
    let c := pconn p in
    let ev := (events c ++ (if sync then [SendContinuation] else [])
                        ++ [ReadOctets size])%list in
    let n := Z.to_nat size in
    if (n <=? len (wire c))%nat
    then (Ok (upto n (wire c)), set_conn p (mkConn (from n (wire c)) ev))
    else (Panic PanicTransport, set_conn p (mkConn EmptyString ev)).

(** Modelled from the spec: [conn.readline(false)], declared outside parse.go.
    Reads the next fragment up to and including CRLF and returns it without
    the CRLF; no CRLF on the wire is a transport error. *)
Definition readline : M string :=
  fun p =>
    let c := pconn p in
    let ev := (events c ++ [ReadLine])%list in
    match split_crlf (wire c) with
    | Some (l, r) => (Ok l, set_conn p (mkConn r ev))
    | None => (Panic PanicTransport, set_conn p (mkConn EmptyString ev))
    end.

(** ** Strings and literals *)

Definition xliteralSize (maxSize : Z) (lit8 : bool) : M (Z * bool) :=
  (if lit8 then _ <- lift (take "~") ;; ret tt else ret tt) ;;
  xtake "{" ;;
  size <- xnumber64 ;;
  (if (0 <? maxSize)%Z && (maxSize <? size)%Z
   then
     raise (PanicSyntax (mkSyntaxError
       ("* BYE [ALERT] Max literal size " ++ Strconv.FormatInt size
        ++ " is larger than allowed " ++ Strconv.FormatInt maxSize
        ++ " in this context")
       "TOOBIG" "literal too big"))
   else ret tt) ;;
  plus <- lift (take "+") ;;
  xtake "}" ;;
  xempty ;;
  ret (size, negb plus).

(** The loop of the quoted branch of [xstring] over the runes of
    [p.orig[p.o:]]. *)
Fixpoint xstring_loop (rs : list (nat * Z)) (esc : bool) (r : string)
  : M string :=
  match rs with
  | [] => xerrorf "missing closing dquote in string"
  | (i, c) :: rs' =>
    if (c =? 92)%Z then xstring_loop rs' true r
    else if (c =? 0)%Z || (c =? 13)%Z || (c =? 10)%Z
    then xerrorf "invalid nul, cr or lf in string"
    else if esc then
      if (c =? 92)%Z || (c =? 34)%Z
      then xstring_loop rs' false (r ++ Utf8.string_of_rune c)
      else xerrorf "invalid escape char %c"
    else if (c =? 34)%Z then fun p => (Ok r, set_o p (o p + (i + 1)))
    else xstring_loop rs' esc (r ++ Utf8.string_of_rune c)
  end.

Definition xstring : M string :=
  ok <- lift (take DQUOTE) ;;
  if ok then
    fun p => xstring_loop (Utf8.range (from (o p) (orig p))) false EmptyString p
  else
    '(size, sync) <- xliteralSize (100 * 1024) false ;;
    s <- xreadliteral size sync ;;
    ln <- readline ;;
    fun p => (Ok s, rebind p ln).

Definition xnil : M unit := xtake "NIL".

Definition xnilString : M string :=
  ok <- lift (take "NIL") ;;
  if ok then ret EmptyString else xstring.

Definition xastring : M string :=
  fun p =>
    if hasPrefix DQUOTE p || hasPrefix "{" p || hasPrefix "~{" p
    then xstring p
    else xtakechars astringChar "astring" p.

Definition xatom : M string := xtakechars atomChar "atom".

(** ** Flags and status attributes *)

Definition systemFlags : list string :=
  [ BACKSLASH ++ "answered"; BACKSLASH ++ "flagged"; BACKSLASH ++ "deleted";
    BACKSLASH ++ "seen"; BACKSLASH ++ "draft" ].

Definition xflag : M string :=
  '(w, _) <- lift (takelist [BACKSLASH; "$"]) ;;
  a <- xatom ;;
  let s := w ++ a in
  match index s 0 with
  | None => raise PanicIndex
  | Some c =>
    (if (byte c =? 92)%Z
     then
       if existsb (String.eqb (ToLower s)) systemFlags then ret tt
       else xerrorf "unknown system flag %s"
     else ret tt) ;;
    ret s
  end.

Definition xstatusAtt : M string :=
  xtakelist [ "MESSAGES"; "UIDNEXT"; "UIDVALIDITY"; "UNSEEN"; "DELETED";
              "SIZE"; "RECENT"; "APPENDLIMIT" ].

(** ** Sequence sets *)

(** The structs [setNumber], [numRange] and [numSet] as the parser fills
    them; a nil pointer is [None]. *)
Record setNumber := mkSetNumber {
  sn_number : Z;
  sn_star : bool
}.

Record numRange := mkNumRange {
  first : setNumber;
  last : option setNumber
}.

Record numSet := mkNumSet {
  searchResult : bool;
  ranges : list numRange
}.

Definition xnumRange : M numRange :=
  ok <- lift (take "*") ;;
  f <- (if ok then ret (mkSetNumber 0 true)
        else n <- xnznumber ;; ret (mkSetNumber n false)) ;;
  ok <- lift (take ":") ;;
  if ok then
    ok <- lift (take "*") ;;
    l <- (if ok then ret (mkSetNumber 0 true)
          else n <- xnznumber ;; ret (mkSetNumber n false)) ;;
    ret (mkNumRange f (Some l))
  else ret (mkNumRange f None).

(** What is left of the current line. *)
Definition remaining (p : parser) : nat := len (upper p) - o p.

(** [for p.take(",") { r.ranges = append(r.ranges, p.xnumRange()) }]; every
    turn consumes a comma, so [remaining] turns are enough. *)
Fixpoint xnumSet_loop (fuel : nat) (acc : list numRange) : M (list numRange) :=
  ok <- lift (take ",") ;;
  if ok then
    match fuel with
    | O => raise OutOfFuel
    | S f => r <- xnumRange ;; xnumSet_loop f (acc ++ [r])%list
    end
  else ret acc.

Definition xnumSet : M numSet :=
  context "numSet"
    (ok <- lift (take "$") ;;
     if ok then ret (mkNumSet true [])
     else
       r <- xnumRange ;;
       fun p =>
         (l <- xnumSet_loop (remaining p) [r] ;; ret (mkNumSet false l)) p).

(** ** Sections and fetch attributes *)

(** The structs of the fetch attribute tree as the parser fills them; a nil
    pointer is [None], a nil slice the empty list. *)
Record sectionMsgtext := mkSectionMsgtext {
  s : string;
  headers : list string
}.

Record sectionText := mkSectionText {
  mime : bool;
  st_msgtext : option sectionMsgtext
}.

Record sectionPart := mkSectionPart {
  part : list Z;
  text : option sectionText
}.

Record sectionSpec := mkSectionSpec {
  msgtext : option sectionMsgtext;
  ss_part : option sectionPart
}.

Record partial := mkPartial {
  offset : Z;
  count : Z
}.

Record fetchAtt := mkFetchAtt {
  field : string;
  peek : bool;
  section : option sectionSpec;
  sectionBinary : list Z;
  fa_partial : option partial
}.

(** [hasPrefix] read inside a method that may panic. *)
Definition hasPrefixM (w : string) : M bool := fun p => (Ok (hasPrefix w p), p).

(** What the client has still to deliver in all: the rest of the current
    line and what is on the wire.  It bounds every loop of the parser that
    reads strings, which may continue on the next line. *)
Definition budget (p : parser) : nat := remaining p + len (wire (pconn p)).

Section Fetch.

(** [textproto.CanonicalMIMEHeaderKey] of the Go library. *)
Variable CanonicalMIMEHeaderKey : string -> string.

(** The header loop of [xsectionMsgtext]; every turn that does not stop
    consumes a space and a string, so [budget] turns are enough. *)
Fixpoint xsectionMsgtext_loop (fuel : nat) (hs : list string)
  : M (list string) :=
  ok <- lift (take ")") ;;
  if ok then ret hs
  else
    xspace ;;
    a <- xastring ;;
    match fuel with
    | O => raise OutOfFuel
    | S f => xsectionMsgtext_loop f (hs ++ [CanonicalMIMEHeaderKey a])%list
    end.

Definition xsectionMsgtext : M sectionMsgtext :=
  context "sectionMsgtext"
    (w <- xtakelist ["HEADER.FIELDS.NOT"; "HEADER.FIELDS"; "HEADER"; "TEXT"] ;;
     if HasPrefix w "HEADER.FIELDS" then
       xspace ;;
       xtake "(" ;;
       a <- xastring ;;
       fun p =>
         (hs <- xsectionMsgtext_loop (budget p) [CanonicalMIMEHeaderKey a] ;;
          ret (mkSectionMsgtext w hs)) p
     else ret (mkSectionMsgtext w [])).

(** The part loop of [xsectionSpec]; every turn consumes a dot. *)
Fixpoint xsectionSpec_loop (fuel : nat) (pt : list Z) : M sectionPart :=
  ok <- lift (take ".") ;;
  if negb ok then ret (mkSectionPart pt None)
  else
    '(n, ok) <- lift nznumber ;;
    if ok then
      match fuel with
      | O => raise OutOfFuel
      | S f => xsectionSpec_loop f (pt ++ [n])%list
      end
    else
      ok <- lift (take "MIME") ;;
      if ok then ret (mkSectionPart pt (Some (mkSectionText true None)))
      else
        m <- xsectionMsgtext ;;
        ret (mkSectionPart pt (Some (mkSectionText false (Some m)))).

Definition xsectionSpec : M sectionSpec :=
  context "parseSectionSpec"
    ('(n, ok) <- lift nznumber ;;
     if negb ok then
       m <- xsectionMsgtext ;; ret (mkSectionSpec (Some m) None)
     else
       context "part..."
         (fun p =>
            (pt <- xsectionSpec_loop (remaining p) [n] ;;
             ret (mkSectionSpec None (Some pt))) p)).

Definition xsection : M sectionSpec :=
  context "parseSection"
    (xtake "[" ;;
     ok <- lift (take "]") ;;
     if ok then ret (mkSectionSpec None None)
     else
       r <- xsectionSpec ;;
       xtake "]" ;;
       ret r).

Definition xpartial : M partial :=
  xtake "<" ;;
  off <- xnumber ;;
  xtake "." ;;
  cnt <- xnznumber ;;
  xtake ">" ;;
  ret (mkPartial off cnt).

(** The loop of [xsectionBinary]; every turn consumes a dot. *)
Fixpoint xsectionBinary_loop (fuel : nat) (r : list Z) : M (list Z) :=
  ok <- lift (take ".") ;;
  if negb ok then ret r
  else
    match fuel with
    | O => raise OutOfFuel
    | S f => n <- xnznumber ;; xsectionBinary_loop f (r ++ [n])%list
    end.

Definition xsectionBinary : M (list Z) :=
  xtake "[" ;;
  ok <- lift (take "]") ;;
  if ok then ret []
  else
    n <- xnznumber ;;
    r <- (fun p => xsectionBinary_loop (remaining p) [n] p) ;;
    xtake "]" ;;
    ret r.

Definition fetchAttWords : list string :=
  [ "ENVELOPE"; "FLAGS"; "INTERNALDATE"; "RFC822.SIZE"; "BODYSTRUCTURE"; "UID";
    "BODY.PEEK"; "BODY"; "BINARY.PEEK"; "BINARY.SIZE"; "BINARY";
    "RFC822.HEADER"; "RFC822.TEXT"; "RFC822" ].

Definition xfetchAtt : M fetchAtt :=
  context "fetchAtt"
    (f <- xtakelist fetchAttWords ;;
     let pk := HasSuffix f ".PEEK" in
     let fld := TrimSuffix f ".PEEK" in
     if String.eqb fld "BODY" then
       b <- hasPrefixM "[" ;;
       if b then
         sec <- xsection ;;
         b <- hasPrefixM "<" ;;
         if b then
           pt <- xpartial ;; ret (mkFetchAtt fld pk (Some sec) [] (Some pt))
         else ret (mkFetchAtt fld pk (Some sec) [] None)
       else ret (mkFetchAtt fld pk None [] None)
     else if String.eqb fld "BINARY" then
       sb <- xsectionBinary ;;
       b <- hasPrefixM "<" ;;
       if b then pt <- xpartial ;; ret (mkFetchAtt fld pk None sb (Some pt))
       else ret (mkFetchAtt fld pk None sb None)
     else if String.eqb fld "BINARY.SIZE" then
       sb <- xsectionBinary ;; ret (mkFetchAtt fld pk None sb None)
     else ret (mkFetchAtt fld pk None [] None)).

End Fetch.

(** ** Dates *)

Definition xint (v : string) : M Z :=
  match Strconv.ParseInt v 32 with
  | inr _ => xerrorf "bad int %q: %v"
  | inl n => ret n
  end.

Definition digit : M (string * bool) :=
  fun p =>
    if empty p then (Ok (EmptyString, false), p)
    else
      match index (orig p) (o p) with
      | None => (Panic PanicIndex, p)
      | Some c =>
        if (byte c <? 48)%Z || (57 <? byte c)%Z then (Ok (EmptyString, false), p)
        else (Ok (slice (orig p) (o p) (o p + 1), true), set_o p (o p + 1))
      end.

Definition xdigit : M string :=
  '(d, ok) <- digit ;;
  if negb ok then xerrorf "expected digit" else ret d.

Definition months : list string :=
  [ "jan"; "feb"; "mar"; "apr"; "may"; "jun";
    "jul"; "aug"; "sep"; "oct"; "nov"; "dec" ].

(** [for i, m := range months { if m == s { return time.Month(1 + i) } }] *)
Fixpoint month_index (i : Z) (l : list string) (v : string) : option Z :=
  match l with
  | [] => None
  | m :: l' => if String.eqb m v then Some (1 + i)%Z else month_index (i + 1)%Z l' v
  end.

Definition xdateMonth : M Z :=
  t <- xtaken 3 ;;
  match month_index 0 months (ToLower t) with
  | Some m => ret m
  | None => xerrorf "unknown month %q"
  end.

Definition xdateDay : M Z :=
  d <- xdigit ;;
  '(d2, ok) <- digit ;;
  xint (if ok then d ++ d2 else d).

Inductive Location :=
| UTC
| FixedZone (name : string) (seconds : Z).

(** The arguments of a call of [time.Date]; the normalisation the time
    package applies to fields out of range is not modelled. *)
Record Time := Date {
  year : Z;
  month : Z;
  day : Z;
  hour : Z;
  min : Z;
  sec : Z;
  nsec : Z;
  loc : Location
}.

Definition xdate : M Time :=
  dquote <- lift (take DQUOTE) ;;
  d <- xdateDay ;;
  xtake "-" ;;
  mon <- xdateMonth ;;
  xtake "-" ;;
  y <- (t <- xtaken 4 ;; xint t) ;;
  (if dquote then _ <- lift (take DQUOTE) ;; ret tt else ret tt) ;;
  ret (Date y mon d 0 0 0 0 UTC).

(** ** Tagged extensions *)

(** [for p.take(",") { p.xnumRange() }] *)
Fixpoint xtaggedExtSimple_loop (fuel : nat) : M unit :=
  ok <- lift (take ",") ;;
  if ok then
    match fuel with
    | O => raise OutOfFuel
    | S f => xnumRange ;; xtaggedExtSimple_loop f
    end
  else ret tt.

Definition xtaggedExtSimple : M unit :=
  ds <- lift digits ;;
  (if String.eqb ds EmptyString then xnumSet ;; ret tt else ret tt) ;;
  match Strconv.ParseInt ds 64 with
  | inr _ => xerrorf "parsing int: %v"
  | inl _ =>
    ok <- lift (take ":") ;;
    (if ok then
       ok <- lift (take "*") ;;
       if negb ok then xnznumber ;; ret tt else ret tt
     else ret tt) ;;
    fun p => xtaggedExtSimple_loop (remaining p) p
  end.

(** ** Tags, commands and labels *)

Definition remainder (p : parser) : string := from (o p) (orig p).

Definition peekn (n : nat) (p : parser) : string * bool :=
  if (len (from (o p) (upper p)) <? n)%nat then (EmptyString, false)
  else (slice (upper p) (o p) (o p + n), true).

(** The loop of [xtake1fn] over the runes of [p.upper[p.o:]]; [i] counts the
    runes accepted so far and [acc] is [s]. *)
Fixpoint xtake1fn_loop (fn : nat -> Z -> bool) (i : nat) (acc : string)
    (rs : list (nat * Z)) : string :=
  match rs with
  | [] => acc
  | (_, c) :: rs' =>
    if negb (fn i c) then acc
    else xtake1fn_loop fn (S i) (acc ++ Utf8.string_of_rune c) rs'
  end.

Definition xtake1fn (fn : nat -> Z -> bool) : M string :=
  fun p =>
    let s :=
      xtake1fn_loop fn 0 EmptyString (Utf8.range (from (o p) (upper p))) in
    if String.eqb s EmptyString
    then xerrorf "expected at least one character" p
    else (Ok s, set_o p (o p + len s)).

(** The index of the first rune that ends a tag. *)
Fixpoint xtag_scan (rs : list (nat * Z)) : option nat :=
  match rs with
  | [] => None
  | (i, c) :: rs' =>
    if (c =? 43)%Z || negb (contains astringChar c) then Some i
    else xtag_scan rs'
  end.

Definition xtag : M string :=
  xnonempty ;;
  fun p =>
    match xtag_scan (Utf8.range (from (o p) (orig p))) with
    | Some i => xtake1n i "tag" p
    | None => xtakeall p
    end.

(** The index of the first rune that ends a command name, for the parser
    [p] whose upper-cased line the runes are read from. *)
Fixpoint xcommand_scan (p : parser) (rs : list (nat * Z)) : option nat :=
  match rs with
  | [] => None
  | (i, c) :: rs' =>
    if negb ((65 <=? c)%Z && (c <=? 90)%Z
             || (c =? 32)%Z
                && String.eqb (slice (upper p) (o p) (o p + i)) "UID")
    then Some i
    else xcommand_scan p rs'
  end.

Definition xcommand : M string :=
  fun p =>
    match xcommand_scan p (Utf8.range (from (o p) (upper p))) with
    | Some i => xtake1n i "command" p
    | None => xtakeall p
    end.

(** The function [xtaggedExtLabel] passes to [xtake1fn]. *)
Definition xtaggedExtLabel_fn (i : nat) (c : Z) : bool :=
  (65 <=? c)%Z && (c <=? 90)%Z || (c =? 45)%Z || (c =? 95)%Z || (c =? 46)%Z
  || (0 <? i)%nat && ((48 <=? c)%Z && (c <=? 57)%Z || (c =? 58)%Z).

Definition xtaggedExtLabel : M string := xtake1fn xtaggedExtLabel_fn.

(** ** Lists of flags and of mailboxes *)

(** [for !p.take(")") { p.xspace(); l = append(l, p.xflag()) }]; every turn
    consumes a space, so [remaining] turns are enough. *)
Fixpoint xflagList_loop (fuel : nat) (l : list string) : M (list string) :=
  ok <- lift (take ")") ;;
  if ok then ret l
  else
    xspace ;;
    match fuel with
    | O => raise OutOfFuel
    | S f => w <- xflag ;; xflagList_loop f (l ++ [w])%list
    end.

Definition xflagList : M (list string) :=
  xtake "(" ;;
  b <- hasPrefixM ")" ;;
  l <- (if negb b then w <- xflag ;; ret [w] else ret []) ;;
  fun p => xflagList_loop (remaining p) l p.

Definition xlistMailbox : M string :=
  fun p =>
    if hasPrefix DQUOTE p || hasPrefix "{" p then xstring p
    else xtakechars (atomChar ++ listWildcards ++ respSpecials) "list-char" p.

(** [for !p.take(")") { p.xspace(); l = append(l, p.xlistMailbox()) }]; a
    mailbox may be a literal that continues on the next line, so the turns
    are bounded by [budget]. *)
Fixpoint xmboxOrPat_loop (fuel : nat) (l : list string) : M (list string) :=
  ok <- lift (take ")") ;;
  if ok then ret l
  else
    xspace ;;
    match fuel with
    | O => raise OutOfFuel
    | S f => w <- xlistMailbox ;; xmboxOrPat_loop f (l ++ [w])%list
    end.

Definition xmboxOrPat : M (list string * bool) :=
  ok <- lift (take "(") ;;
  if negb ok then w <- xlistMailbox ;; ret ([w], false)
  else
    w <- xlistMailbox ;;
    fun p => (l <- xmboxOrPat_loop (budget p) [w] ;; ret (l, true)) p.

(** ** Lists of fetch attributes *)

Section FetchList.

Variable CanonicalMIMEHeaderKey : string -> string.

(** The closure [fields] of [xfetchAtts]. *)
Definition fields (l : list string) : list fetchAtt :=
  map (fun w => mkFetchAtt w false None [] None) l.

(** [for { l = append(l, p.xfetchAtt()); if !p.take(" ") { break } }]; every
    turn that continues consumes a space. *)
Fixpoint xfetchAtts_loop (fuel : nat) (l : list fetchAtt)
  : M (list fetchAtt) :=
  a <- xfetchAtt CanonicalMIMEHeaderKey ;;
  ok <- lift (take " ") ;;
  if negb ok then ret (l ++ [a])%list
  else
    match fuel with
    | O => raise OutOfFuel
    | S f => xfetchAtts_loop f (l ++ [a])%list
    end.

(** [panic("missing case")] has a string for its value, not a
    [syntaxError]: the method gives that string on the left and the
    attributes it returns on the right. *)
Definition xfetchAtts : M (string + list fetchAtt) :=
  context "fetchAtts"
    ('(w, ok) <- lift (takelist ["ALL"; "FAST"; "FULL"]) ;;
     if ok then
       if String.eqb w "ALL"
       then ret (inr (fields ["FLAGS"; "INTERNALDATE"; "RFC822.SIZE";
                              "ENVELOPE"]))
       else if String.eqb w "FAST"
       then ret (inr (fields ["FLAGS"; "INTERNALDATE"; "RFC822.SIZE"]))
       else if String.eqb w "FULL"
       then ret (inr (fields ["FLAGS"; "INTERNALDATE"; "RFC822.SIZE";
                              "ENVELOPE"; "BODY"]))
       else ret (inl "missing case")
     else
       b <- hasPrefixM "(" ;;
       if negb b then
         a <- xfetchAtt CanonicalMIMEHeaderKey ;; ret (inr [a])
       else
         xtake "(" ;;
         l <- (fun p => xfetchAtts_loop (budget p) [] p) ;;
         xtake ")" ;;
         ret (inr l)).

End FetchList.

(** ** Dates with a time *)

Definition xdateDayFixed : M Z :=
  ok <- lift (take " ") ;;
  if ok then d <- xdigit ;; xint d
  else
    d1 <- xdigit ;;
    d2 <- xdigit ;;
    xint (d1 ++ d2).

Definition xtime : M (Z * Z * Z) :=
  h <- (t <- xtaken 2 ;; xint t) ;;
  xtake ":" ;;
  m <- (t <- xtaken 2 ;; xint t) ;;
  xtake ":" ;;
  s <- (t <- xtaken 2 ;; xint t) ;;
  ret (h, m, s).

(** Division and remainder of Go integers truncate towards zero. *)
Definition xzone : M (string * Z) :=
  sign <- xtakelist ["+"; "-"] ;;
  s <- xtaken 4 ;;
  v <- xint s ;;
  let seconds := (Z.quot v 100 * 3600 + Z.rem v 100 * 60)%Z in
  match index sign 0 with
  | None => raise PanicIndex
  | Some c =>
    ret (sign ++ s, if (byte c =? 45)%Z then (- seconds)%Z else seconds)
  end.

Definition xdateTime : M Time :=
  xtake DQUOTE ;;
  d <- xdateDayFixed ;;
  xtake "-" ;;
  mon <- xdateMonth ;;
  xtake "-" ;;
  y <- (t <- xtaken 4 ;; xint t) ;;
  xspace ;;
  '(hours, minutes, seconds) <- xtime ;;
  xspace ;;
  '(name, zoneSeconds) <- xzone ;;
  xtake DQUOTE ;;
  ret (Date y mon d hours minutes seconds 0 (FixedZone name zoneSeconds)).

(** ** Notions used to state the properties *)

(** The parser's standing invariant: the upper-cased view is [toUpper] of the
    original line and the offset is inside the line.  [newParser] and the
    rebinding in [xstring] establish it, every method keeps it. *)
Definition wf (p : parser) : Prop :=
  upper p = toUpper (orig p) /\ o p <= len (orig p).

(** The value of a string of decimal digits, most significant first. *)
Fixpoint decimal_from (acc : Z) (v : string) : Z :=
  match v with
  | EmptyString => acc
  | String c t => decimal_from (acc * 10 + (byte c - 48))%Z t
  end.

Definition decimal_value (v : string) : Z := decimal_from 0 v.

Fixpoint all_digits (v : string) : bool :=
  match v with
  | EmptyString => true
  | String c t => (48 <=? byte c)%Z && (byte c <=? 57)%Z && all_digits t
  end.

(** The digit run at the cursor, as [nznumber] and [number] slice it. *)
Definition digit_run (p : parser) : string :=
  slice (upper p) (o p) (o p + digit_bytes (from (o p) (upper p))).

(** No word of the list is a proper prefix of a later word: the order that
    makes first-match the longest match. *)
Fixpoint longest_first (l : list string) : bool :=
  match l with
  | [] => true
  | w :: l' =>
    forallb (fun g => negb (HasPrefix g w && (len w <? len g)%nat)) l'
    && longest_first l'
  end.

(** A side of a range is the star marker or a non-zero [uint32], never both. *)
Definition setNumber_ok (n : setNumber) : bool :=
  if sn_star n then (sn_number n =? 0)%Z
  else (1 <=? sn_number n)%Z && (sn_number n <=? 4294967295)%Z.

Definition numRange_ok (r : numRange) : bool :=
  setNumber_ok (first r)
  && match last r with Some l => setNumber_ok l | None => true end.

(** [$] is exclusive of ranges. *)
Definition numSet_ok (v : numSet) : bool :=
  (if searchResult v
   then match ranges v with [] => true | _ => false end
   else match ranges v with [] => false | _ => true end)
  && forallb numRange_ok (ranges v).

(** No byte of the string is a backslash. *)
Fixpoint no_backslash (v : string) : bool :=
  match v with
  | EmptyString => true
  | String c t => negb (byte c =? 92)%Z && no_backslash t
  end.

(** The parser is in order and what is left of the original line at the
    cursor is [v]. *)
Definition at_cursor (p : parser) (v : string) : Prop :=
  wf p /\ from (o p) (orig p) = v.

(** Every rune of the class is below 0x80. *)
Definition ascii_class (cs : string) : bool :=
  forallb (fun ic => (snd ic <? 0x80)%Z) (Utf8.range cs).

(** The number of leading bytes of [v] that are in the class. *)
Fixpoint class_bytes (cs v : string) : nat :=
  match v with
  | EmptyString => O
  | String c t => if contains cs (byte c) then S (class_bytes cs t) else O
  end.

(** Every byte of [v] is in the class. *)
Fixpoint in_class (cs v : string) : bool :=
  match v with
  | EmptyString => true
  | String c t => contains cs (byte c) && in_class cs t
  end.

(** [v] is empty or starts with a byte outside the class. *)
Definition stops (cs v : string) : bool :=
  match v with
  | EmptyString => true
  | String c _ => negb (contains cs (byte c))
  end.

(** [x] is the value of a byte of [v]. *)
Fixpoint has_byte (v : string) (x : Z) : bool :=
  match v with
  | EmptyString => false
  | String c t => (byte c =? x)%Z || has_byte t x
  end.

(** Every byte of [v] is below 0x80. *)
Fixpoint all_low (v : string) : bool :=
  match v with
  | EmptyString => true
  | String c t => (byte c <? 0x80)%Z && all_low t
  end.

(** The characters the code removes from CHAR to get ATOM-CHAR, apart from
    the control characters: space, dquote, percent, parentheses, star,
    backslash, closing bracket and opening brace. *)
Definition atom_specials : list Z := [32; 34; 37; 40; 41; 42; 92; 93; 123]%Z.

(** No byte of [v] is an ASCII letter. *)
Fixpoint no_letters (v : string) : bool :=
  match v with
  | EmptyString => true
  | String c t =>
    negb ((65 <=? byte c)%Z && (byte c <=? 90)%Z)
    && negb ((97 <=? byte c)%Z && (byte c <=? 122)%Z)
    && no_letters t
  end.

(** Every byte of [v] is an ASCII character that a quoted string holds as
    it is: below 0x80 and not NUL, LF, CR, dquote or backslash. *)
Fixpoint plain (v : string) : bool :=
  match v with
  | EmptyString => true
  | String c t =>
    (byte c <? 0x80)%Z
    && negb ((byte c =? 0)%Z || (byte c =? 10)%Z || (byte c =? 13)%Z
             || (byte c =? 34)%Z || (byte c =? 92)%Z)
    && plain t
  end.

(** The three bytes of U+FFFD, the replacement character. *)
Definition replacement : string :=
  String "239"%char (String "191"%char (String "189"%char EmptyString)).

(** Every byte of [v] satisfies [f]. *)
Fixpoint all_bytes (f : Z -> bool) (v : string) : bool :=
  match v with
  | EmptyString => true
  | String c t => f (byte c) && all_bytes f t
  end.

(** [v] is empty or starts with a byte that does not satisfy [f]. *)
Definition ends_run (f : Z -> bool) (v : string) : bool :=
  match v with
  | EmptyString => true
  | String c _ => negb (f (byte c))
  end.

(** A byte a tag may hold: an astring character other than the plus sign. *)
Definition tag_byte (x : Z) : bool :=
  contains astringChar x && negb (x =? 43)%Z.

(** An ASCII letter of either case. *)
Definition letter (x : Z) : bool :=
  (65 <=? x)%Z && (x <=? 90)%Z || (97 <=? x)%Z && (x <=? 122)%Z.

(** [fn] accepts every byte of [v], all below 0x80, the first of them as
    the rune of index [i]. *)
Fixpoint accepted (fn : nat -> Z -> bool) (i : nat) (v : string) : bool :=
  match v with
  | EmptyString => true
  | String c t => (byte c <? 0x80)%Z && fn i (byte c) && accepted fn (S i) t
  end.

(** A byte that may start the label of a tagged extension, and a byte that
    may follow. *)
Definition label_first (x : Z) : bool :=
  letter x || (x =? 45)%Z || (x =? 95)%Z || (x =? 46)%Z.

Definition label_byte (x : Z) : bool :=
  label_first x || (48 <=? x)%Z && (x <=? 57)%Z || (x =? 58)%Z.

(** A flag as [xflag] takes it: a backslash and the name of a system flag
    in any case, a dollar sign and an atom, or an atom. *)
Definition flag_word (v : string) : bool :=
  match v with
  | EmptyString => false
  | String c t =>
    if (byte c =? 92)%Z
    then negb (len t =? 0)%nat && in_class atomChar t
         && existsb (String.eqb (ToLower v)) systemFlags
    else if (byte c =? 36)%Z
    then negb (len t =? 0)%nat && in_class atomChar t
    else in_class atomChar v
  end.

(** The words of [l], each after one space; the words of [l] with one space
    between them. *)
Fixpoint after_spaces (l : list string) : string :=
  match l with
  | [] => EmptyString
  | w :: l' => " " ++ w ++ after_spaces l'
  end.

Definition spaced (l : list string) : string :=
  match l with
  | [] => EmptyString
  | w :: l' => w ++ after_spaces l'
  end.

(** A mailbox name or pattern written without quotes: a non-empty run of
    atom characters, list wildcards and closing brackets. *)
Definition list_word (v : string) : bool :=
  negb (len v =? 0)%nat
  && in_class (atomChar ++ listWildcards ++ respSpecials) v.

(** An ASCII digit. *)
Definition decimal_digit (x : Z) : bool := (48 <=? x)%Z && (x <=? 57)%Z.

(** The same line, connection and context stack, the cursor no further
    back: what a method that reads the current line only does to the
    parser. *)
Definition advances (p p' : parser) : Prop :=
  orig p' = orig p /\ upper p' = upper p /\ pconn p' = pconn p
  /\ contexts p' = contexts p /\ o p <= o p'.

(** A method that keeps the invariant and reads the current line only,
    whether it returns or panics. *)
Definition steady {A} (m : M A) : Prop :=
  forall p, wf p -> wf (snd (m p)) /\ advances p (snd (m p)).

(** A method whose loops, if it has any, never run out of the turns the
    model grants them. *)
Definition fueled {A} (m : M A) : Prop :=
  forall p, fst (m p) <> Panic OutOfFuel.

(** A method that keeps the invariant, never adds to what the client has
    still to deliver, and never runs out of turns. *)
Definition sound {A} (m : M A) : Prop :=
  forall p, wf p ->
    wf (snd (m p)) /\ budget (snd (m p)) <= budget p
    /\ fst (m p) <> Panic OutOfFuel.

(** A connection with nothing on the wire, and a parser on one line of it. *)
Definition idle : conn := mkConn EmptyString [].

Definition on_line (v : string) : parser := newParser v idle.

(** ** Go strings: basic facts *)

Section StringFacts.

Lemma byte_range (c : ascii) : (0 <= byte c < 256)%Z.
Proof.
  unfold byte. pose proof (N_ascii_bounded c). lia.
Qed.

Lemma of_byte_byte (c : ascii) : of_byte (byte c) = c.
Proof.
  unfold of_byte. pose proof (byte_range c) as H.
  rewrite Z.mod_small by exact H.
  unfold byte. rewrite N2Z.id. apply ascii_N_embedding.
Qed.

Lemma byte_of_byte (z : Z) : (0 <= z < 256)%Z -> byte (of_byte z) = z.
Proof.
  intros H. unfold byte, of_byte. rewrite Z.mod_small by exact H.
  rewrite N_ascii_embedding by lia. lia.
Qed.

Lemma byte_inj (c d : ascii) : byte c = byte d -> c = d.
Proof.
  intros H. rewrite <- (of_byte_byte c), <- (of_byte_byte d). now rewrite H.
Qed.

Lemma len_map_bytes (f : ascii -> ascii) (v : string) :
  len (map_bytes f v) = len v.
Proof.
  induction v as [|c t IH]; simpl; [reflexivity | now f_equal].
Qed.

Lemma index_map_bytes (f : ascii -> ascii) (v : string) (i : nat) :
  index (map_bytes f v) i = option_map f (index v i).
Proof.
  unfold index. revert i.
  induction v as [|c t IH]; intros i; simpl; [reflexivity|].
  destruct i; simpl; [reflexivity | apply IH].
Qed.

Lemma from_map_bytes (f : ascii -> ascii) (n : nat) (v : string) :
  from n (map_bytes f v) = map_bytes f (from n v).
Proof.
  revert v. induction n as [|n IH]; intros v; [reflexivity|].
  destruct v; simpl; [reflexivity | apply IH].
Qed.

Lemma map_bytes_app (f : ascii -> ascii) (a b : string) :
  map_bytes f (a ++ b) = map_bytes f a ++ map_bytes f b.
Proof.
  induction a as [|c t IH]; simpl; [reflexivity | now rewrite IH].
Qed.

Lemma from_nil (n : nat) : from n EmptyString = EmptyString.
Proof. destruct n; reflexivity. Qed.

Lemma len_from (n : nat) (v : string) : len (from n v) = len v - n.
Proof.
  revert v. induction n as [|n IH]; intros v; simpl.
  - unfold len. lia.
  - destruct v; simpl; [reflexivity | apply IH].
Qed.

Lemma from_from (a b : nat) (v : string) : from a (from b v) = from (b + a) v.
Proof.
  revert v. induction b as [|b IH]; intros v; simpl; [reflexivity|].
  destruct v; simpl; [apply from_nil | apply IH].
Qed.

Lemma from_all (n : nat) (v : string) : len v <= n -> from n v = EmptyString.
Proof.
  revert v. induction n as [|n IH]; intros v H.
  - destruct v; simpl in *; [reflexivity | unfold len in H; simpl in H; lia].
  - destruct v; simpl; [reflexivity|].
    apply IH. unfold len in *. simpl in H. lia.
Qed.

Lemma upto_all (n : nat) (v : string) : len v <= n -> upto n v = v.
Proof.
  revert v. induction n as [|n IH]; intros v H.
  - destruct v; simpl in *; [reflexivity | unfold len in H; simpl in H; lia].
  - destruct v; simpl; [reflexivity|].
    f_equal. apply IH. unfold len in *. simpl in H. lia.
Qed.

Lemma len_upto (n : nat) (v : string) : len (upto n v) = Nat.min n (len v).
Proof.
  revert v. induction n as [|n IH]; intros v; simpl; [reflexivity|].
  destruct v; simpl; [reflexivity|].
  unfold len in *. simpl. now rewrite IH.
Qed.

Lemma len_app (a b : string) : len (a ++ b) = len a + len b.
Proof.
  unfold len. induction a as [|c t IH]; simpl; [reflexivity | now rewrite IH].
Qed.

Lemma from_len_app (a b : string) : from (len a) (a ++ b) = b.
Proof.
  induction a as [|c t IH]; simpl; [reflexivity | exact IH].
Qed.

Lemma upto_len_app (a b : string) : upto (len a) (a ++ b) = a.
Proof.
  induction a as [|c t IH]; simpl; [reflexivity | now rewrite IH].
Qed.

Lemma upto_from (n : nat) (v : string) : upto n v ++ from n v = v.
Proof.
  revert v. induction n as [|n IH]; intros v; simpl; [reflexivity|].
  destruct v; simpl; [reflexivity | now rewrite IH].
Qed.

Lemma append_nil_r (v : string) : v ++ EmptyString = v.
Proof.
  induction v as [|c t IH]; simpl; [reflexivity | now rewrite IH].
Qed.

Lemma append_assoc (a b c : string) : (a ++ b) ++ c = a ++ (b ++ c).
Proof.
  induction a as [|x t IH]; simpl; [reflexivity | now rewrite IH].
Qed.

Lemma HasPrefix_app (w r : string) : HasPrefix (w ++ r) w = true.
Proof.
  induction w as [|c t IH]; simpl; [reflexivity|].
  now rewrite Ascii.eqb_refl, IH.
Qed.

Lemma HasPrefix_split (v w : string) :
  HasPrefix v w = true -> v = w ++ from (len w) v.
Proof.
  revert v. induction w as [|c t IH]; intros v H; simpl in *; [reflexivity|].
  destruct v as [|d v']; [discriminate|].
  apply andb_true_iff in H. destruct H as [Hc Ht].
  apply Ascii.eqb_eq in Hc. subst d. simpl. f_equal. now apply IH.
Qed.

Lemma HasPrefix_len (v w : string) : HasPrefix v w = true -> len w <= len v.
Proof.
  intros H. apply HasPrefix_split in H.
  rewrite H, len_app. lia.
Qed.

(** Two prefixes of one string: the shorter is a prefix of the longer. *)
Lemma HasPrefix_chain (v a b : string) :
  HasPrefix v a = true -> HasPrefix v b = true -> len a <= len b ->
  HasPrefix b a = true.
Proof.
  revert v b. induction a as [|c t IH]; intros v b Ha Hb Hl; simpl;
    [reflexivity|].
  destruct b as [|d b']; [unfold len in Hl; simpl in Hl; lia|].
  destruct v as [|e v']; [discriminate|].
  simpl in Ha, Hb.
  apply andb_true_iff in Ha. destruct Ha as [Hc Ha].
  apply andb_true_iff in Hb. destruct Hb as [Hd Hb].
  apply Ascii.eqb_eq in Hc. apply Ascii.eqb_eq in Hd. subst.
  rewrite Ascii.eqb_refl. simpl.
  apply (IH v'); [exact Ha | exact Hb | unfold len in *; simpl in Hl; lia].
Qed.

End StringFacts.

(** ** The panic monad: how a sequence of calls runs *)

Section MonadFacts.

Context {A B : Type}.

Lemma bind_Ok_inv (m : M A) (k : A -> M B) (p p' : parser) (b : B) :
  bind m k p = (Ok b, p') ->
  exists a p1, m p = (Ok a, p1) /\ k a p1 = (Ok b, p').
Proof.
  unfold bind. destruct (m p) as [[a|e] p1]; intros H.
  - exists a, p1. split; [reflexivity | exact H].
  - discriminate.
Qed.

Lemma bind_Ok (m : M A) (k : A -> M B) (p p1 : parser) (a : A) :
  m p = (Ok a, p1) -> bind m k p = k a p1.
Proof. unfold bind. now intros ->. Qed.

Lemma bind_Panic (m : M A) (k : A -> M B) (p p1 : parser) (e : panic) :
  m p = (Panic e, p1) -> bind m k p = (Panic e, p1).
Proof. unfold bind. now intros ->. Qed.

Lemma bind_lift (f : parser -> A * parser) (k : A -> M B) (p : parser) :
  bind (lift f) k p = k (fst (f p)) (snd (f p)).
Proof. unfold bind, lift. now destruct (f p). Qed.

End MonadFacts.

(** ** strconv on digit strings *)

Section StrconvFacts.

Local Open Scope Z_scope.

Lemma decimal_from_ge (v : string) (acc : Z) :
  all_digits v = true -> 0 <= acc -> acc <= decimal_from acc v.
Proof.
  revert acc. induction v as [|c t IH]; intros acc Hd Ha; simpl; [lia|].
  simpl in Hd. apply andb_true_iff in Hd. destruct Hd as [Hc Ht].
  apply andb_true_iff in Hc. destruct Hc as [H1 H2].
  apply Z.leb_le in H1. apply Z.leb_le in H2.
  specialize (IH (acc * 10 + (byte c - 48)) Ht). lia.
Qed.

(** On a string of digits the loop of [ParseUint] returns the decimal value,
    or a range error when the value exceeds [maxVal]. *)
Lemma ParseUint_loop_digits (maxVal : Z) (v : string) (n : Z) :
  maxVal <= Strconv.maxUint64 -> all_digits v = true -> 0 <= n <= maxVal ->
  Strconv.ParseUint_loop maxVal v n =
    if decimal_from n v <=? maxVal then inl (decimal_from n v)
    else inr Strconv.ErrRange.
Proof.
  intros Hmax. revert n. induction v as [|c t IH]; intros n Hd Hn; simpl.
  - destruct (Z.leb_spec n maxVal); [reflexivity | lia].
  - simpl in Hd. apply andb_true_iff in Hd. destruct Hd as [Hc Ht].
    apply andb_true_iff in Hc. destruct Hc as [H1 H2].
    apply Z.leb_le in H1. apply Z.leb_le in H2.
    replace ((byte c - 48 <? 0) || (9 <? byte c - 48)) with false
      by (symmetry; apply orb_false_iff; split;
          [apply Z.ltb_ge | apply Z.ltb_ge]; lia).
    pose proof (decimal_from_ge t (n * 10 + (byte c - 48)) Ht) as Hge.
    unfold Strconv.maxUint64 in *.
    change (2 ^ 64 - 1) with 18446744073709551615 in *.
    change (18446744073709551615 / 10 + 1) with 1844674407370955162 in *.
    destruct (Z.leb_spec 1844674407370955162 n) as [Hcut|Hcut].
    + destruct (Z.leb_spec (decimal_from (n * 10 + (byte c - 48)) t) maxVal);
        [lia | reflexivity].
    + destruct (Z.ltb_spec 18446744073709551615 (n * 10 + (byte c - 48)))
        as [Ho|Ho]; simpl.
      * destruct (Z.leb_spec (decimal_from (n * 10 + (byte c - 48)) t) maxVal);
          [lia | reflexivity].
      * destruct (Z.ltb_spec maxVal (n * 10 + (byte c - 48))) as [Hm|Hm].
        -- destruct (Z.leb_spec (decimal_from (n * 10 + (byte c - 48)) t) maxVal);
             [lia | reflexivity].
        -- apply IH; [exact Ht | lia].
Qed.

Lemma ParseUint_digits (v : string) (bits : Z) :
  0 <= bits <= 64 -> all_digits v = true -> v <> EmptyString ->
  Strconv.ParseUint v bits =
    if decimal_value v <=? 2 ^ bits - 1 then inl (decimal_value v)
    else inr Strconv.ErrRange.
Proof.
  intros Hb Hd Hne. unfold Strconv.ParseUint, decimal_value.
  destruct v as [|c t]; [congruence|].
  apply ParseUint_loop_digits; [|exact Hd|].
  - unfold Strconv.maxUint64.
    assert (2 ^ bits <= 2 ^ 64) by (apply Z.pow_le_mono_r; lia). lia.
  - assert (0 < 2 ^ bits) by (apply Z.pow_pos_nonneg; lia). lia.
Qed.

Lemma decimal_value_nonneg (v : string) :
  all_digits v = true -> 0 <= decimal_value v.
Proof. intros H. apply (decimal_from_ge v 0 H). lia. Qed.

(** The empty string is no integer. *)
Lemma ParseInt_empty (bits : Z) :
  Strconv.ParseInt EmptyString bits = inr Strconv.ErrSyntax.
Proof. reflexivity. Qed.

End StrconvFacts.

(** ** The digit run at the cursor *)

Section DigitRun.

Lemma all_digits_upto_digit_bytes (v : string) :
  all_digits (upto (digit_bytes v) v) = true.
Proof.
  induction v as [|c t IH]; simpl; [reflexivity|].
  destruct ((48 <=? byte c)%Z && (byte c <=? 57)%Z) eqn:E; simpl;
    [now rewrite E | reflexivity].
Qed.

Lemma digit_run_eq (p : parser) :
  digit_run p = upto (digit_bytes (from (o p) (upper p))) (from (o p) (upper p)).
Proof.
  unfold digit_run, slice. f_equal. lia.
Qed.

Lemma all_digits_digit_run (p : parser) : all_digits (digit_run p) = true.
Proof. rewrite digit_run_eq. apply all_digits_upto_digit_bytes. Qed.

Lemma digit_bytes_le (v : string) : digit_bytes v <= len v.
Proof.
  unfold len. induction v as [|c t IH]; simpl; [lia|].
  destruct ((48 <=? byte c)%Z && (byte c <=? 57)%Z); simpl; lia.
Qed.

Lemma len_digit_run (p : parser) :
  len (digit_run p) = digit_bytes (from (o p) (upper p)).
Proof.
  rewrite digit_run_eq, len_upto.
  pose proof (digit_bytes_le (from (o p) (upper p))). lia.
Qed.

Lemma digit_run_empty (p : parser) :
  digit_run p = EmptyString <-> digit_bytes (from (o p) (upper p)) = 0.
Proof.
  rewrite <- len_digit_run. unfold len.
  destruct (digit_run p); simpl; split; intros H;
    try reflexivity; try discriminate.
Qed.

(** [nznumber] and [number], read off the digit run. *)
Lemma nznumber_run (p : parser) :
  nznumber p =
    if String.eqb (digit_run p) EmptyString then ((0%Z, false), p)
    else if (4294967295 <? decimal_value (digit_run p))%Z then ((0%Z, false), p)
    else if (decimal_value (digit_run p) =? 0)%Z then ((0%Z, false), p)
    else ((decimal_value (digit_run p), true),
          set_o p (o p + len (digit_run p))).
Proof.
  unfold nznumber. fold (digit_run p).
  rewrite len_digit_run.
  destruct (String.eqb_spec (digit_run p) EmptyString) as [He|Hne].
  - apply digit_run_empty in He. rewrite He.
    replace (o p + 0) with (o p) by lia. now rewrite Nat.eqb_refl.
  - assert (digit_bytes (from (o p) (upper p)) <> 0) as Hn
        by (intros H; apply Hne; now apply digit_run_empty).
    destruct (Nat.eqb_spec (o p + digit_bytes (from (o p) (upper p))) (o p));
      [lia|].
    rewrite (ParseUint_digits _ 32) by
      first [lia | apply all_digits_digit_run | exact Hne].
    change (2 ^ 32 - 1)%Z with 4294967295%Z.
    destruct (Z.leb_spec (decimal_value (digit_run p)) 4294967295);
      destruct (Z.ltb_spec 4294967295 (decimal_value (digit_run p)));
      try lia; reflexivity.
Qed.

Lemma number_run (p : parser) :
  number p =
    if String.eqb (digit_run p) EmptyString then ((0%Z, false), p)
    else if (4294967295 <? decimal_value (digit_run p))%Z then ((0%Z, false), p)
    else ((decimal_value (digit_run p), true),
          set_o p (o p + len (digit_run p))).
Proof.
  unfold number. fold (digit_run p).
  rewrite len_digit_run.
  destruct (String.eqb_spec (digit_run p) EmptyString) as [He|Hne].
  - apply digit_run_empty in He. rewrite He.
    replace (o p + 0) with (o p) by lia. now rewrite Nat.eqb_refl.
  - assert (digit_bytes (from (o p) (upper p)) <> 0) as Hn
        by (intros H; apply Hne; now apply digit_run_empty).
    destruct (Nat.eqb_spec (o p + digit_bytes (from (o p) (upper p))) (o p));
      [lia|].
    rewrite (ParseUint_digits _ 32) by
      first [lia | apply all_digits_digit_run | exact Hne].
    change (2 ^ 32 - 1)%Z with 4294967295%Z.
    destruct (Z.leb_spec (decimal_value (digit_run p)) 4294967295);
      destruct (Z.ltb_spec 4294967295 (decimal_value (digit_run p)));
      try lia; reflexivity.
Qed.

End DigitRun.

(** ** Case folding *)

(** C3. For every byte string [v], valid UTF-8 or not, [toUpper v] has the
    length of [v]; at every position the result byte is [upper_byte] of the
    input byte, which is the byte 0x20 below for a byte in 0x61..0x7A and the
    byte itself otherwise. *)
Theorem toUpper_preserves_offsets :
  forall v : string,
    len (toUpper v) = len v
    /\ (forall i : nat, index (toUpper v) i = option_map upper_byte (index v i))
    /\ (forall c : ascii,
          byte (upper_byte c) =
            if (0x61 <=? byte c)%Z && (byte c <=? 0x7A)%Z
            then (byte c - 0x20)%Z else byte c).
Proof.
  intros v. split; [|split].
  - apply len_map_bytes.
  - intros i. apply index_map_bytes.
  - intros c. unfold upper_byte.
    destruct ((97 <=? byte c)%Z && (byte c <=? 122)%Z) eqn:E; [|reflexivity].
    apply andb_true_iff in E. destruct E as [H1 H2].
    apply Z.leb_le in H1. apply Z.leb_le in H2.
    apply byte_of_byte. lia.
Qed.

(** ** Cursor primitives *)

Section CursorFacts.

Lemma take_true (w : string) (p : parser) :
  hasPrefix w p = true -> take w p = (true, set_o p (o p + len w)).
Proof. unfold take. now intros ->. Qed.

Lemma take_false (w : string) (p : parser) :
  hasPrefix w p = false -> take w p = (false, p).
Proof. unfold take. now intros ->. Qed.

Lemma takelist_skip (l1 l2 : list string) (p : parser) :
  (forall g, In g l1 -> hasPrefix g p = false) ->
  takelist (l1 ++ l2) p = takelist l2 p.
Proof.
  induction l1 as [|g l1 IH]; intros H; simpl; [reflexivity|].
  rewrite take_false by (apply H; now left).
  apply IH. intros g' Hg'. apply H. now right.
Qed.

Lemma takelist_at (l1 l2 : list string) (w : string) (p : parser) :
  (forall g, In g l1 -> hasPrefix g p = false) ->
  hasPrefix w p = true ->
  takelist (l1 ++ w :: l2) p = ((w, true), set_o p (o p + len w)).
Proof.
  intros Hno Hw. rewrite takelist_skip by exact Hno.
  simpl. now rewrite (take_true _ _ Hw).
Qed.

(** What [takelist] returns when it matches: a word of the list that is a
    prefix of the input, with no earlier word a prefix. *)
Lemma takelist_true (l : list string) (p p' : parser) (w : string) :
  takelist l p = ((w, true), p') ->
  exists l1 l2,
    l = (l1 ++ w :: l2)%list
    /\ (forall g, In g l1 -> hasPrefix g p = false)
    /\ hasPrefix w p = true
    /\ p' = set_o p (o p + len w).
Proof.
  revert p'. induction l as [|g l IH]; intros p' H; simpl in H; [discriminate|].
  destruct (hasPrefix g p) eqn:E.
  - rewrite (take_true _ _ E) in H. inversion H; subst.
    exists [], l. repeat split; auto. intros g' [].
  - rewrite (take_false _ _ E) in H.
    destruct (IH _ H) as (l1 & l2 & -> & Hn & Hw & ->).
    exists (g :: l1), l2. repeat split; auto.
    intros g' [<-|Hg]; auto.
Qed.

Lemma takelist_false (l : list string) (p p' : parser) (w : string) :
  takelist l p = ((w, false), p') ->
  w = EmptyString /\ p' = p /\ forall g, In g l -> hasPrefix g p = false.
Proof.
  induction l as [|g l IH]; simpl; intros H.
  - inversion H. repeat split; auto. intros g [].
  - destruct (hasPrefix g p) eqn:E.
    + rewrite (take_true _ _ E) in H. discriminate.
    + rewrite (take_false _ _ E) in H.
      destruct (IH H) as (-> & -> & Hn). repeat split; auto.
      intros g' [<-|Hg]; auto.
Qed.

End CursorFacts.

(** C4. A failed [take], [nznumber], [number] or [digit] leaves the parser,
    and with it the cursor offset, as it was.  [nznumber] and [number] fail
    without advancing when the digit run at the cursor is empty and when its
    value does not fit 32 bits, [nznumber] also when the value is 0. *)
Theorem no_progress_on_failure :
  forall p : parser,
    (forall w, fst (take w p) = false -> snd (take w p) = p)
    /\ (snd (fst (nznumber p)) = false -> snd (nznumber p) = p)
    /\ (snd (fst (number p)) = false -> snd (number p) = p)
    /\ (forall d p', digit p = (Ok (d, false), p') -> p' = p)
    /\ (digit_run p = EmptyString ->
        nznumber p = ((0%Z, false), p) /\ number p = ((0%Z, false), p))
    /\ ((2 ^ 32 <= decimal_value (digit_run p))%Z ->
        nznumber p = ((0%Z, false), p) /\ number p = ((0%Z, false), p))
    /\ (decimal_value (digit_run p) = 0%Z -> nznumber p = ((0%Z, false), p)).
Proof.
  intros p.
  split; [|split; [|split; [|split; [|split; [|split]]]]].
  - intros w. unfold take. destruct (hasPrefix w p); simpl;
      [discriminate | reflexivity].
  - rewrite nznumber_run.
    destruct (String.eqb _ _); [reflexivity|].
    destruct (Z.ltb _ _); [reflexivity|].
    destruct (Z.eqb _ _); [reflexivity | discriminate].
  - rewrite number_run.
    destruct (String.eqb _ _); [reflexivity|].
    destruct (Z.ltb _ _); [reflexivity | discriminate].
  - intros d p'. unfold digit.
    destruct (empty p); [intros H; now inversion H|].
    destruct (index (orig p) (o p)); [|discriminate].
    destruct ((byte a <? 48)%Z || (57 <? byte a)%Z);
      intros H; now inversion H.
  - intros H. split.
    + rewrite nznumber_run. now rewrite H, String.eqb_refl.
    + rewrite number_run. now rewrite H, String.eqb_refl.
  - intros H. change (2 ^ 32)%Z with 4294967296%Z in H. split.
    + rewrite nznumber_run.
      destruct (String.eqb _ _); [reflexivity|].
      destruct (Z.ltb_spec 4294967295 (decimal_value (digit_run p)));
        [reflexivity | lia].
    + rewrite number_run.
      destruct (String.eqb _ _); [reflexivity|].
      destruct (Z.ltb_spec 4294967295 (decimal_value (digit_run p)));
        [reflexivity | lia].
  - intros H. rewrite nznumber_run.
    destruct (String.eqb _ _); [reflexivity|].
    destruct (Z.ltb _ _); [reflexivity|].
    now rewrite H.
Qed.

(** C10. Keyword matching looks at a prefix only.  When the upper-cased view
    at the cursor is [w ++ rest] and no word of the list before [w] is a
    prefix of it, [takelist] returns [w] and advances by the length of [w],
    leaving [rest], whatever [rest] is; so [xstatusAtt] on [MESSAGESFOO]
    returns [MESSAGES] and leaves [FOO]. *)
Theorem takelist_first_prefix_match :
  forall (l1 l2 : list string) (w rest : string) (p : parser),
    from (o p) (upper p) = w ++ rest ->
    (forall g, In g l1 -> HasPrefix (w ++ rest) g = false) ->
    take w p = (true, set_o p (o p + len w))
    /\ takelist (l1 ++ w :: l2) p = ((w, true), set_o p (o p + len w))
    /\ from (o (set_o p (o p + len w))) (upper (set_o p (o p + len w))) = rest
    /\ forall c : conn,
         xstatusAtt (newParser "MESSAGESFOO" c)
           = (Ok "MESSAGES", set_o (newParser "MESSAGESFOO" c) 8)
         /\ from 8 (orig (newParser "MESSAGESFOO" c)) = "FOO".
Proof.
  intros l1 l2 w rest p Hin Hno.
  assert (hasPrefix w p = true) as Hw
      by (unfold hasPrefix; rewrite Hin; apply HasPrefix_app).
  repeat split.
  - now apply take_true.
  - rewrite takelist_skip
      by (intros g Hg; unfold hasPrefix; rewrite Hin; now apply Hno).
    simpl. now rewrite (take_true _ _ Hw).
  - simpl. rewrite <- from_from, Hin. apply from_len_app.
Qed.

Lemma no_progress_on_failure_witness :
  snd (take "UID" (on_line "uidnext")) <> on_line "uidnext"
  /\ snd (take "UIDX" (on_line "uidnext")) = on_line "uidnext"
  /\ snd (nznumber (on_line "0 x")) = on_line "0 x"
  /\ snd (nznumber (on_line "4294967296")) = on_line "4294967296"
  /\ snd (number (on_line "x")) = on_line "x"
  /\ snd (digit (on_line "x")) = on_line "x".
Proof.
  split; [vm_compute; discriminate|].
  split; [apply (no_progress_on_failure (on_line "uidnext")); reflexivity|].
  split; [apply (no_progress_on_failure (on_line "0 x")); reflexivity|].
  split; [apply (no_progress_on_failure (on_line "4294967296")); reflexivity|].
  split; [apply (no_progress_on_failure (on_line "x")); reflexivity|].
  symmetry.
  apply (proj1 (proj2 (proj2 (proj2 (no_progress_on_failure (on_line "x")))))
           EmptyString).
  reflexivity.
Defined.

Lemma takelist_first_prefix_match_witness :
  takelist ["MESSAGES"; "UIDNEXT"; "UIDVALIDITY"; "UNSEEN"] (on_line "unseen]")
    = (("UNSEEN", true), set_o (on_line "unseen]") 6).
Proof.
  apply (takelist_first_prefix_match
           ["MESSAGES"; "UIDNEXT"; "UIDVALIDITY"] [] "UNSEEN" "]"
           (on_line "unseen]")).
  - reflexivity.
  - intros g [<-|[<-|[<-|[]]]]; reflexivity.
Defined.

(** ** Methods that read the current line only *)

Section Steady.

Lemma advances_refl (p : parser) : advances p p.
Proof. unfold advances. repeat split; auto. Qed.

Lemma advances_trans (p q r : parser) :
  advances p q -> advances q r -> advances p r.
Proof.
  unfold advances. intros (A1 & A2 & A3 & A4 & A5) (B1 & B2 & B3 & B4 & B5).
  repeat split; try congruence. lia.
Qed.

Lemma advances_set_o (p : parser) (n : nat) :
  o p <= n -> advances p (set_o p n).
Proof. intros H. unfold advances. simpl. repeat split; auto. Qed.

Lemma wf_set_o (p : parser) (n : nat) :
  wf p -> n <= len (orig p) -> wf (set_o p n).
Proof. unfold wf. simpl. intros [H _] Hn. split; assumption. Qed.

Lemma wf_len_upper (p : parser) : wf p -> len (upper p) = len (orig p).
Proof. intros [H _]. rewrite H. apply len_map_bytes. Qed.

Lemma wf_newParser (v : string) (c : conn) : wf (newParser v c).
Proof. unfold wf. simpl. split; [reflexivity | lia]. Qed.

Lemma hasPrefix_room (w : string) (p : parser) :
  wf p -> hasPrefix w p = true -> o p + len w <= len (orig p).
Proof.
  intros Hwf H. unfold hasPrefix in H. apply HasPrefix_len in H.
  rewrite len_from, (wf_len_upper p Hwf) in H.
  destruct Hwf as [_ Ho]. lia.
Qed.

Lemma steady_ret {A} (a : A) : steady (ret a).
Proof. intros p Hp. simpl. split; [exact Hp | apply advances_refl]. Qed.

Lemma steady_raise {A} (e : panic) : steady (@raise A e).
Proof. intros p Hp. simpl. split; [exact Hp | apply advances_refl]. Qed.

Lemma steady_xerrorf {A} (f : string) : steady (@xerrorf A f).
Proof. apply steady_raise. Qed.

Lemma steady_bind {A B} (m : M A) (k : A -> M B) :
  steady m -> (forall a, steady (k a)) -> steady (bind m k).
Proof.
  intros Hm Hk p Hp. unfold bind.
  destruct (Hm p Hp) as [W1 A1].
  destruct (m p) as [[a|e] p1]; simpl in *.
  - destruct (Hk a p1 W1) as [W2 A2].
    split; [exact W2 | exact (advances_trans _ _ _ A1 A2)].
  - split; assumption.
Qed.

Lemma steady_lift {A} (f : parser -> A * parser) :
  (forall p, wf p -> wf (snd (f p)) /\ advances p (snd (f p))) ->
  steady (lift f).
Proof.
  intros H p Hp. unfold lift. specialize (H p Hp).
  destruct (f p) as [a p1]. exact H.
Qed.

Lemma steady_fun {A} (m : parser -> M A) :
  (forall q, steady (m q)) -> steady (fun p => m p p).
Proof. intros H p Hp. exact (H p p Hp). Qed.

Lemma steady_if {A} (b : bool) (m1 m2 : M A) :
  steady m1 -> steady m2 -> steady (if b then m1 else m2).
Proof. destruct b; auto. Qed.

Lemma take_steady (w : string) (p : parser) :
  wf p -> wf (snd (take w p)) /\ advances p (snd (take w p)).
Proof.
  intros Hp. unfold take. destruct (hasPrefix w p) eqn:E; simpl.
  - pose proof (hasPrefix_room w p Hp E).
    split; [apply wf_set_o; assumption | apply advances_set_o; lia].
  - split; [exact Hp | apply advances_refl].
Qed.

Lemma takelist_steady (l : list string) (p : parser) :
  wf p -> wf (snd (takelist l p)) /\ advances p (snd (takelist l p)).
Proof.
  intros Hp. induction l as [|w l IH]; simpl.
  - split; [exact Hp | apply advances_refl].
  - unfold take. destruct (hasPrefix w p) eqn:E; simpl; [|exact IH].
    pose proof (hasPrefix_room w p Hp E).
    split; [apply wf_set_o; assumption | apply advances_set_o; lia].
Qed.

Lemma digit_run_room (p : parser) :
  wf p -> o p + len (digit_run p) <= len (orig p).
Proof.
  intros Hp. rewrite len_digit_run.
  pose proof (digit_bytes_le (from (o p) (upper p))) as H.
  rewrite len_from, (wf_len_upper p Hp) in H.
  destruct Hp as [_ Ho]. lia.
Qed.

Lemma nznumber_steady (p : parser) :
  wf p -> wf (snd (nznumber p)) /\ advances p (snd (nznumber p)).
Proof.
  intros Hp. rewrite nznumber_run. pose proof (digit_run_room p Hp).
  repeat match goal with
         | |- context [if ?b then _ else _] => destruct b
         end; simpl;
    first [ split; [exact Hp | apply advances_refl]
          | split; [apply wf_set_o; assumption | apply advances_set_o; lia] ].
Qed.

Lemma number_steady (p : parser) :
  wf p -> wf (snd (number p)) /\ advances p (snd (number p)).
Proof.
  intros Hp. rewrite number_run. pose proof (digit_run_room p Hp).
  repeat match goal with
         | |- context [if ?b then _ else _] => destruct b
         end; simpl;
    first [ split; [exact Hp | apply advances_refl]
          | split; [apply wf_set_o; assumption | apply advances_set_o; lia] ].
Qed.

Lemma xtake_steady (w : string) : steady (xtake w).
Proof.
  unfold xtake. apply steady_bind.
  - apply steady_lift, take_steady.
  - intros b. apply steady_if; [apply steady_xerrorf | apply steady_ret].
Qed.

Lemma xnznumber_steady : steady xnznumber.
Proof.
  unfold xnznumber. apply steady_bind.
  - apply steady_lift, nznumber_steady.
  - intros [n b]. apply steady_if; [apply steady_xerrorf | apply steady_ret].
Qed.

Lemma xnumber_steady : steady xnumber.
Proof.
  unfold xnumber. apply steady_bind.
  - apply steady_lift, number_steady.
  - intros [n b]. apply steady_if; [apply steady_xerrorf | apply steady_ret].
Qed.

Lemma xempty_steady : steady xempty.
Proof.
  intros p Hp. unfold xempty. destruct (negb (empty p)); simpl;
    (split; [exact Hp | apply advances_refl]).
Qed.

Lemma xnumRange_steady : steady xnumRange.
Proof.
  unfold xnumRange.
  repeat first
    [ apply steady_ret | apply steady_xerrorf | apply xnznumber_steady
    | apply steady_lift, take_steady
    | apply steady_bind | apply steady_if | intros ? ].
Qed.

Lemma xnumSet_loop_steady (fuel : nat) (acc : list numRange) :
  steady (xnumSet_loop fuel acc).
Proof.
  revert acc. induction fuel as [|f IH]; intros acc; simpl.
  - apply steady_bind; [apply steady_lift, take_steady|].
    intros b. apply steady_if; [apply steady_raise | apply steady_ret].
  - apply steady_bind; [apply steady_lift, take_steady|].
    intros b. apply steady_if; [|apply steady_ret].
    apply steady_bind; [apply xnumRange_steady|]. intros r. apply IH.
Qed.

Lemma removelast_snoc {A} (l : list A) (x : A) : removelast (l ++ [x]) = l.
Proof. apply removelast_last. Qed.

Lemma context_steady {A} (label : string) (m : M A) :
  steady m -> steady (context label m).
Proof.
  intros Hm p Hp. unfold context, defer.
  assert (wf (set_contexts p (contexts p ++ [label]))) as Hq by exact Hp.
  destruct (Hm _ Hq) as [W1 (A1 & A2 & A3 & A4 & A5)].
  destruct (m (set_contexts p (contexts p ++ [label]))) as [r p1].
  simpl in *. split.
  - destruct W1 as [W1 W2]. split; assumption.
  - unfold advances. simpl. repeat split; auto.
    rewrite A4. apply removelast_snoc.
Qed.

Lemma xnumSet_steady : steady xnumSet.
Proof.
  unfold xnumSet. apply context_steady.
  apply steady_bind; [apply steady_lift, take_steady|].
  intros b. apply steady_if; [apply steady_ret|].
  apply steady_bind; [apply xnumRange_steady|]. intros r.
  apply (steady_fun (fun q => _ <- xnumSet_loop (remaining q) [r] ;; _)).
  intros q. apply steady_bind; [apply xnumSet_loop_steady|].
  intros l. apply steady_ret.
Qed.

End Steady.

(** ** Methods without loops never run out of turns *)

Section Fueled.

Lemma fueled_ret {A} (a : A) : fueled (ret a).
Proof. intros p. simpl. discriminate. Qed.

Lemma fueled_xerrorf {A} (f : string) : fueled (@xerrorf A f).
Proof. intros p. simpl. discriminate. Qed.

Lemma fueled_lift {A} (f : parser -> A * parser) : fueled (lift f).
Proof. intros p. unfold lift. destruct (f p). simpl. discriminate. Qed.

Lemma fueled_bind {A B} (m : M A) (k : A -> M B) :
  fueled m -> (forall a, fueled (k a)) -> fueled (bind m k).
Proof.
  intros Hm Hk p. unfold bind. specialize (Hm p).
  destruct (m p) as [[a|e] p1]; simpl in *; [apply Hk|].
  intros E. apply Hm. inversion E. reflexivity.
Qed.

Lemma fueled_if {A} (b : bool) (m1 m2 : M A) :
  fueled m1 -> fueled m2 -> fueled (if b then m1 else m2).
Proof. destruct b; auto. Qed.

Lemma fueled_context {A} (label : string) (m : M A) :
  fueled m -> fueled (context label m).
Proof.
  intros Hm p. unfold context, defer.
  specialize (Hm (set_contexts p (contexts p ++ [label]))).
  destruct (m (set_contexts p (contexts p ++ [label]))). exact Hm.
Qed.

Lemma xtake_fueled (w : string) : fueled (xtake w).
Proof.
  unfold xtake. apply fueled_bind; [apply fueled_lift|].
  intros b. apply fueled_if; [apply fueled_xerrorf | apply fueled_ret].
Qed.

Lemma xnznumber_fueled : fueled xnznumber.
Proof.
  unfold xnznumber. apply fueled_bind; [apply fueled_lift|].
  intros [n b]. apply fueled_if; [apply fueled_xerrorf | apply fueled_ret].
Qed.

Lemma xnumber_fueled : fueled xnumber.
Proof.
  unfold xnumber. apply fueled_bind; [apply fueled_lift|].
  intros [n b]. apply fueled_if; [apply fueled_xerrorf | apply fueled_ret].
Qed.

Lemma xnumRange_fueled : fueled xnumRange.
Proof.
  unfold xnumRange.
  repeat first
    [ apply fueled_ret | apply fueled_xerrorf | apply xnznumber_fueled
    | apply fueled_lift | apply fueled_bind | apply fueled_if | intros ? ].
Qed.

End Fueled.

(** ** Sequence sets *)

Section NumSet.

Lemma lift_Ok_inv {A} (f : parser -> A * parser) (p p1 : parser) (a : A) :
  lift f p = (Ok a, p1) -> f p = (a, p1).
Proof. unfold lift. destruct (f p). intros H. now inversion H. Qed.

Lemma xnznumber_Ok (p p' : parser) (n : Z) :
  xnznumber p = (Ok n, p') -> (1 <= n <= 4294967295)%Z.
Proof.
  unfold xnznumber. rewrite bind_lift, nznumber_run.
  pose proof (decimal_value_nonneg _ (all_digits_digit_run p)) as Hnn.
  destruct (String.eqb _ _); simpl; [discriminate|].
  destruct (Z.ltb_spec 4294967295 (decimal_value (digit_run p)));
    simpl; [discriminate|].
  destruct (Z.eqb_spec (decimal_value (digit_run p)) 0);
    simpl; [discriminate|].
  intros E. inversion E; subst. lia.
Qed.

Lemma setNumber_number_ok (n : Z) :
  (1 <= n <= 4294967295)%Z -> setNumber_ok (mkSetNumber n false) = true.
Proof.
  intros H. unfold setNumber_ok. simpl.
  apply andb_true_iff. split; apply Z.leb_le; lia.
Qed.

(** One side of a range, as [xnumRange] reads it twice. *)
Lemma xnumRange_side_ok (ok : bool) (p p' : parser) (v : setNumber) :
  (if ok then ret (mkSetNumber 0 true)
   else n <- xnznumber ;; ret (mkSetNumber n false)) p = (Ok v, p') ->
  setNumber_ok v = true.
Proof.
  destruct ok; simpl.
  - intros H. inversion H. reflexivity.
  - intros H. apply bind_Ok_inv in H. destruct H as (n & p1 & Hn & H).
    inversion H; subst. apply setNumber_number_ok.
    exact (xnznumber_Ok _ _ _ Hn).
Qed.

Lemma xnumRange_ok (p p' : parser) (r : numRange) :
  xnumRange p = (Ok r, p') -> numRange_ok r = true.
Proof.
  unfold xnumRange. intros H.
  apply bind_Ok_inv in H. destruct H as (ok & p1 & _ & H).
  apply bind_Ok_inv in H. destruct H as (f & p2 & Hf & H).
  apply xnumRange_side_ok in Hf.
  apply bind_Ok_inv in H. destruct H as (ok2 & p3 & _ & H).
  destruct ok2.
  - apply bind_Ok_inv in H. destruct H as (ok3 & p4 & _ & H).
    apply bind_Ok_inv in H. destruct H as (l & p5 & Hl & H).
    apply xnumRange_side_ok in Hl.
    inversion H; subst. unfold numRange_ok. simpl. now rewrite Hf, Hl.
  - inversion H; subst. unfold numRange_ok. simpl. now rewrite Hf.
Qed.

Lemma xnumSet_loop_ok (fuel : nat) :
  forall (acc l : list numRange) (p p' : parser),
    xnumSet_loop fuel acc p = (Ok l, p') ->
    forallb numRange_ok acc = true -> acc <> [] ->
    forallb numRange_ok l = true /\ l <> [].
Proof.
  induction fuel as [|f IH]; intros acc l p p' H Hacc Hne; simpl in H;
    apply bind_Ok_inv in H; destruct H as (ok & p1 & _ & H);
    destruct ok; try discriminate;
    try (inversion H; subst; now split).
  apply bind_Ok_inv in H. destruct H as (r & p2 & Hr & H).
  apply (IH _ _ _ _ H).
  - rewrite forallb_app, Hacc. simpl. now rewrite (xnumRange_ok _ _ _ Hr).
  - destruct acc; discriminate.
Qed.

Lemma context_Ok_inv {A} (label : string) (m : M A) (p p' : parser) (a : A) :
  context label m p = (Ok a, p') ->
  exists p1, m (set_contexts p (contexts p ++ [label])) = (Ok a, p1).
Proof.
  unfold context, defer.
  destruct (m (set_contexts p (contexts p ++ [label]))) as [r p1].
  intros H. inversion H; subst. now exists p1.
Qed.

(** The turns of the comma loop never exceed what is left of the line. *)
Lemma xnumSet_loop_fuel (fuel : nat) :
  forall (acc : list numRange) (p : parser),
    wf p -> remaining p <= fuel ->
    fst (xnumSet_loop fuel acc p) <> Panic OutOfFuel.
Proof.
  induction fuel as [|f IH]; intros acc p Hp Hf; simpl;
    rewrite bind_lift; unfold take;
    destruct (hasPrefix "," p) eqn:E; simpl; try discriminate.
  - pose proof (hasPrefix_room _ _ Hp E) as Hr.
    unfold remaining in Hf. rewrite (wf_len_upper p Hp) in Hf.
    change (len ",") with 1 in Hr. lia.
  - pose proof (hasPrefix_room _ _ Hp E) as Hr.
    change (len ",") with 1 in Hr.
    assert (wf (set_o p (o p + 1))) as Hq by (apply wf_set_o; assumption).
    destruct (xnumRange_steady _ Hq) as [W (A1 & A2 & A3 & A4 & A5)].
    unfold bind.
    destruct (xnumRange (set_o p (o p + 1))) as [[r|e] p2] eqn:Er; simpl in *.
    + apply IH; [exact W|].
      unfold remaining in *. rewrite A2. lia.
    + pose proof (xnumRange_fueled (set_o p (o p + 1))) as Hno.
      rewrite Er in Hno. intros E'. apply Hno. inversion E'. reflexivity.
Qed.

End NumSet.

(** C9. Every value [xnumSet] returns is either the search-result marker with
    no range, or carries at least one range and no marker; each side of each
    range is the star marker (with number 0) or a number in 1..2^32-1 without
    the marker. *)
Theorem xnumSet_exclusive :
  forall (p p' : parser) (v : numSet),
    xnumSet p = (Ok v, p') -> numSet_ok v = true.
Proof.
  intros p p' v H. unfold xnumSet in H.
  apply context_Ok_inv in H. destruct H as (p1 & H).
  apply bind_Ok_inv in H. destruct H as (ok & p2 & _ & H).
  destruct ok.
  - inversion H; subst. reflexivity.
  - apply bind_Ok_inv in H. destruct H as (r & p3 & Hr & H).
    apply bind_Ok_inv in H. destruct H as (l & p4 & Hl & H).
    inversion H; subst.
    apply xnumSet_loop_ok in Hl.
    + destruct Hl as [Hall Hne]. unfold numSet_ok. simpl.
      rewrite Hall. destruct l; [congruence | reflexivity].
    + simpl. now rewrite (xnumRange_ok _ _ _ Hr).
    + discriminate.
Qed.

Lemma xnumSet_exclusive_witness :
  numSet_ok
    (mkNumSet false
       [ mkNumRange (mkSetNumber 1 false) (Some (mkSetNumber 0 true));
         mkNumRange (mkSetNumber 5 false) None;
         mkNumRange (mkSetNumber 0 true) (Some (mkSetNumber 3 false)) ]) = true
  /\ numSet_ok (mkNumSet true []) = true.
Proof.
  split.
  - apply (xnumSet_exclusive (on_line "1:*,5,*:3 x")
             (set_o (on_line "1:*,5,*:3 x") 9)).
    vm_compute. reflexivity.
  - apply (xnumSet_exclusive (on_line "$") (set_o (on_line "$") 1)).
    vm_compute. reflexivity.
Defined.

(** ** Runes and bytes

    The loops that [range] over a string see runes; on the ASCII classes the
    parser tests for they move exactly as a loop over bytes would. *)

Section Runes.

Ltac bool_facts :=
  repeat match goal with
         | H : (_ && _) = true |- _ => apply andb_true_iff in H; destruct H
         | H : (_ || _) = false |- _ => apply orb_false_iff in H; destruct H
         | H : (_ <=? _)%Z = true |- _ => apply Z.leb_le in H
         | H : (_ <=? _)%Z = false |- _ => apply Z.leb_gt in H
         | H : (_ <? _)%Z = true |- _ => apply Z.ltb_lt in H
         | H : (_ <? _)%Z = false |- _ => apply Z.ltb_ge in H
         | H : (_ =? _)%Z = true |- _ => apply Z.eqb_eq in H
         | H : (_ =? _)%Z = false |- _ => apply Z.eqb_neq in H
         end.

(** A byte below 0x80 is its own rune, of width 1; any other first byte
    gives a rune of 0x80 or more. *)
Lemma DecodeRune_first (c : ascii) (t : string) :
  1 <= snd (Utf8.DecodeRuneInString (String c t))
  /\ ((byte c < 0x80)%Z ->
      Utf8.DecodeRuneInString (String c t) = (byte c, 1))
  /\ ((0x80 <= byte c)%Z ->
      (0x80 <= fst (Utf8.DecodeRuneInString (String c t)))%Z).
Proof.
  unfold Utf8.DecodeRuneInString, Utf8.between, Utf8.RuneError.
  destruct (byte c <? 128)%Z eqn:E0.
  - simpl. bool_facts. repeat split; auto; lia.
  - bool_facts.
    split; [|split; [lia|]].
    + repeat match goal with
             | |- context [if ?b then _ else _] => destruct b
             | |- context [match ?x with
                           | EmptyString => _ | String _ _ => _ end] =>
               destruct x
             end; simpl; lia.
    + intros _.
      repeat match goal with
             | |- context [if ?b then _ else _] => destruct b eqn:?
             | |- context [match ?x with
                           | EmptyString => _ | String _ _ => _ end] =>
               destruct x
             end; simpl; bool_facts; try lia.
Qed.

Lemma range_from_low (c : ascii) (t : string) (i : nat) :
  (byte c < 0x80)%Z ->
  Utf8.range_from 0 i (String c t) = (i, byte c) :: Utf8.range_from 0 (S i) t.
Proof.
  intros H. cbn [Utf8.range_from].
  rewrite (proj1 (proj2 (DecodeRune_first c t)) H). reflexivity.
Qed.

Lemma range_from_high (c : ascii) (t : string) (i : nat) :
  (0x80 <= byte c)%Z ->
  exists r rest,
    Utf8.range_from 0 i (String c t) = (i, r) :: rest /\ (0x80 <= r)%Z.
Proof.
  intros H. cbn [Utf8.range_from].
  pose proof (proj2 (proj2 (DecodeRune_first c t)) H) as Hr.
  destruct (Utf8.DecodeRuneInString (String c t)) as [r w].
  exists r, (Utf8.range_from (Nat.pred w) (S i) t). split; [reflexivity|].
  exact Hr.
Qed.

(** The rune loop of [digits] counts the digit bytes. *)
Lemma digit_runes_range (v : string) (i : nat) :
  digit_runes (Utf8.range_from 0 i v) = digit_bytes v.
Proof.
  revert i. induction v as [|c t IH]; intros i; [reflexivity|].
  destruct (Z.ltb_spec (byte c) 0x80) as [Hlo|Hhi].
  - rewrite (range_from_low c t i Hlo). simpl.
    destruct (Z.ltb_spec (byte c) 48); destruct (Z.ltb_spec 57 (byte c));
      destruct (Z.leb_spec 48 (byte c)); destruct (Z.leb_spec (byte c) 57);
      simpl; try lia; now rewrite IH.
  - destruct (range_from_high c t i Hhi) as (r & rest & -> & Hr).
    simpl.
    destruct (Z.ltb_spec r 48); destruct (Z.ltb_spec 57 r);
      destruct (Z.leb_spec 48 (byte c)); destruct (Z.leb_spec (byte c) 57);
      simpl; try lia; reflexivity.
Qed.

Lemma digits_run (p : parser) :
  digits p =
    if String.eqb (digit_run p) EmptyString then (EmptyString, p)
    else (digit_run p, set_o p (o p + len (digit_run p))).
Proof.
  unfold digits, Utf8.range. rewrite digit_runes_range.
  fold (digit_run p). rewrite len_digit_run.
  destruct (String.eqb_spec (digit_run p) EmptyString) as [He|Hne].
  - apply digit_run_empty in He. now rewrite He.
  - destruct (Nat.eqb_spec (digit_bytes (from (o p) (upper p))) 0) as [H0|H0];
      [|reflexivity].
    exfalso. apply Hne. now apply digit_run_empty.
Qed.

Lemma ParseInt_digits (v : string) (bits : Z) :
  (1 <= bits <= 64)%Z -> all_digits v = true -> v <> EmptyString ->
  Strconv.ParseInt v bits =
    if (decimal_value v <=? 2 ^ (bits - 1) - 1)%Z then inl (decimal_value v)
    else inr Strconv.ErrRange.
Proof.
  intros Hb Hd Hne. unfold Strconv.ParseInt.
  destruct v as [|c t]; [congruence|].
  pose proof Hd as Hd'. simpl in Hd'. bool_facts.
  replace (byte c =? 45)%Z with false by (symmetry; apply Z.eqb_neq; lia).
  replace (byte c =? 43)%Z with false by (symmetry; apply Z.eqb_neq; lia).
  simpl orb. cbv iota.
  rewrite (ParseUint_digits (String c t) bits) by first [lia | assumption].
  pose proof (decimal_value_nonneg _ Hd) as Hnn.
  assert (2 ^ bits = 2 * 2 ^ (bits - 1))%Z as Hpow.
  { replace bits with (Z.succ (bits - 1)) at 1 by lia.
    apply Z.pow_succ_r. lia. }
  assert (0 < 2 ^ (bits - 1))%Z by (apply Z.pow_pos_nonneg; lia).
  destruct (Z.leb_spec (decimal_value (String c t)) (2 ^ bits - 1));
    destruct (Z.leb_spec (decimal_value (String c t)) (2 ^ (bits - 1) - 1));
    try lia; simpl.
  - destruct (Z.leb_spec (2 ^ (bits - 1)) (decimal_value (String c t)));
      [lia | reflexivity].
  - destruct (Z.leb_spec (2 ^ (bits - 1)) (decimal_value (String c t)));
      [reflexivity | lia].
  - reflexivity.
Qed.

(** [xnumber64], read off the digit run at the cursor. *)
Lemma xnumber64_run (p : parser) :
  xnumber64 p =
    if String.eqb (digit_run p) EmptyString
    then (Panic (PanicSyntax (mkSyntaxError "" "" "expected number64")), p)
    else if (decimal_value (digit_run p) <=? 9223372036854775807)%Z
    then (Ok (decimal_value (digit_run p)),
          set_o p (o p + len (digit_run p)))
    else (Panic (PanicSyntax
                   (mkSyntaxError "" "" "parsing number64 %q: %v")),
          set_o p (o p + len (digit_run p))).
Proof.
  unfold xnumber64. rewrite bind_lift, digits_run.
  destruct (String.eqb_spec (digit_run p) EmptyString) as [He|Hne]; simpl.
  - reflexivity.
  - destruct (String.eqb_spec (digit_run p) EmptyString); [contradiction|].
    unfold bind at 1. simpl.
    rewrite (ParseInt_digits _ 64)
      by first [lia | apply all_digits_digit_run | assumption].
    change (2 ^ (64 - 1) - 1)%Z with 9223372036854775807%Z.
    destruct (decimal_value (digit_run p) <=? 9223372036854775807)%Z;
      reflexivity.
Qed.

End Runes.

(** ** The rest of the line at the cursor *)

Section CursorAt.

Lemma toUpper_app (a b : string) : toUpper (a ++ b) = toUpper a ++ toUpper b.
Proof. apply map_bytes_app. Qed.

Lemma at_upper (p : parser) (v : string) :
  at_cursor p v -> from (o p) (upper p) = toUpper v.
Proof.
  intros [[Hu _] Hv]. rewrite Hu. unfold toUpper.
  rewrite from_map_bytes. now rewrite Hv.
Qed.

Lemma at_advance (p : parser) (a rest : string) :
  at_cursor p (a ++ rest) -> at_cursor (set_o p (o p + len a)) rest.
Proof.
  intros [Hp Hv]. split.
  - apply wf_set_o; [exact Hp|].
    assert (len (from (o p) (orig p)) = len a + len rest) as Hl
        by (rewrite Hv; apply len_app).
    rewrite len_from in Hl. destruct Hp as [_ Ho]. lia.
  - simpl. rewrite <- from_from, Hv. apply from_len_app.
Qed.

Lemma at_take (p : parser) (a rest : string) :
  at_cursor p (a ++ rest) ->
  take (toUpper a) p = (true, set_o p (o p + len a)).
Proof.
  intros H. rewrite take_true.
  - unfold toUpper. now rewrite len_map_bytes.
  - unfold hasPrefix. rewrite (at_upper p _ H), toUpper_app.
    apply HasPrefix_app.
Qed.

Lemma at_take_not (p : parser) (v w : string) :
  at_cursor p v -> HasPrefix (toUpper v) w = false -> take w p = (false, p).
Proof.
  intros H Hw. apply take_false. unfold hasPrefix.
  now rewrite (at_upper p _ H).
Qed.

Lemma at_xtake (p : parser) (a rest : string) :
  at_cursor p (a ++ rest) ->
  xtake (toUpper a) p = (Ok tt, set_o p (o p + len a)).
Proof.
  intros H. unfold xtake. rewrite bind_lift, (at_take p a rest H). reflexivity.
Qed.

Lemma at_xtaken (p : parser) (a rest : string) :
  at_cursor p (a ++ rest) ->
  xtaken (len a) p = (Ok a, set_o p (o p + len a)).
Proof.
  intros H. pose proof (at_advance p a rest H) as [[_ Ho] _]. simpl in Ho.
  destruct H as [Hp Hv]. unfold xtaken.
  destruct (Nat.ltb_spec (len (orig p)) (o p + len a)); [lia|].
  unfold slice. replace (o p + len a - o p) with (len a) by lia.
  rewrite Hv, upto_len_app. reflexivity.
Qed.

Lemma at_empty (p : parser) (c : ascii) (rest : string) :
  at_cursor p (String c rest) ->
  empty p = false /\ index (orig p) (o p) = Some c.
Proof.
  intros [Hp Hv]. split.
  - unfold empty. rewrite (wf_len_upper p Hp).
    assert (len (from (o p) (orig p)) = S (len rest)) as Hl
        by (rewrite Hv; reflexivity).
    rewrite len_from in Hl. apply Nat.eqb_neq. lia.
  - unfold index. clear Hp. revert Hv. generalize (o p) as n.
    generalize (orig p) as v.
    induction v as [|b t IH]; intros n Hv.
    + rewrite from_nil in Hv. discriminate.
    + destruct n; simpl in *; [now inversion Hv | now apply IH].
Qed.

Lemma at_digit (p : parser) (c : ascii) (rest : string) :
  at_cursor p (String c rest) ->
  digit p =
    if (48 <=? byte c)%Z && (byte c <=? 57)%Z
    then (Ok (String c EmptyString, true), set_o p (o p + 1))
    else (Ok (EmptyString, false), p).
Proof.
  intros H. destruct (at_empty p c rest H) as [He Hi].
  unfold digit. rewrite He, Hi.
  destruct H as [Hp Hv].
  destruct (Z.leb_spec 48 (byte c)); destruct (Z.leb_spec (byte c) 57);
    destruct (Z.ltb_spec (byte c) 48); destruct (Z.ltb_spec 57 (byte c));
    simpl; try lia; try reflexivity.
  unfold slice. replace (o p + 1 - o p) with 1 by lia. now rewrite Hv.
Qed.

End CursorAt.

(** ** Classes of ASCII characters *)

Section Classes.

Lemma contains_high (cs : string) (r : Z) :
  ascii_class cs = true -> (0x80 <= r)%Z -> contains cs r = false.
Proof.
  unfold ascii_class, contains. intros Ha Hr.
  destruct (existsb (fun x => (snd x =? r)%Z) (Utf8.range cs)) eqn:E;
    [|reflexivity].
  apply existsb_exists in E. destruct E as (x & Hin & Hx).
  rewrite forallb_forall in Ha. specialize (Ha x Hin).
  apply Z.ltb_lt in Ha. apply Z.eqb_eq in Hx. lia.
Qed.

Lemma first_outside_bytes (cs v : string) :
  ascii_class cs = true ->
  forall j : nat,
    first_outside cs (Utf8.range_from 0 j v) =
      if (class_bytes cs v <? len v)%nat then Some (j + class_bytes cs v)
      else None.
Proof.
  intros Ha. unfold len. induction v as [|c t IH]; intros j; [reflexivity|].
  destruct (Z.ltb_spec (byte c) 0x80) as [Hlo|Hhi].
  - rewrite (range_from_low c t j Hlo). cbn [first_outside class_bytes].
    destruct (contains cs (byte c)); cbn [negb].
    + rewrite IH. cbn [String.length].
      change (S (class_bytes cs t) <? S (String.length t))%nat
        with (class_bytes cs t <? String.length t)%nat.
      destruct (class_bytes cs t <? String.length t)%nat; [|reflexivity].
      f_equal. lia.
    + cbn [String.length]. simpl. f_equal. lia.
  - destruct (range_from_high c t j Hhi) as (r & rest & -> & Hr).
    cbn [first_outside class_bytes].
    rewrite (contains_high cs r Ha Hr).
    rewrite (contains_high cs (byte c) Ha) by lia.
    cbn [String.length]. simpl. f_equal. lia.
Qed.

Lemma class_bytes_run (cs a rest : string) :
  in_class cs a = true -> stops cs rest = true ->
  class_bytes cs (a ++ rest) = len a.
Proof.
  intros Ha Hs. unfold len. induction a as [|c t IH]; simpl.
  - destruct rest as [|d r]; [reflexivity|]. simpl in *.
    apply negb_true_iff in Hs. now rewrite Hs.
  - simpl in Ha. apply andb_true_iff in Ha. destruct Ha as [Hc Ht].
    rewrite Hc. f_equal. now apply IH.
Qed.

Lemma in_class_upto (cs v : string) :
  in_class cs (upto (class_bytes cs v) v) = true.
Proof.
  induction v as [|c t IH]; [reflexivity|]. cbn [class_bytes].
  destruct (contains cs (byte c)) eqn:E; [|reflexivity].
  cbn [upto in_class]. now rewrite E, IH.
Qed.

Lemma class_bytes_le (cs v : string) : class_bytes cs v <= len v.
Proof.
  unfold len. induction v as [|c t IH]; simpl; [lia|].
  destruct (contains cs (byte c)); simpl; lia.
Qed.

(** A byte of an ASCII class is below 0x80. *)
Lemma in_class_low (cs : string) (c : ascii) :
  ascii_class cs = true -> contains cs (byte c) = true -> (byte c < 0x80)%Z.
Proof.
  intros Ha Hc. destruct (Z.ltb_spec (byte c) 0x80) as [H|H]; [exact H|].
  rewrite (contains_high cs (byte c) Ha H) in Hc. discriminate.
Qed.

End Classes.

(** ** Tagged extensions *)

(** C7. With no digit at the cursor, [xtaggedExtSimple] parses a
    [numSet] and then still parses the empty digit string as an integer,
    which fails: the method panics on every such input, the sequence sets
    [*] and [$] included. *)
Theorem xtaggedExtSimple_without_digits :
  forall p : parser,
    (digit_run p = EmptyString ->
     exists e p', xtaggedExtSimple p = (Panic e, p'))
    /\ xnumSet (on_line "*")
         = (Ok (mkNumSet false [mkNumRange (mkSetNumber 0 true) None]),
            set_o (on_line "*") 1)
    /\ xtaggedExtSimple (on_line "*")
         = (Panic (PanicSyntax (mkSyntaxError "" "" "parsing int: %v")),
            set_o (on_line "*") 1)
    /\ xnumSet (on_line "$") = (Ok (mkNumSet true []), set_o (on_line "$") 1)
    /\ xtaggedExtSimple (on_line "$")
         = (Panic (PanicSyntax (mkSyntaxError "" "" "parsing int: %v")),
            set_o (on_line "$") 1).
Proof.
  intros p. split; [|repeat split].
  intros H. unfold xtaggedExtSimple.
  rewrite bind_lift, digits_run, H. simpl.
  unfold bind at 1.
  destruct ((xnumSet ;; ret tt) p) as [[u|e] p1].
  - eexists. eexists. reflexivity.
  - eexists. eexists. reflexivity.
Qed.

Lemma xtaggedExtSimple_without_digits_witness :
  exists e p', xtaggedExtSimple (on_line "*:4,7") = (Panic e, p').
Proof.
  apply (proj1 (xtaggedExtSimple_without_digits (on_line "*:4,7"))).
  reflexivity.
Defined.

(** ** Strings and literals *)

Section Literals.

Lemma take_conn (w : string) (p : parser) : pconn (snd (take w p)) = pconn p.
Proof. unfold take. now destruct (hasPrefix w p). Qed.

Lemma digits_conn (p : parser) : pconn (snd (digits p)) = pconn p.
Proof. unfold digits. now destruct (Nat.eqb _ _). Qed.

Lemma xnumber64_conn (p p' : parser) (r : result Z) :
  xnumber64 p = (r, p') -> pconn p' = pconn p.
Proof.
  unfold xnumber64. rewrite bind_lift.
  pose proof (digits_conn p) as Hc.
  destruct (digits p) as [ds p1]. simpl in *.
  destruct (String.eqb ds EmptyString); simpl.
  - intros H. inversion H; subst. exact Hc.
  - unfold bind, ret, xerrorf, raise.
    destruct (Strconv.ParseInt ds 64); intros H; inversion H; subst; exact Hc.
Qed.

End Literals.

Section QuotedStrings.

Lemma no_backslash_app (a b : string) :
  no_backslash (a ++ b) = no_backslash a && no_backslash b.
Proof.
  induction a as [|c t IH]; simpl; [reflexivity|].
  now rewrite IH, andb_assoc.
Qed.

Lemma no_backslash_high (z : Z) (t : string) :
  (128 <= z < 256)%Z ->
  no_backslash (String (of_byte z) t) = no_backslash t.
Proof.
  intros H. simpl. rewrite byte_of_byte by lia.
  destruct (Z.eqb_spec z 92); [lia | reflexivity].
Qed.

(** The encoding of a rune other than the backslash holds no backslash. *)
Lemma string_of_rune_no_backslash (c : Z) :
  c <> 92%Z -> no_backslash (Utf8.string_of_rune c) = true.
Proof.
  intros Hc. unfold Utf8.string_of_rune, Utf8.between, Utf8.RuneError.
  set (r := if (c <? 0)%Z || (1114111 <? c)%Z
                || (55296 <=? c)%Z && (c <=? 57343)%Z
            then 65533%Z else c).
  assert (0 <= r <= 1114111 /\ r <> 92)%Z as [Hr Hr92].
  { unfold r.
    destruct (Z.ltb_spec c 0); destruct (Z.ltb_spec 1114111 c);
      destruct (Z.leb_spec 55296 c); destruct (Z.leb_spec c 57343);
      simpl; lia. }
  clearbody r.
  destruct (Z.ltb_spec r 128).
  - simpl. rewrite byte_of_byte by lia.
    destruct (Z.eqb_spec r 92); [contradiction | reflexivity].
  - destruct (Z.ltb_spec r 2048); [|destruct (Z.ltb_spec r 65536)].
    all: repeat rewrite no_backslash_high.
    all: try reflexivity.
    all: Z.div_mod_to_equations; lia.
Qed.

(** Whatever the quoted branch returns, it has added no backslash. *)
Lemma xstring_loop_no_backslash (rs : list (nat * Z)) :
  forall (esc : bool) (r v : string) (p p' : parser),
    xstring_loop rs esc r p = (Ok v, p') ->
    no_backslash r = true -> no_backslash v = true.
Proof.
  induction rs as [|[i c] rs IH]; intros esc r v p p' H Hr; simpl in H;
    [discriminate|].
  destruct (Z.eqb_spec c 92) as [E|E]; [exact (IH _ _ _ _ _ H Hr)|].
  destruct ((c =? 0)%Z || (c =? 13)%Z || (c =? 10)%Z); [discriminate|].
  assert (no_backslash (r ++ Utf8.string_of_rune c) = true) as Hrc
      by (rewrite no_backslash_app, Hr, string_of_rune_no_backslash;
          [reflexivity | exact E]).
  destruct esc.
  - simpl in H. destruct (c =? 34)%Z; [|discriminate].
    exact (IH _ _ _ _ _ H Hrc).
  - destruct (c =? 34)%Z.
    + inversion H; subst. exact Hr.
    + exact (IH _ _ _ _ _ H Hrc).
Qed.

End QuotedStrings.

(** C1. No quoted string is parsed to a value that holds a backslash: every
    backslash only sets the escape flag and is never added, so the escape
    backslash-backslash yields nothing.  The four bytes dquote, backslash,
    backslash, dquote are not parsed as the string of one backslash: the
    closing quote is taken as escaped and [xstring] panics for want of a
    closing quote.  The escaped quote works. *)
Theorem xstring_backslash_escape :
  forall p : parser,
    (hasPrefix DQUOTE p = true ->
     forall v p', xstring p = (Ok v, p') -> no_backslash v = true)
    /\ xstring (on_line (DQUOTE ++ BACKSLASH ++ BACKSLASH ++ DQUOTE))
         = (Panic (PanicSyntax
                     (mkSyntaxError "" "" "missing closing dquote in string")),
            set_o (on_line (DQUOTE ++ BACKSLASH ++ BACKSLASH ++ DQUOTE)) 1)
    /\ xstring (on_line (DQUOTE ++ "a" ++ BACKSLASH ++ BACKSLASH ++ "b"
                         ++ DQUOTE))
         = (Panic (PanicSyntax (mkSyntaxError "" "" "invalid escape char %c")),
            set_o (on_line (DQUOTE ++ "a" ++ BACKSLASH ++ BACKSLASH ++ "b"
                            ++ DQUOTE)) 1)
    /\ xstring (on_line (DQUOTE ++ "a" ++ BACKSLASH ++ DQUOTE ++ "b"
                         ++ DQUOTE))
         = (Ok ("a" ++ DQUOTE ++ "b"),
            set_o (on_line (DQUOTE ++ "a" ++ BACKSLASH ++ DQUOTE ++ "b"
                            ++ DQUOTE)) 6).
Proof.
  intros p. split; [|split; [|split]]; try (vm_compute; reflexivity).
  intros Hq v p' H. unfold xstring in H.
  rewrite bind_lift, (take_true _ _ Hq) in H. simpl in H.
  exact (xstring_loop_no_backslash _ _ _ _ _ _ H eq_refl).
Qed.

Lemma xstring_backslash_escape_witness :
  no_backslash ("a" ++ DQUOTE ++ "b") = true.
Proof.
  apply (proj1 (xstring_backslash_escape
                  (on_line (DQUOTE ++ "a" ++ BACKSLASH ++ DQUOTE ++ "b"
                            ++ DQUOTE)))
           eq_refl ("a" ++ DQUOTE ++ "b")
           (set_o (on_line (DQUOTE ++ "a" ++ BACKSLASH ++ DQUOTE ++ "b"
                            ++ DQUOTE)) 6)).
  reflexivity.
Defined.

(** C2. When [xliteralSize] is called with [maxSize > 0] and the digits
    after the opening brace are a size [N] (a value that fits [int64]) above
    [maxSize], it panics with code TOOBIG and the untagged BYE line naming
    [N] and [maxSize], at the end of the digits; the connection is as it was,
    so no octet was read and no continuation was sent.  The same holds for
    [xstring] on a literal, whose limit is 100 KiB. *)
Theorem xliteralSize_toobig :
  forall (p : parser) (maxSize : Z) (lit8 : bool),
    let p0 := if lit8 then snd (take "~" p) else p in
    let q := set_o p0 (o p0 + 1) in
    let N := decimal_value (digit_run q) in
    let too_big :=
      PanicSyntax (mkSyntaxError
        ("* BYE [ALERT] Max literal size " ++ Strconv.FormatInt N
         ++ " is larger than allowed " ++ Strconv.FormatInt maxSize
         ++ " in this context") "TOOBIG" "literal too big") in
    hasPrefix "{" p0 = true ->
    digit_run q <> EmptyString ->
    (N <= 9223372036854775807)%Z ->
    (0 < maxSize)%Z -> (maxSize < N)%Z ->
    xliteralSize maxSize lit8 p
      = (Panic too_big, set_o q (o q + len (digit_run q)))
    /\ pconn (set_o q (o q + len (digit_run q))) = pconn p
    /\ (hasPrefix DQUOTE p = false -> lit8 = false -> maxSize = 102400%Z ->
        xstring p = (Panic too_big, set_o q (o q + len (digit_run q)))).
Proof.
  intros p maxSize lit8 p0 q N too_big Hbrace Hrun Hfit Hpos Hbig.
  assert (xnumber64 q = (Ok N, set_o q (o q + len (digit_run q)))) as Hnum.
  { rewrite xnumber64_run.
    destruct (String.eqb_spec (digit_run q) EmptyString); [contradiction|].
    fold N. destruct (Z.leb_spec N 9223372036854775807); [reflexivity | lia]. }
  assert (xliteralSize maxSize lit8 p
          = (Panic too_big, set_o q (o q + len (digit_run q)))) as Hlit.
  { unfold xliteralSize.
    assert ((if lit8 then _ <- lift (take "~") ;; ret tt else ret tt) p
            = (Ok tt, p0)) as H0.
    { unfold p0. destruct lit8; [|reflexivity].
      rewrite bind_lift. reflexivity. }
    rewrite (bind_Ok _ _ _ _ _ H0).
    assert (xtake "{" p0 = (Ok tt, q)) as H1.
    { unfold xtake. rewrite bind_lift, (take_true _ _ Hbrace). reflexivity. }
    rewrite (bind_Ok _ _ _ _ _ H1), (bind_Ok _ _ _ _ _ Hnum).
    replace ((0 <? maxSize)%Z && (maxSize <? N)%Z) with true
      by (symmetry; apply andb_true_iff; split; apply Z.ltb_lt; lia).
    reflexivity. }
  split; [exact Hlit | split].
  - simpl. unfold p0. destruct lit8; [apply take_conn | reflexivity].
  - intros Hq Hl8 Hmax. unfold xstring. rewrite bind_lift.
    rewrite (take_false _ _ Hq). simpl.
    change (100 * 1024)%Z with 102400%Z.
    rewrite <- Hmax, <- Hl8.
    rewrite (bind_Panic _ _ _ _ _ Hlit). reflexivity.
Qed.

Lemma xliteralSize_toobig_witness :
  xstring (on_line "{9999999999}")
    = (Panic (PanicSyntax (mkSyntaxError
         "* BYE [ALERT] Max literal size 9999999999 is larger than allowed 102400 in this context"
         "TOOBIG" "literal too big")),
       set_o (on_line "{9999999999}") 11)
  /\ pconn (set_o (on_line "{9999999999}") 11) = idle
  /\ xliteralSize 4096 true (on_line "~{4097+}")
       = (Panic (PanicSyntax (mkSyntaxError
            "* BYE [ALERT] Max literal size 4097 is larger than allowed 4096 in this context"
            "TOOBIG" "literal too big")),
          set_o (on_line "~{4097+}") 6).
Proof.
  pose proof (xliteralSize_toobig (on_line "{9999999999}") 102400 false
                eq_refl) as H.
  cbv zeta in H.
  assert (digit_run (set_o (on_line "{9999999999}") 1) <> EmptyString) as Hne
      by (vm_compute; discriminate).
  destruct (H Hne ltac:(vm_compute; discriminate) eq_refl eq_refl)
    as (_ & Hc & Hs).
  split; [exact (Hs eq_refl eq_refl eq_refl) | split; [exact Hc|]].
  pose proof (xliteralSize_toobig (on_line "~{4097+}") 4096 true eq_refl) as G.
  cbv zeta in G.
  exact (proj1 (G ltac:(vm_compute; discriminate)
                  ltac:(vm_compute; discriminate) eq_refl eq_refl)).
Defined.

(** ** Keyword lists *)

Section Keywords.

(** Two words neither of which is a prefix of the other are never both a
    prefix of the input. *)
Lemma HasPrefix_exclusive (v a b : string) :
  HasPrefix a b = false -> HasPrefix b a = false ->
  HasPrefix v a = true -> HasPrefix v b = false.
Proof.
  intros Hab Hba Ha. destruct (HasPrefix v b) eqn:Hb; [|reflexivity].
  destruct (Nat.le_ge_cases (len a) (len b)) as [H|H].
  - rewrite (HasPrefix_chain v a b Ha Hb H) in Hba. discriminate.
  - rewrite (HasPrefix_chain v b a Hb Ha H) in Hab. discriminate.
Qed.

Lemma hasPrefix_exclusive (a b : string) (p : parser) :
  HasPrefix a b = false -> HasPrefix b a = false ->
  hasPrefix a p = true -> hasPrefix b p = false.
Proof. unfold hasPrefix. apply HasPrefix_exclusive. Qed.

Lemma hasPrefix_shorter (a b : string) (p : parser) :
  HasPrefix b a = true -> hasPrefix b p = true -> hasPrefix a p = true.
Proof.
  unfold hasPrefix. intros Hba Hb.
  apply HasPrefix_split in Hba. apply HasPrefix_split in Hb.
  rewrite Hb, Hba, append_assoc. apply HasPrefix_app.
Qed.

Lemma longest_first_later (l1 l2 : list string) (f g : string) :
  longest_first (l1 ++ f :: l2) = true -> In g l2 ->
  HasPrefix g f = true -> len g <= len f.
Proof.
  induction l1 as [|x l1 IH]; simpl; intros H Hg Hp.
  - apply andb_true_iff in H. destruct H as [H _].
    rewrite forallb_forall in H. specialize (H g Hg).
    rewrite Hp in H. simpl in H. apply negb_true_iff in H.
    apply Nat.ltb_ge in H. exact H.
  - apply andb_true_iff in H. destruct H as [_ H]. now apply IH.
Qed.

(** With a list in longest-first order the word [takelist] returns is the
    longest word of the list that is a prefix of the input. *)
Lemma takelist_longest (l : list string) (p p' : parser) (f : string) :
  longest_first l = true ->
  takelist l p = ((f, true), p') ->
  In f l /\ hasPrefix f p = true
  /\ forall g, In g l -> hasPrefix g p = true -> len g <= len f.
Proof.
  intros Hl H. apply takelist_true in H.
  destruct H as (l1 & l2 & -> & Hno & Hf & _).
  split; [apply in_or_app; right; now left|].
  split; [exact Hf|].
  intros g Hg Hgp. apply in_app_or in Hg. destruct Hg as [Hg|[<-|Hg]].
  - rewrite (Hno g Hg) in Hgp. discriminate.
  - lia.
  - destruct (Nat.le_ge_cases (len g) (len f)) as [Hle|Hle]; [exact Hle|].
    apply (longest_first_later l1 l2 f g Hl Hg).
    unfold hasPrefix in *.
    exact (HasPrefix_chain _ _ _ Hf Hgp Hle).
Qed.

Lemma xtakelist_Ok (l : list string) (p p' : parser) (f : string) :
  xtakelist l p = (Ok f, p') -> takelist l p = ((f, true), p').
Proof.
  unfold xtakelist. rewrite bind_lift.
  destruct (takelist l p) as [[w ok] p1]. simpl.
  destruct ok; simpl; intros H; inversion H; subst; reflexivity.
Qed.

Lemma xtakelist_true (l : list string) (p p' : parser) (f : string) :
  takelist l p = ((f, true), p') -> xtakelist l p = (Ok f, p').
Proof. unfold xtakelist. rewrite bind_lift. now intros ->. Qed.

End Keywords.

(** ** Fetch attributes *)

Section FetchAtt.

Variable canon : string -> string.

(** Inverts a run that returned: every call in sequence returned. *)
Ltac returned H :=
  repeat match type of H with
         | bind _ _ _ = (Ok _, _) =>
           let a := fresh "a" in
           let q := fresh "q" in
           let E := fresh "E" in
           apply bind_Ok_inv in H; destruct H as (a & q & E & H)
         | (if ?b then _ else _) _ = (Ok _, _) => destruct b eqn:?
         | ret _ _ = (Ok _, _) => inversion H; subst; clear H
         end.

(** What a returned fetch attribute says about the keyword matched. *)
Lemma xfetchAtt_Ok (p p' : parser) (r : fetchAtt) :
  xfetchAtt canon p = (Ok r, p') ->
  exists f p1,
    takelist fetchAttWords p = ((f, true), p1)
    /\ field r = TrimSuffix f ".PEEK"
    /\ peek r = HasSuffix f ".PEEK"
    /\ (field r = "BODY" -> hasPrefix "[" p1 = true -> section r <> None).
Proof.
  unfold xfetchAtt. intros H.
  apply context_Ok_inv in H. destruct H as (p2 & H).
  apply bind_Ok_inv in H. destruct H as (f & p1 & Hf & H).
  apply xtakelist_Ok in Hf.
  exists f, (set_contexts p1 (contexts p)). split.
  - apply takelist_true in Hf.
    destruct Hf as (l1 & l2 & Hl & Hno & Hw & ->).
    rewrite Hl, (takelist_skip l1 _ p) by exact Hno.
    simpl. rewrite (take_true f p) by exact Hw. reflexivity.
  - destruct (String.eqb (TrimSuffix f ".PEEK") "BODY") eqn:E1;
      [|destruct (String.eqb (TrimSuffix f ".PEEK") "BINARY") eqn:E2;
        [|destruct (String.eqb (TrimSuffix f ".PEEK") "BINARY.SIZE") eqn:E3]].
    + apply bind_Ok_inv in H. destruct H as (b & q & Hb & H).
      unfold hasPrefixM in Hb. inversion Hb; subst; clear Hb.
      destruct (hasPrefix "[" q) eqn:Eb.
      * returned H; simpl; repeat split; auto; discriminate.
      * inversion H; subst. simpl. repeat split; auto.
        intros _ Hc. unfold hasPrefix in *. simpl in *. congruence.
    + returned H; simpl; repeat split; auto;
        intros Hc; apply String.eqb_neq in E1; contradiction.
    + returned H; simpl; repeat split; auto;
        intros Hc; apply String.eqb_neq in E1; contradiction.
    + inversion H; subst. simpl. repeat split; auto.
      intros Hc; apply String.eqb_neq in E1; contradiction.
Qed.

Lemma takelist_BODYSTRUCTURE (p : parser) :
  hasPrefix "BODYSTRUCTURE" p = true ->
  takelist fetchAttWords p = (("BODYSTRUCTURE", true), set_o p (o p + 13)).
Proof.
  intros H.
  apply (takelist_at ["ENVELOPE"; "FLAGS"; "INTERNALDATE"; "RFC822.SIZE"]);
    [|exact H].
  intros g [<-|[<-|[<-|[<-|[]]]]];
    apply (hasPrefix_exclusive "BODYSTRUCTURE"); auto.
Qed.

Lemma takelist_BODY_PEEK (p : parser) :
  hasPrefix "BODY.PEEK" p = true ->
  takelist fetchAttWords p = (("BODY.PEEK", true), set_o p (o p + 9)).
Proof.
  intros H.
  apply (takelist_at ["ENVELOPE"; "FLAGS"; "INTERNALDATE"; "RFC822.SIZE";
                      "BODYSTRUCTURE"; "UID"]); [|exact H].
  intros g [<-|[<-|[<-|[<-|[<-|[<-|[]]]]]]];
    apply (hasPrefix_exclusive "BODY.PEEK"); auto.
Qed.

Lemma takelist_BODY_section (p : parser) :
  hasPrefix "BODY[" p = true ->
  takelist fetchAttWords p = (("BODY", true), set_o p (o p + 4))
  /\ hasPrefix "[" (set_o p (o p + 4)) = true.
Proof.
  intros H. split.
  - apply (takelist_at ["ENVELOPE"; "FLAGS"; "INTERNALDATE"; "RFC822.SIZE";
                        "BODYSTRUCTURE"; "UID"; "BODY.PEEK"]).
    + intros g [<-|[<-|[<-|[<-|[<-|[<-|[<-|[]]]]]]]];
        apply (hasPrefix_exclusive "BODY["); auto.
    + apply (hasPrefix_shorter "BODY" "BODY[" p); [reflexivity | exact H].
  - unfold hasPrefix in *. simpl o. simpl upper.
    apply HasPrefix_split in H. rewrite <- from_from, H. reflexivity.
Qed.

Lemma hasPrefix_after (a b : string) (p : parser) :
  hasPrefix (a ++ b) p = true ->
  hasPrefix a p = true /\ hasPrefix b (set_o p (o p + len a)) = true.
Proof.
  unfold hasPrefix. simpl o. simpl upper. intros H.
  apply HasPrefix_split in H. rewrite append_assoc in H. split.
  - rewrite H. apply HasPrefix_app.
  - rewrite <- from_from. rewrite H at 1. rewrite from_len_app.
    apply HasPrefix_app.
Qed.

(** [BODY] or [BODY.PEEK] with the empty section and no partial. *)
Lemma xfetchAtt_empty_section (kw : string) (p : parser) :
  takelist fetchAttWords p = ((kw, true), set_o p (o p + len kw)) ->
  TrimSuffix kw ".PEEK" = "BODY" ->
  hasPrefix "[]" (set_o p (o p + len kw)) = true ->
  hasPrefix "<" (set_o p (o p + len kw + 2)) = false ->
  xfetchAtt canon p
    = (Ok (mkFetchAtt "BODY" (HasSuffix kw ".PEEK")
             (Some (mkSectionSpec None None)) [] None),
       set_o p (o p + len kw + 2)).
Proof.
  intros Hkw Htrim Hsec Hpart.
  destruct (hasPrefix_after "[" "]" _ Hsec) as [Hopen Hclose].
  unfold xfetchAtt, context, defer.
  set (q := set_contexts p (contexts p ++ ["fetchAtt"])).
  assert (xtakelist fetchAttWords q = (Ok kw, set_o q (o p + len kw))) as E1.
  { apply xtakelist_true. apply takelist_true in Hkw.
    destruct Hkw as (l1 & l2 & Hl & Hno & Hw & _).
    rewrite Hl. apply (takelist_at l1 l2 kw q); [exact Hno | exact Hw]. }
  rewrite (bind_Ok _ _ _ _ _ E1). rewrite Htrim. cbn [String.eqb Ascii.eqb Bool.eqb].
  set (q1 := set_o q (o p + len kw)).
  assert (hasPrefixM "[" q1 = (Ok true, q1)) as E2
      by (unfold hasPrefixM; f_equal; f_equal; exact Hopen).
  rewrite (bind_Ok _ _ _ _ _ E2). cbv iota.
  assert (xsection canon q1
          = (Ok (mkSectionSpec None None), set_o q1 (o p + len kw + 2))) as E3.
  { unfold xsection, context, defer.
    set (q2 := set_contexts q1 (contexts q1 ++ ["parseSection"])).
    assert (xtake "[" q2 = (Ok tt, set_o q2 (o p + len kw + 1))) as E31.
    { unfold xtake. rewrite bind_lift, take_true by exact Hopen. reflexivity. }
    rewrite (bind_Ok _ _ _ _ _ E31). rewrite bind_lift.
    rewrite take_true by exact Hclose.
    cbn [fst snd ret]. f_equal.
    unfold q2, q1, q, set_o, set_contexts. cbn [orig upper o contexts pconn].
    rewrite removelast_snoc. f_equal. change (len "]") with 1. lia. }
  rewrite (bind_Ok _ _ _ _ _ E3).
  assert (hasPrefixM "<" (set_o q1 (o p + len kw + 2))
          = (Ok false, set_o q1 (o p + len kw + 2))) as E4
      by (unfold hasPrefixM; f_equal; f_equal; exact Hpart).
  rewrite (bind_Ok _ _ _ _ _ E4). cbv iota. cbn [ret]. f_equal.
  unfold q1, q, set_o, set_contexts. cbn [orig upper o contexts pconn].
  now rewrite removelast_snoc.
Qed.

End FetchAtt.

(** C5. The keyword list of [xfetchAtt] is in longest-first order, so the
    keyword matched is the longest one that is a prefix of the input, and a
    returned attribute has [peek] true exactly when that keyword ends in
    [.PEEK], with [field] the keyword without the suffix.  Input starting
    with [BODY.PEEK] gives field [BODY] with [peek] true, input starting with
    [BODY[] gives field [BODY] with [peek] false and a section, input
    starting with [BODYSTRUCTURE] always returns field [BODYSTRUCTURE]. *)
Theorem xfetchAtt_longest_match :
  forall (canon : string -> string) (p : parser),
    longest_first fetchAttWords = true
    /\ (forall r p', xfetchAtt canon p = (Ok r, p') ->
        exists f,
          In f fetchAttWords /\ hasPrefix f p = true
          /\ (forall g, In g fetchAttWords -> hasPrefix g p = true ->
              len g <= len f)
          /\ field r = TrimSuffix f ".PEEK"
          /\ peek r = HasSuffix f ".PEEK")
    /\ (hasPrefix "BODY.PEEK" p = true ->
        forall r p', xfetchAtt canon p = (Ok r, p') ->
        field r = "BODY" /\ peek r = true)
    /\ (hasPrefix "BODY[" p = true ->
        forall r p', xfetchAtt canon p = (Ok r, p') ->
        field r = "BODY" /\ peek r = false /\ section r <> None)
    /\ (hasPrefix "BODYSTRUCTURE" p = true ->
        xfetchAtt canon p
          = (Ok (mkFetchAtt "BODYSTRUCTURE" false None [] None),
             set_o p (o p + 13)))
    /\ (hasPrefix "BODY.PEEK[]" p = true ->
        hasPrefix "<" (set_o p (o p + 11)) = false ->
        xfetchAtt canon p
          = (Ok (mkFetchAtt "BODY" true (Some (mkSectionSpec None None))
                   [] None),
             set_o p (o p + 11)))
    /\ (hasPrefix "BODY[]" p = true ->
        hasPrefix "<" (set_o p (o p + 6)) = false ->
        xfetchAtt canon p
          = (Ok (mkFetchAtt "BODY" false (Some (mkSectionSpec None None))
                   [] None),
             set_o p (o p + 6))).
Proof.
  intros canon p.
  split; [reflexivity|]. split; [|split; [|split; [|split; [|split]]]].
  - intros r p' H. apply xfetchAtt_Ok in H.
    destruct H as (f & p1 & Hf & Hfield & Hpeek & _).
    exists f.
    destruct (takelist_longest fetchAttWords p p1 f eq_refl Hf)
      as (Hin & Hp & Hlong).
    repeat split; assumption.
  - intros Hp r p' H. apply xfetchAtt_Ok in H.
    destruct H as (f & p1 & Hf & Hfield & Hpeek & _).
    rewrite (takelist_BODY_PEEK p Hp) in Hf. inversion Hf; subst f.
    rewrite Hfield, Hpeek. split; reflexivity.
  - intros Hp r p' H. apply xfetchAtt_Ok in H.
    destruct H as (f & p1 & Hf & Hfield & Hpeek & Hsec).
    destruct (takelist_BODY_section p Hp) as [Ht Hb].
    rewrite Ht in Hf. inversion Hf; subst f p1.
    rewrite Hfield, Hpeek. repeat split.
    apply Hsec; [rewrite Hfield; reflexivity | exact Hb].
  - intros Hp. unfold xfetchAtt, context, defer.
    assert (xtakelist fetchAttWords
              (set_contexts p (contexts p ++ ["fetchAtt"]))
            = (Ok "BODYSTRUCTURE",
               set_o (set_contexts p (contexts p ++ ["fetchAtt"]))
                     (o p + 13))) as Ht.
    { apply xtakelist_true.
      apply (takelist_BODYSTRUCTURE
               (set_contexts p (contexts p ++ ["fetchAtt"]))).
      exact Hp. }
    rewrite (bind_Ok _ _ _ _ _ Ht). simpl.
    unfold set_contexts, set_o. simpl. now rewrite removelast_snoc.
  - intros Hp Hlt.
    destruct (hasPrefix_after "BODY.PEEK" "[]" p Hp) as [Hkw Hsec].
    replace (o p + 11) with (o p + len "BODY.PEEK" + 2) in *
      by (change (len "BODY.PEEK") with 9; lia).
    apply (xfetchAtt_empty_section canon "BODY.PEEK" p);
      [apply takelist_BODY_PEEK; exact Hkw | reflexivity | exact Hsec
      | exact Hlt].
  - intros Hp Hlt.
    destruct (hasPrefix_after "BODY[" "]" p Hp) as [Hkw _].
    destruct (hasPrefix_after "BODY" "[]" p Hp) as [_ Hsec].
    replace (o p + 6) with (o p + len "BODY" + 2) in *
      by (change (len "BODY") with 4; lia).
    apply (xfetchAtt_empty_section canon "BODY" p);
      [apply takelist_BODY_section; exact Hkw | reflexivity | exact Hsec
      | exact Hlt].
Qed.

Lemma xfetchAtt_longest_match_witness :
  (field (mkFetchAtt "BODY" true
            (Some (mkSectionSpec
                     (Some (mkSectionMsgtext "HEADER.FIELDS" ["From"; "To"]))
                     None)) [] None) = "BODY"
   /\ peek (mkFetchAtt "BODY" true
              (Some (mkSectionSpec
                       (Some (mkSectionMsgtext "HEADER.FIELDS" ["From"; "To"]))
                       None)) [] None) = true)
  /\ (field (mkFetchAtt "BODY" false
               (Some (mkSectionSpec
                        (Some (mkSectionMsgtext "TEXT" [])) None))
               [] (Some (mkPartial 0 10))) = "BODY"
      /\ peek (mkFetchAtt "BODY" false
                 (Some (mkSectionSpec
                          (Some (mkSectionMsgtext "TEXT" [])) None))
                 [] (Some (mkPartial 0 10))) = false
      /\ section (mkFetchAtt "BODY" false
                    (Some (mkSectionSpec
                             (Some (mkSectionMsgtext "TEXT" [])) None))
                    [] (Some (mkPartial 0 10))) <> None)
  /\ xfetchAtt (fun h => h) (on_line "bodystructure)")
       = (Ok (mkFetchAtt "BODYSTRUCTURE" false None [] None),
          set_o (on_line "bodystructure)") 13).
Proof.
  split; [|split].
  - apply (proj1 (proj2 (proj2
             (xfetchAtt_longest_match (fun h => h)
                (on_line "body.peek[header.fields (From To)]"))))
             eq_refl _
             (set_o (on_line "body.peek[header.fields (From To)]") 34)).
    vm_compute. reflexivity.
  - apply (proj1 (proj2 (proj2 (proj2
             (xfetchAtt_longest_match (fun h => h)
                (on_line "BODY[TEXT]<0.10> x")))))
             eq_refl _ (set_o (on_line "BODY[TEXT]<0.10> x") 16)).
    vm_compute. reflexivity.
  - apply (proj1 (proj2 (proj2 (proj2 (proj2
             (xfetchAtt_longest_match (fun h => h)
                (on_line "bodystructure)"))))))).
    reflexivity.
Defined.

(** ** Flags *)

Section Flags.

Lemma slice_to_end (v : string) (i : nat) : slice v i (len v) = from i v.
Proof.
  unfold slice. apply upto_all. rewrite len_from. lia.
Qed.

(** [xtakechars] returns the bytes of the original line it moved over. *)
Lemma xtakechars_Ok (cs what : string) (p p' : parser) (a : string) :
  xtakechars cs what p = (Ok a, p') ->
  a = slice (orig p) (o p) (o p') /\ orig p' = orig p.
Proof.
  unfold xtakechars. intros H.
  apply bind_Ok_inv in H. destruct H as ([] & q & Hq & H).
  unfold xnonempty in Hq. destruct (empty p); [discriminate|].
  inversion Hq; subst q; clear Hq.
  destruct (first_outside cs (Utf8.range (from (o p) (orig p)))) as [i|].
  - unfold xtake1n in H. destruct (i =? 0)%nat; [discriminate|].
    unfold xtaken in H.
    destruct (len (orig p) <? o p + i)%nat; [discriminate|].
    inversion H; subst. simpl. split; reflexivity.
  - unfold xtakeall in H. inversion H; subst. simpl.
    split; [symmetry; apply slice_to_end | reflexivity].
Qed.

Lemma xflag_backslash (p : parser) :
  hasPrefix BACKSLASH p = true ->
  xflag p =
    bind xatom
      (fun a =>
         (if existsb (String.eqb (ToLower (BACKSLASH ++ a))) systemFlags
          then ret tt else xerrorf "unknown system flag %s") ;;
         ret (BACKSLASH ++ a))
      (set_o p (o p + 1)).
Proof.
  intros H. unfold xflag. rewrite bind_lift.
  change (takelist [BACKSLASH; "$"] p)
    with (takelist ([] ++ BACKSLASH :: ["$"]) p).
  rewrite takelist_at by (auto; intros g []).
  reflexivity.
Qed.


(** On an ASCII class [xtakechars] returns the longest run of bytes of the
    class at the cursor, which must not be empty. *)
Lemma xtakechars_on (p : parser) (cs what a rest : string) :
  at_cursor p (a ++ rest) -> ascii_class cs = true ->
  in_class cs a = true -> stops cs rest = true ->
  xtakechars cs what p =
    match a with
    | EmptyString =>
      (Panic (PanicSyntax
                (mkSyntaxError "" ""
                   (if (len rest =? 0)%nat then "unexpected end"
                    else "expected chars from %s"))), p)
    | _ => (Ok a, set_o p (o p + len a))
    end.
Proof.
  intros H Hcs Ha Hs. unfold xtakechars.
  pose proof H as [Hp Hv].
  assert (empty p = (len (a ++ rest) =? 0)%nat) as He.
  { unfold empty. rewrite (wf_len_upper p Hp), <- Hv, len_from.
    destruct Hp as [_ Ho].
    destruct (Nat.eqb_spec (o p) (len (orig p)));
      destruct (Nat.eqb_spec (len (orig p) - o p) 0); try lia; reflexivity. }
  unfold bind at 1. unfold xnonempty. rewrite He.
  destruct (Nat.eqb_spec (len (a ++ rest)) 0) as [H0|H0].
  - rewrite len_app in H0.
    destruct a; [|unfold len in H0; simpl in H0; lia].
    simpl in H0. rewrite H0. reflexivity.
  - cbn [ret]. unfold Utf8.range. rewrite Hv.
    rewrite (first_outside_bytes cs _ Hcs 0), (class_bytes_run cs a rest Ha Hs).
    rewrite len_app.
    destruct (Nat.ltb_spec (len a) (len a + len rest)) as [Hlt|Hge].
    + cbn [Nat.add]. unfold xtake1n.
      destruct a as [|c t].
      * simpl. simpl in H0.
        destruct (Nat.eqb_spec (len rest) 0); [contradiction | reflexivity].
      * change (len (String c t) =? 0)%nat with false. cbv iota.
        exact (at_xtaken p _ rest H).
    + assert (len rest = 0) as Hr by lia.
      destruct rest; [|unfold len in Hr; simpl in Hr; lia].
      rewrite append_nil_r in *.
      destruct a as [|c t]; [simpl in H0; contradiction|].
      unfold xtakeall. rewrite Hv. f_equal.
      unfold set_o. f_equal.
      assert (len (from (o p) (orig p)) = len (String c t)) as Hl
          by now rewrite Hv.
      rewrite len_from in Hl. destruct Hp as [_ Ho]. lia.
Qed.

Lemma atomChar_ascii : ascii_class atomChar = true.
Proof. vm_compute. reflexivity. Qed.

Lemma xflag_on (p : parser) (a rest : string) :
  at_cursor p (BACKSLASH ++ a ++ rest) ->
  in_class atomChar a = true -> stops atomChar rest = true ->
  a <> EmptyString ->
  xflag p =
    if existsb (String.eqb (ToLower (BACKSLASH ++ a))) systemFlags
    then (Ok (BACKSLASH ++ a), set_o p (o p + 1 + len a))
    else (Panic (PanicSyntax (mkSyntaxError "" "" "unknown system flag %s")),
          set_o p (o p + 1 + len a)).
Proof.
  intros H Ha Hs Hne.
  assert (hasPrefix BACKSLASH p = true) as Hb.
  { unfold hasPrefix. rewrite (at_upper p _ H), toUpper_app.
    apply HasPrefix_app. }
  rewrite (xflag_backslash p Hb).
  pose proof (at_advance p BACKSLASH _ H) as H1.
  change (len BACKSLASH) with 1 in H1.
  assert (xatom (set_o p (o p + 1))
          = (Ok a, set_o p (o p + 1 + len a))) as Ex.
  { unfold xatom.
    rewrite (xtakechars_on _ atomChar "atom" a rest H1 atomChar_ascii Ha Hs).
    destruct a; [contradiction | reflexivity]. }
  rewrite (bind_Ok _ _ _ _ _ Ex).
  destruct (existsb _ systemFlags); reflexivity.
Qed.


(** What [xtakechars] returns on an ASCII class is made of bytes of the
    class, so [xflag] lower-cases ASCII only. *)
Lemma xtakechars_in_class (cs what : string) (p p' : parser) (a : string) :
  ascii_class cs = true ->
  xtakechars cs what p = (Ok a, p') -> in_class cs a = true.
Proof.
  intros Hcs H. unfold xtakechars in H.
  apply bind_Ok_inv in H. destruct H as ([] & q & Hq & H).
  unfold xnonempty in Hq. destruct (empty p); [discriminate|].
  inversion Hq; subst q; clear Hq.
  unfold Utf8.range in H. rewrite (first_outside_bytes cs _ Hcs 0) in H.
  pose proof (class_bytes_le cs (from (o p) (orig p))) as Hle.
  destruct (Nat.ltb_spec (class_bytes cs (from (o p) (orig p)))
                         (len (from (o p) (orig p)))) as [Hlt|Hge].
  - cbn [Nat.add] in H. unfold xtake1n in H.
    destruct (class_bytes cs (from (o p) (orig p)) =? 0)%nat; [discriminate|].
    unfold xtaken in H.
    destruct (len (orig p) <? o p + class_bytes cs (from (o p) (orig p)))%nat;
      [discriminate|].
    inversion H; subst. unfold slice.
    replace (o p + class_bytes cs (from (o p) (orig p)) - o p)
      with (class_bytes cs (from (o p) (orig p))) by lia.
    apply in_class_upto.
  - unfold xtakeall in H. inversion H; subst.
    rewrite <- (upto_all (class_bytes cs (from (o p) (orig p)))
                  (from (o p) (orig p))) by lia.
    apply in_class_upto.
Qed.

End Flags.

(** C6, as the code has it.  For a flag that starts with a backslash, with
    [a] the atom after it (the longest run of atom characters, not empty):
    [xflag] returns the backslash and [a] as they are spelled in the original
    line when the lower-cased flag is one of the five system flags, and
    panics with a syntax error otherwise; a panic of the atom is passed on.
    So [\Foo] fails, and [\Seen], [\seen] and [\SEEN] succeed, each returned
    in its own spelling; their lower-cased forms are the same. *)
Theorem xflag_system_flags :
  forall p : parser,
    (forall a rest : string,
       at_cursor p (BACKSLASH ++ a ++ rest) ->
       in_class atomChar a = true -> stops atomChar rest = true ->
       a <> EmptyString ->
       xflag p =
         if existsb (String.eqb (ToLower (BACKSLASH ++ a))) systemFlags
         then (Ok (BACKSLASH ++ a), set_o p (o p + 1 + len a))
         else (Panic (PanicSyntax
                        (mkSyntaxError "" "" "unknown system flag %s")),
               set_o p (o p + 1 + len a)))
    /\ (hasPrefix BACKSLASH p = true ->
        (forall a p1, xatom (set_o p (o p + 1)) = (Ok a, p1) ->
           a = slice (orig p) (o p + 1) (o p1)
           /\ xflag p =
                if existsb (String.eqb (ToLower (BACKSLASH ++ a))) systemFlags
                then (Ok (BACKSLASH ++ a), p1)
                else (Panic (PanicSyntax
                               (mkSyntaxError "" "" "unknown system flag %s")),
                      p1))
        /\ (forall e p1, xatom (set_o p (o p + 1)) = (Panic e, p1) ->
              xflag p = (Panic e, p1)))
    /\ xflag (on_line (BACKSLASH ++ "Foo"))
         = (Panic (PanicSyntax (mkSyntaxError "" "" "unknown system flag %s")),
            set_o (on_line (BACKSLASH ++ "Foo")) 4)
    /\ xflag (on_line (BACKSLASH ++ "Seen"))
         = (Ok (BACKSLASH ++ "Seen"), set_o (on_line (BACKSLASH ++ "Seen")) 5)
    /\ xflag (on_line (BACKSLASH ++ "seen"))
         = (Ok (BACKSLASH ++ "seen"), set_o (on_line (BACKSLASH ++ "seen")) 5)
    /\ xflag (on_line (BACKSLASH ++ "SEEN"))
         = (Ok (BACKSLASH ++ "SEEN"), set_o (on_line (BACKSLASH ++ "SEEN")) 5)
    /\ ToLower (BACKSLASH ++ "Seen") = BACKSLASH ++ "seen"
    /\ ToLower (BACKSLASH ++ "SEEN") = BACKSLASH ++ "seen".
Proof.
  intros p. split; [|split; [|repeat split]].
  - intros a rest. apply xflag_on.
  - intros H. rewrite (xflag_backslash p H). split.
    + intros a p1 Ha. split.
      * apply xtakechars_Ok in Ha. simpl in Ha. exact (proj1 Ha).
      * rewrite (bind_Ok _ _ _ _ _ Ha).
        destruct (existsb _ systemFlags); reflexivity.
    + intros e p1 Ha. now rewrite (bind_Panic _ _ _ _ _ Ha).
Qed.

Lemma xflag_system_flags_witness :
  xflag (set_o (on_line ("(" ++ BACKSLASH ++ "Deleted " ++ BACKSLASH
                         ++ "gone)")) 1)
    = (Ok (BACKSLASH ++ "Deleted"),
       set_o (on_line ("(" ++ BACKSLASH ++ "Deleted " ++ BACKSLASH
                       ++ "gone)")) 9)
  /\ xflag (set_o (on_line ("(" ++ BACKSLASH ++ "Deleted " ++ BACKSLASH
                            ++ "gone)")) 10)
       = (Panic (PanicSyntax (mkSyntaxError "" "" "unknown system flag %s")),
          set_o (on_line ("(" ++ BACKSLASH ++ "Deleted " ++ BACKSLASH
                          ++ "gone)")) 15).
Proof.
  split.
  - apply (proj1 (xflag_system_flags
             (set_o (on_line ("(" ++ BACKSLASH ++ "Deleted " ++ BACKSLASH
                              ++ "gone)")) 1))
             "Deleted" (" " ++ BACKSLASH ++ "gone)")).
    + split; [split; [reflexivity | simpl; lia] | reflexivity].
    + reflexivity.
    + reflexivity.
    + discriminate.
  - apply (proj1 (proj1 (proj2 (xflag_system_flags
             (set_o (on_line ("(" ++ BACKSLASH ++ "Deleted " ++ BACKSLASH
                              ++ "gone)")) 10))) eq_refl) "gone").
    reflexivity.
Defined.

(** The three spellings of the seen flag are not returned as one value:
    [xflag] returns what the client wrote. *)
Lemma xflag_keeps_spelling :
  ~ (fst (xflag (on_line (BACKSLASH ++ "Seen")))
       = fst (xflag (on_line (BACKSLASH ++ "seen")))
     /\ fst (xflag (on_line (BACKSLASH ++ "seen")))
          = fst (xflag (on_line (BACKSLASH ++ "SEEN")))).
Proof.
  vm_compute. intros [H _]. discriminate H.
Qed.

(** ** Dates *)

Section Dates.

(** The date after the optional opening quote, up to the optional closing
    one: day, dash, month, dash, four-byte year. *)
Lemma xdate_unfold (p : parser) :
  xdate p =
    (d <- xdateDay ;;
     xtake "-" ;;
     mon <- xdateMonth ;;
     xtake "-" ;;
     y <- (t <- xtaken 4 ;; xint t) ;;
     (if fst (take DQUOTE p) then _ <- lift (take DQUOTE) ;; ret tt
      else ret tt) ;;
     ret (Date y mon d 0 0 0 0 UTC)) (snd (take DQUOTE p)).
Proof. unfold xdate. rewrite bind_lift. reflexivity. Qed.

Lemma xdate_Ok (p p' : parser) (t : Time) :
  xdate p = (Ok t, p') ->
  exists q1 q2 q3 q4 q5 y4,
    xdateDay (snd (take DQUOTE p)) = (Ok (day t), q1)
    /\ xtake "-" q1 = (Ok tt, q2)
    /\ xdateMonth q2 = (Ok (month t), q3)
    /\ xtake "-" q3 = (Ok tt, q4)
    /\ xtaken 4 q4 = (Ok y4, q5)
    /\ xint y4 q5 = (Ok (year t), q5)
    /\ p' = (if fst (take DQUOTE p) then snd (take DQUOTE q5) else q5)
    /\ t = Date (year t) (month t) (day t) 0 0 0 0 UTC.
Proof.
  rewrite xdate_unfold. intros H.
  apply bind_Ok_inv in H. destruct H as (d & q1 & Hd & H).
  apply bind_Ok_inv in H. destruct H as ([] & q2 & H2 & H).
  apply bind_Ok_inv in H. destruct H as (mon & q3 & Hm & H).
  apply bind_Ok_inv in H. destruct H as ([] & q4 & H4 & H).
  apply bind_Ok_inv in H. destruct H as (y & q5 & Hy & H).
  apply bind_Ok_inv in Hy. destruct Hy as (y4 & q5' & Hy4 & Hy).
  assert (q5' = q5) as ->.
  { unfold xint in Hy. destruct (Strconv.ParseInt y4 32);
      inversion Hy; reflexivity. }
  apply bind_Ok_inv in H. destruct H as ([] & q6 & H6 & H).
  inversion H; subst; clear H. simpl.
  exists q1, q2, q3, q4, q5, y4. repeat split; try assumption.
  destruct (fst (take DQUOTE p)).
  - rewrite bind_lift in H6. inversion H6. reflexivity.
  - inversion H6. reflexivity.
Qed.


Lemma decimal_from_bound (v : string) (acc : Z) :
  all_digits v = true -> (0 <= acc)%Z ->
  (decimal_from acc v < (acc + 1) * 10 ^ Z.of_nat (len v))%Z.
Proof.
  unfold len. revert acc. induction v as [|c t IH]; intros acc Hd Ha.
  - simpl. lia.
  - simpl in Hd. apply andb_true_iff in Hd. destruct Hd as [Hc Ht].
    apply andb_true_iff in Hc. destruct Hc as [H1 H2].
    apply Z.leb_le in H1. apply Z.leb_le in H2.
    cbn [decimal_from String.length].
    specialize (IH (acc * 10 + (byte c - 48))%Z Ht ltac:(lia)).
    rewrite Nat2Z.inj_succ, Z.pow_succ_r by lia.
    assert (0 < 10 ^ Z.of_nat (String.length t))%Z
      by (apply Z.pow_pos_nonneg; lia).
    nia.
Qed.

Lemma xint_digits (v : string) (p : parser) :
  all_digits v = true -> v <> EmptyString -> len v <= 4 ->
  xint v p = (Ok (decimal_value v), p).
Proof.
  intros Hd Hne Hl. unfold xint.
  rewrite (ParseInt_digits v 32) by first [lia | assumption].
  pose proof (decimal_from_bound v 0 Hd ltac:(lia)) as Hb.
  fold (decimal_value v) in Hb.
  assert (10 ^ Z.of_nat (len v) <= 10 ^ 4)%Z
    by (apply Z.pow_le_mono_r; lia).
  change (2 ^ (32 - 1) - 1)%Z with 2147483647%Z.
  change (10 ^ 4)%Z with 10000%Z in *.
  destruct (Z.leb_spec (decimal_value v) 2147483647); [reflexivity | lia].
Qed.

Lemma upper_byte_dquote (c : ascii) :
  Ascii.eqb "034" (upper_byte c) = Ascii.eqb "034" c.
Proof. destruct c as [[] [] [] [] [] [] [] []]; reflexivity. Qed.

Lemma hasPrefix_dquote (p : parser) (v : string) :
  at_cursor p v -> hasPrefix DQUOTE p = HasPrefix v DQUOTE.
Proof.
  intros H. unfold hasPrefix. rewrite (at_upper p v H).
  destruct v as [|c t]; [reflexivity|].
  unfold DQUOTE, toUpper. cbn [HasPrefix map_bytes].
  now rewrite upper_byte_dquote.
Qed.

Lemma digit_not_dquote (c : ascii) (t : string) :
  (48 <=? byte c)%Z && (byte c <=? 57)%Z = true ->
  HasPrefix (String c t) DQUOTE = false.
Proof.
  intros H. unfold DQUOTE. cbn [HasPrefix].
  destruct (Ascii.eqb_spec "034" c) as [<-|]; [|reflexivity].
  discriminate H.
Qed.


Lemma xdateDay_on (p : parser) (d rest : string) :
  at_cursor p (d ++ "-" ++ rest) ->
  all_digits d = true -> (len d = 1 \/ len d = 2) ->
  xdateDay p = (Ok (decimal_value d), set_o p (o p + len d)).
Proof.
  intros H Hd Hl. unfold xdateDay.
  destruct d as [|c1 d']; [simpl in Hl; lia|].
  pose proof Hd as Hd1. cbn [all_digits] in Hd1.
  apply andb_true_iff in Hd1. destruct Hd1 as [Hc1 Hd'].
  assert (xdigit p = (Ok (String c1 EmptyString), set_o p (o p + 1))) as E1.
  { unfold xdigit, bind. rewrite (at_digit p c1 _ H), Hc1. reflexivity. }
  rewrite (bind_Ok _ _ _ _ _ E1).
  pose proof (at_advance p (String c1 EmptyString) (d' ++ "-" ++ rest) H)
    as H1.
  change (len (String c1 EmptyString)) with 1 in H1.
  destruct d' as [|c2 d''].
  - assert (digit (set_o p (o p + 1))
            = (Ok (EmptyString, false), set_o p (o p + 1))) as E2
        by (rewrite (at_digit _ "-" rest H1); reflexivity).
    rewrite (bind_Ok _ _ _ _ _ E2). cbv beta iota.
    rewrite xint_digits; [reflexivity | exact Hd | discriminate |].
    unfold len. simpl. lia.
  - destruct d'' as [|c3 d3]; [|unfold len in Hl; simpl in Hl; lia].
    cbn [all_digits] in Hd'.
    apply andb_true_iff in Hd'. destruct Hd' as [Hc2 _].
    assert (digit (set_o p (o p + 1))
            = (Ok (String c2 EmptyString, true),
               set_o (set_o p (o p + 1)) (o p + 1 + 1))) as E2
        by (rewrite (at_digit _ c2 _ H1), Hc2; reflexivity).
    rewrite (bind_Ok _ _ _ _ _ E2). cbv beta iota.
    change (String c1 EmptyString ++ String c2 EmptyString)
      with (String c1 (String c2 EmptyString)).
    rewrite xint_digits; [|exact Hd | discriminate | unfold len; simpl; lia].
    f_equal. unfold set_o. cbn [orig upper o contexts pconn].
    f_equal. unfold len. simpl. lia.
Qed.

Lemma xdate_on (p : parser) (quoted : bool) (d m y rest : string) (k : Z) :
  at_cursor p ((if quoted then DQUOTE else EmptyString)
               ++ d ++ "-" ++ m ++ "-" ++ y ++ rest) ->
  all_digits d = true -> (len d = 1 \/ len d = 2) ->
  len m = 3 -> month_index 0 months (ToLower m) = Some k ->
  all_digits y = true -> len y = 4 ->
  xdate p
    = (Ok (Date (decimal_value y) k (decimal_value d) 0 0 0 0 UTC),
       set_o p (o p + (if quoted then 1 else 0) + len d + 9
                + (if quoted && HasPrefix rest DQUOTE then 1 else 0))).
Proof.
  intros H Hd Hld Hlm Hk Hy Hly.
  rewrite xdate_unfold.
  set (body := d ++ "-" ++ m ++ "-" ++ y ++ rest) in *.
  assert (take DQUOTE p
          = (quoted, set_o p (o p + (if quoted then 1 else 0)))
          /\ at_cursor (set_o p (o p + (if quoted then 1 else 0))) body)
    as [E0 H0].
  { destruct quoted.
    - split; [exact (at_take p DQUOTE body H)|].
      exact (at_advance p DQUOTE body H).
    - assert (set_o p (o p + 0) = p) as ->
          by (destruct p; unfold set_o; simpl; f_equal; lia).
      split; [|exact H].
      apply (at_take_not p body); [exact H|].
      unfold body. destruct d as [|c1 d']; [unfold len in Hld; simpl in Hld; lia|].
      cbn [all_digits] in Hd. apply andb_true_iff in Hd. destruct Hd as [Hc1 _].
      unfold DQUOTE, toUpper. cbn [append map_bytes HasPrefix].
      rewrite upper_byte_dquote.
      destruct (Ascii.eqb_spec "034" c1) as [<-|]; [discriminate Hc1|].
      reflexivity. }
  rewrite E0. cbn [fst snd].
  set (p0 := set_o p (o p + (if quoted then 1 else 0))) in *.
  (* day *)
  pose proof (xdateDay_on p0 d _ H0 Hd Hld) as E1.
  rewrite (bind_Ok _ _ _ _ _ E1).
  pose proof (at_advance p0 d _ H0) as H1.
  set (p1 := set_o p0 (o p0 + len d)) in *.
  (* dash *)
  pose proof (at_xtake p1 "-" _ H1) as E2. change (toUpper "-") with "-" in E2.
  rewrite (bind_Ok _ _ _ _ _ E2).
  pose proof (at_advance p1 "-" _ H1) as H2.
  set (p2 := set_o p1 (o p1 + len "-")) in *.
  (* month *)
  assert (xdateMonth p2 = (Ok k, set_o p2 (o p2 + len m))) as E3.
  { unfold xdateMonth. pose proof (at_xtaken p2 m _ H2) as Em.
    rewrite Hlm in Em at 1. rewrite (bind_Ok _ _ _ _ _ Em), Hk. reflexivity. }
  rewrite (bind_Ok _ _ _ _ _ E3).
  pose proof (at_advance p2 m _ H2) as H3.
  set (p3 := set_o p2 (o p2 + len m)) in *.
  (* dash *)
  pose proof (at_xtake p3 "-" _ H3) as E4. change (toUpper "-") with "-" in E4.
  rewrite (bind_Ok _ _ _ _ _ E4).
  pose proof (at_advance p3 "-" _ H3) as H4.
  set (p4 := set_o p3 (o p3 + len "-")) in *.
  (* year *)
  assert ((t <- xtaken 4 ;; xint t) p4
          = (Ok (decimal_value y), set_o p4 (o p4 + len y))) as E5.
  { pose proof (at_xtaken p4 y _ H4) as Ey.
    rewrite Hly in Ey at 1. rewrite (bind_Ok _ _ _ _ _ Ey).
    apply xint_digits; [exact Hy | | lia].
    intros ->. discriminate Hly. }
  rewrite (bind_Ok _ _ _ _ _ E5).
  pose proof (at_advance p4 y _ H4) as H5.
  set (p5 := set_o p4 (o p4 + len y)) in *.
  (* closing quote *)
  assert ((if quoted then _ <- lift (take DQUOTE) ;; ret tt else ret tt) p5
          = (Ok tt,
             set_o p5 (o p5 + (if quoted && HasPrefix rest DQUOTE
                               then 1 else 0)))) as E6.
  { assert (set_o p5 (o p5 + 0) = p5) as Hsame
        by (unfold p5, set_o; simpl; f_equal; lia).
    destruct quoted; cbn [andb]; [|now rewrite Hsame].
    rewrite bind_lift. unfold take.
    rewrite (hasPrefix_dquote p5 rest H5).
    destruct (HasPrefix rest DQUOTE); cbn [negb fst snd];
      [reflexivity | now rewrite Hsame]. }
  rewrite (bind_Ok _ _ _ _ _ E6).
  unfold ret. f_equal.
  unfold p5, p4, p3, p2, p1, p0, set_o. cbn [orig upper o contexts pconn].
  change (len "-") with 1. rewrite Hlm, Hly. f_equal. lia.
Qed.


End Dates.

(** C8. [xdate] takes an opening double quote when there is one, and then,
    only in that case, a closing one when there is one, without asking for
    it.  On a day of one or two digits, a dash, a month name in any case, a
    dash and a year of four digits, with or without the quotes, it returns
    [time.Date] of that year, month and day with hour, minute, second and
    nanosecond 0 in UTC.  Started at an opening quote it returns the date it
    returns when started just after that quote, and ends after the closing
    quote if there is one; a panic of the one is the panic of the other. *)
Theorem xdate_optional_quotes :
  forall p : parser,
    (forall (quoted : bool) (d m y rest : string) (k : Z),
       at_cursor p ((if quoted then DQUOTE else EmptyString)
                    ++ d ++ "-" ++ m ++ "-" ++ y ++ rest) ->
       all_digits d = true -> (len d = 1 \/ len d = 2) ->
       len m = 3 -> month_index 0 months (ToLower m) = Some k ->
       all_digits y = true -> len y = 4 ->
       xdate p
         = (Ok (Date (decimal_value y) k (decimal_value d) 0 0 0 0 UTC),
            set_o p (o p + (if quoted then 1 else 0) + len d + 9
                     + (if quoted && HasPrefix rest DQUOTE then 1 else 0))))
    /\ (forall t p', xdate p = (Ok t, p') ->
        t = Date (year t) (month t) (day t) 0 0 0 0 UTC
        /\ exists q1 q2 q3 q4 q5 y4,
             xdateDay (snd (take DQUOTE p)) = (Ok (day t), q1)
             /\ xtake "-" q1 = (Ok tt, q2)
             /\ xdateMonth q2 = (Ok (month t), q3)
             /\ xtake "-" q3 = (Ok tt, q4)
             /\ xtaken 4 q4 = (Ok y4, q5)
             /\ xint y4 q5 = (Ok (year t), q5))
    /\ (hasPrefix DQUOTE p = true ->
        hasPrefix DQUOTE (set_o p (o p + 1)) = false ->
        (forall t q', xdate (set_o p (o p + 1)) = (Ok t, q') ->
           xdate p = (Ok t, snd (take DQUOTE q')))
        /\ (forall e q', xdate (set_o p (o p + 1)) = (Panic e, q') ->
              xdate p = (Panic e, q')))
    /\ (hasPrefix DQUOTE p = false ->
        forall t p', xdate p = (Ok t, p') ->
        exists q5 y4, xtaken 4 q5 = (Ok y4, p')).
Proof.
  intros p. split; [|split; [|split]].
  - intros quoted d m y rest k. apply xdate_on.
  - intros t p' H. apply xdate_Ok in H.
    destruct H as (q1 & q2 & q3 & q4 & q5 & y4 & H1 & H2 & H3 & H4 & H5 & H6
                   & _ & Ht).
    split; [exact Ht|].
    exists q1, q2, q3, q4, q5, y4. repeat split; assumption.
  - intros Hq Hq'. split.
    + intros t q' H.
      pose proof H as H0. apply xdate_Ok in H0.
      destruct H0 as (q1 & q2 & q3 & q4 & q5 & y4 & H1 & H2 & H3 & H4 & H5
                      & H6 & Hp' & Ht).
      rewrite (take_false _ _ Hq') in *. simpl in Hp'. subst q'.
      rewrite xdate_unfold, (take_true _ _ Hq). simpl fst. simpl snd.
      change (len DQUOTE) with 1.
      rewrite (bind_Ok _ _ _ _ _ H1), (bind_Ok _ _ _ _ _ H2),
        (bind_Ok _ _ _ _ _ H3), (bind_Ok _ _ _ _ _ H4).
      assert ((t4 <- xtaken 4 ;; xint t4) q4 = (Ok (year t), q5)) as Hy
          by (rewrite (bind_Ok _ _ _ _ _ H5); exact H6).
      rewrite (bind_Ok _ _ _ _ _ Hy).
      assert ((_ <- lift (take DQUOTE) ;; ret tt) q5
              = (Ok tt, snd (take DQUOTE q5))) as Hc
          by (rewrite bind_lift; reflexivity).
      rewrite (bind_Ok _ _ _ _ _ Hc).
      simpl. now rewrite <- Ht.
    + intros e q' H.
      rewrite xdate_unfold, (take_false _ _ Hq') in H. simpl in H.
      rewrite xdate_unfold, (take_true _ _ Hq). simpl fst. simpl snd.
      change (len DQUOTE) with 1.
      unfold bind in *.
      destruct (xdateDay (set_o p (o p + 1))) as [[d|e1] q1];
        [|exact H].
      destruct (xtake "-" q1) as [[u|e2] q2]; [|exact H].
      destruct (xdateMonth q2) as [[m|e3] q3]; [|exact H].
      destruct (xtake "-" q3) as [[u'|e4] q4]; [|exact H].
      destruct (xtaken 4 q4) as [[y4|e5] q5]; [|exact H].
      destruct (xint y4 q5) as [[y|e6] q6]; [|exact H].
      simpl in H. discriminate H.
  - intros Hq t p' H. apply xdate_Ok in H.
    destruct H as (q1 & q2 & q3 & q4 & q5 & y4 & H1 & H2 & H3 & H4 & H5 & H6
                   & Hp' & Ht).
    rewrite (take_false _ _ Hq) in Hp'. simpl in Hp'. subst p'.
    exists q4, y4. exact H5.
Qed.

Lemma xdate_optional_quotes_witness :
  xdate (on_line "1-Jan-2023 x")
    = (Ok (Date 2023 1 1 0 0 0 0 UTC), set_o (on_line "1-Jan-2023 x") 10)
  /\ xdate (on_line (DQUOTE ++ "09-feb-2024" ++ DQUOTE ++ " x"))
       = (Ok (Date 2024 2 9 0 0 0 0 UTC),
          set_o (on_line (DQUOTE ++ "09-feb-2024" ++ DQUOTE ++ " x")) 13)
  /\ xdate (on_line (DQUOTE ++ "09-feb-2024 x"))
       = (Ok (Date 2024 2 9 0 0 0 0 UTC),
          set_o (on_line (DQUOTE ++ "09-feb-2024 x")) 12).
Proof.
  split; [|split].
  - apply (proj1 (xdate_optional_quotes (on_line "1-Jan-2023 x"))
             false "1" "Jan" "2023" " x" 1%Z);
      first [ reflexivity | now left
            | split; [apply wf_newParser | reflexivity] ].
  - apply (proj1 (xdate_optional_quotes
                    (on_line (DQUOTE ++ "09-feb-2024" ++ DQUOTE ++ " x")))
             true "09" "feb" "2024" (DQUOTE ++ " x") 2%Z);
      first [ reflexivity | now right
            | split; [apply wf_newParser | reflexivity] ].
  - apply (proj1 (proj1 (proj2 (proj2 (xdate_optional_quotes
             (on_line (DQUOTE ++ "09-feb-2024 x")))))
             eq_refl eq_refl)
             (Date 2024 2 9 0 0 0 0 UTC)
             (set_o (on_line (DQUOTE ++ "09-feb-2024 x")) 12)).
    reflexivity.
Defined.

(** ** The loops of the model never run out of turns

    Every loop of the parser is modelled with a bound on its turns taken from
    what is left to read.  The bound is never reached, so the model panics
    only where the parser does. *)

Section Adequacy.

Lemma budget_advances (p p' : parser) : advances p p' -> budget p' <= budget p.
Proof.
  intros (_ & Hu & Hc & _ & Ho). unfold budget, remaining.
  rewrite Hu, Hc. lia.
Qed.

Lemma sound_steady {A} (m : M A) : steady m -> fueled m -> sound m.
Proof.
  intros Hs Hf p Hp. destruct (Hs p Hp) as [W Adv].
  split; [exact W|]. split; [exact (budget_advances _ _ Adv) | apply Hf].
Qed.

Lemma sound_ret {A} (a : A) : sound (ret a).
Proof. apply sound_steady; [apply steady_ret | apply fueled_ret]. Qed.

Lemma sound_xerrorf {A} (f : string) : sound (@xerrorf A f).
Proof. apply sound_steady; [apply steady_xerrorf | apply fueled_xerrorf]. Qed.

Lemma sound_bind {A B} (m : M A) (k : A -> M B) :
  sound m -> (forall a, sound (k a)) -> sound (bind m k).
Proof.
  intros Hm Hk p Hp. unfold bind.
  destruct (Hm p Hp) as (W1 & B1 & F1).
  destruct (m p) as [[a|e] p1]; simpl in *.
  - destruct (Hk a p1 W1) as (W2 & B2 & F2).
    split; [exact W2|]. split; [lia | exact F2].
  - split; [exact W1|]. split; [exact B1|].
    intros E. apply F1. inversion E. reflexivity.
Qed.

Lemma sound_if {A} (b : bool) (m1 m2 : M A) :
  sound m1 -> sound m2 -> sound (if b then m1 else m2).
Proof. destruct b; auto. Qed.

Lemma sound_fun {A} (m : parser -> M A) :
  (forall q, sound (m q)) -> sound (fun p => m p p).
Proof. intros H p Hp. exact (H p p Hp). Qed.

Lemma sound_context {A} (label : string) (m : M A) :
  sound m -> sound (context label m).
Proof.
  intros Hm p Hp. unfold context, defer.
  assert (wf (set_contexts p (contexts p ++ [label]))) as Hq by exact Hp.
  destruct (Hm _ Hq) as (W & Bd & F).
  destruct (m (set_contexts p (contexts p ++ [label]))) as [r p1].
  simpl in *. split; [exact W|]. split; [exact Bd | exact F].
Qed.

Lemma sound_take (w : string) : sound (lift (take w)).
Proof.
  apply sound_steady; [apply steady_lift, take_steady | apply fueled_lift].
Qed.

Lemma sound_xtake (w : string) : sound (xtake w).
Proof. apply sound_steady; [apply xtake_steady | apply xtake_fueled]. Qed.

Lemma sound_hasPrefixM (w : string) : sound (hasPrefixM w).
Proof.
  intros p Hp. unfold hasPrefixM. simpl.
  split; [exact Hp|]. split; [lia | discriminate].
Qed.

(** *** Runs of characters *)

Lemma xnonempty_steady : steady xnonempty.
Proof.
  intros p Hp. unfold xnonempty. destruct (empty p); simpl;
    (split; [exact Hp | apply advances_refl]).
Qed.

Lemma xtaken_steady (n : nat) : steady (xtaken n).
Proof.
  intros p Hp. unfold xtaken.
  destruct (Nat.ltb_spec (len (orig p)) (o p + n)); simpl.
  - split; [exact Hp | apply advances_refl].
  - split; [apply wf_set_o; assumption | apply advances_set_o; lia].
Qed.

Lemma xtake1n_steady (n : nat) (what : string) : steady (xtake1n n what).
Proof.
  unfold xtake1n. apply steady_if; [apply steady_xerrorf | apply xtaken_steady].
Qed.

Lemma xtakeall_steady : steady xtakeall.
Proof.
  intros p Hp. unfold xtakeall. simpl. destruct Hp as [Hu Ho].
  split; [split; assumption || simpl; lia | apply advances_set_o; exact Ho].
Qed.

Lemma xtakechars_steady (cs what : string) : steady (xtakechars cs what).
Proof.
  unfold xtakechars. apply steady_bind; [apply xnonempty_steady|].
  intros _ p Hp.
  destruct (first_outside cs (Utf8.range (from (o p) (orig p)))).
  - apply xtake1n_steady; exact Hp.
  - apply xtakeall_steady; exact Hp.
Qed.

Lemma xtakechars_fueled (cs what : string) : fueled (xtakechars cs what).
Proof.
  intros p. unfold xtakechars, bind, xnonempty.
  destruct (empty p); simpl; [discriminate|].
  destruct (first_outside cs (Utf8.range (from (o p) (orig p)))).
  - unfold xtake1n, xtaken.
    destruct (n =? 0)%nat; simpl; [discriminate|].
    destruct (len (orig p) <? o p + n)%nat; simpl; discriminate.
  - simpl. discriminate.
Qed.

(** *** Quoted strings *)

Lemma range_from_index (v : string) :
  forall (k j i : nat) (c : Z),
    In (i, c) (Utf8.range_from k j v) -> j <= i < j + len v.
Proof.
  unfold len. induction v as [|b t IH]; intros k j i c H;
    [contradiction|].
  destruct k as [|k]; cbn [Utf8.range_from] in H.
  - destruct (Utf8.DecodeRuneInString (String b t)) as [r w].
    destruct H as [H|H].
    + inversion H; subst. simpl. lia.
    + apply IH in H. simpl. lia.
  - apply IH in H. simpl. lia.
Qed.

Lemma xstring_loop_steady (rs : list (nat * Z)) :
  forall (esc : bool) (r : string) (p : parser),
    wf p ->
    (forall i c, In (i, c) rs -> o p + (i + 1) <= len (orig p)) ->
    wf (snd (xstring_loop rs esc r p))
    /\ advances p (snd (xstring_loop rs esc r p))
    /\ fst (xstring_loop rs esc r p) <> Panic OutOfFuel.
Proof.
  induction rs as [|[i c] rs IH]; intros esc r p Hp Hin; simpl.
  - split; [exact Hp|]. split; [apply advances_refl | discriminate].
  - assert (forall i' c', In (i', c') rs -> o p + (i' + 1) <= len (orig p))
      as Hin' by (intros i' c' H; apply (Hin i' c'); now right).
    destruct (c =? 92)%Z; [apply IH; assumption|]. cbn [orb].
    destruct ((c =? 0)%Z || (c =? 13)%Z || (c =? 10)%Z).
    { simpl. split; [exact Hp|]. split; [apply advances_refl | discriminate]. }
    destruct esc.
    + destruct (c =? 34)%Z; [apply IH; assumption|].
      simpl. split; [exact Hp|]. split; [apply advances_refl | discriminate].
    + destruct (c =? 34)%Z; [|apply IH; assumption].
      simpl. specialize (Hin i c (or_introl eq_refl)).
      split; [apply wf_set_o; assumption|].
      split; [apply advances_set_o; lia | discriminate].
Qed.

(** *** Literals and the transport *)

Lemma digits_steady (p : parser) :
  wf p -> wf (snd (digits p)) /\ advances p (snd (digits p)).
Proof.
  intros Hp. rewrite digits_run. pose proof (digit_run_room p Hp).
  destruct (String.eqb _ _); simpl.
  - split; [exact Hp | apply advances_refl].
  - split; [apply wf_set_o; assumption | apply advances_set_o; lia].
Qed.

Lemma xnumber64_steady : steady xnumber64.
Proof.
  unfold xnumber64. apply steady_bind; [apply steady_lift, digits_steady|].
  intros ds. apply steady_bind.
  - apply steady_if; [apply steady_xerrorf | apply steady_ret].
  - intros _. destruct (Strconv.ParseInt ds 64);
      [apply steady_ret | apply steady_xerrorf].
Qed.

Lemma xnumber64_fueled : fueled xnumber64.
Proof.
  unfold xnumber64. apply fueled_bind; [apply fueled_lift|].
  intros ds. apply fueled_bind.
  - apply fueled_if; [apply fueled_xerrorf | apply fueled_ret].
  - intros _. destruct (Strconv.ParseInt ds 64);
      [apply fueled_ret | apply fueled_xerrorf].
Qed.

Lemma xliteralSize_steady (maxSize : Z) (lit8 : bool) :
  steady (xliteralSize maxSize lit8).
Proof.
  unfold xliteralSize.
  repeat first
    [ apply steady_ret | apply steady_raise | apply xtake_steady
    | apply xnumber64_steady | apply xempty_steady
    | apply steady_lift, take_steady
    | apply steady_bind | apply steady_if | intros ? ].
Qed.

Lemma xliteralSize_fueled (maxSize : Z) (lit8 : bool) :
  fueled (xliteralSize maxSize lit8).
Proof.
  unfold xliteralSize.
  assert (fueled xempty) as He
      by (intros p; unfold xempty; destruct (negb (empty p));
          simpl; discriminate).
  assert (forall e, e <> OutOfFuel -> fueled (@raise unit e)) as Hr
      by (intros e H p; simpl; intros E; inversion E; contradiction).
  repeat first
    [ apply fueled_ret | apply xtake_fueled | apply xnumber64_fueled
    | exact He | apply fueled_lift | apply Hr; discriminate
    | apply fueled_bind | apply fueled_if | intros ? ].
Qed.

Lemma split_crlf_len (v l r : string) :
  split_crlf v = Some (l, r) -> len l + 2 + len r = len v.
Proof.
  unfold len. revert l. induction v as [|c t IH]; intros l H;
    [discriminate|].
  cbn [split_crlf] in H.
  destruct (Ascii.eqb c "013" && HasPrefix t (String "010" EmptyString)) eqn:E.
  - inversion H; subst. apply andb_true_iff in E. destruct E as [_ E].
    destruct t as [|d t']; [discriminate|]. simpl. lia.
  - destruct (split_crlf t) as [[l' r']|]; [|discriminate].
    inversion H; subst. specialize (IH l' eq_refl). simpl. lia.
Qed.

(** [xstring]: the quoted form moves along the line; the literal form takes
    its octets and the next line off the wire. *)
Lemma xstring_sound : sound xstring.
Proof.
  intros p Hp. unfold xstring. rewrite bind_lift.
  unfold take. destruct (hasPrefix DQUOTE p) eqn:Eq; simpl.
  - pose proof (hasPrefix_room _ _ Hp Eq) as Hroom.
    change (len DQUOTE) with 1 in Hroom.
    assert (wf (set_o p (o p + 1))) as Hq by (apply wf_set_o; assumption).
    destruct (xstring_loop_steady
                (Utf8.range (from (o p + 1) (orig p))) false EmptyString
                (set_o p (o p + 1)) Hq) as (W & Adv & F).
    { intros i c Hin. apply range_from_index in Hin.
      rewrite len_from in Hin. simpl. lia. }
    split; [exact W|]. split; [|exact F].
    apply budget_advances.
    apply (advances_trans _ (set_o p (o p + 1))); [|exact Adv].
    apply advances_set_o. lia.
  - change (100 * 1024)%Z with 102400%Z.
    destruct (xliteralSize_steady 102400 false p Hp) as [W Adv].
    pose proof (xliteralSize_fueled 102400 false p) as F.
    pose proof (budget_advances _ _ Adv) as Bd.
    destruct (xliteralSize 102400 false p) as [[[size sync]|e] p1] eqn:El;
      simpl in W, Adv, F, Bd.
    + rewrite (bind_Ok _ _ _ _ _ El). cbv beta iota.
      destruct (xreadliteral size sync p1) as [[lit|e] p2] eqn:Er.
      * rewrite (bind_Ok _ _ _ _ _ Er).
        unfold xreadliteral in Er.
        destruct (Z.to_nat size <=? len (wire (pconn p1)))%nat; [|discriminate].
        inversion Er; subst lit p2; clear Er.
        unfold bind, readline. simpl pconn. simpl wire.
        destruct (split_crlf (from (Z.to_nat size) (wire (pconn p1))))
          as [[l r]|] eqn:Es; simpl.
        -- apply split_crlf_len in Es. rewrite len_from in Es.
           split; [split; [reflexivity | simpl; lia]|].
           split; [|discriminate].
           unfold budget, remaining in *. simpl.
           unfold toUpper. rewrite len_map_bytes. lia.
        -- split; [exact W|]. split; [|discriminate].
           unfold budget, remaining in *. simpl. lia.
      * rewrite (bind_Panic _ _ _ _ _ Er).
        unfold xreadliteral in Er.
        destruct (Z.to_nat size <=? len (wire (pconn p1)))%nat; [discriminate|].
        inversion Er; subst; clear Er. simpl.
        split; [exact W|]. split; [|discriminate].
        unfold budget, remaining in *. simpl. lia.
    + rewrite (bind_Panic _ _ _ _ _ El). simpl.
      split; [exact W|]. split; [exact Bd|].
      intros E. apply F. inversion E. reflexivity.
Qed.

Lemma xastring_sound : sound xastring.
Proof.
  intros p Hp. unfold xastring.
  destruct (hasPrefix DQUOTE p || hasPrefix "{" p || hasPrefix "~{" p).
  - apply xstring_sound. exact Hp.
  - apply (sound_steady _ (xtakechars_steady _ _) (xtakechars_fueled _ _)).
    exact Hp.
Qed.

Lemma xspace_Ok (p p1 : parser) :
  wf p -> xspace p = (Ok tt, p1) -> wf p1 /\ budget p1 + 1 <= budget p.
Proof.
  intros Hp. unfold xspace, space. rewrite bind_lift. unfold take.
  destruct (hasPrefix " " p) eqn:E; simpl; [|discriminate].
  intros H. inversion H; subst; clear H.
  pose proof (hasPrefix_room _ _ Hp E) as Hroom.
  change (len " ") with 1 in *.
  split; [apply wf_set_o; assumption|].
  unfold budget, remaining. simpl. rewrite (wf_len_upper p Hp). lia.
Qed.

Lemma xspace_sound : sound xspace.
Proof.
  apply sound_steady.
  - unfold xspace. apply steady_bind; [apply steady_lift, take_steady|].
    intros b. apply steady_if; [apply steady_xerrorf | apply steady_ret].
  - unfold xspace. apply fueled_bind; [apply fueled_lift|].
    intros b. apply fueled_if; [apply fueled_xerrorf | apply fueled_ret].
Qed.

(** *** The loops *)

Variable canon : string -> string.

Lemma sound_xnznumber : sound xnznumber.
Proof. apply sound_steady; [apply xnznumber_steady | apply xnznumber_fueled]. Qed.

Lemma sound_xnumber : sound xnumber.
Proof. apply sound_steady; [apply xnumber_steady | apply xnumber_fueled]. Qed.

Lemma sound_xtakelist (l : list string) : sound (xtakelist l).
Proof.
  apply sound_steady.
  - unfold xtakelist. apply steady_bind; [apply steady_lift, takelist_steady|].
    intros [w b]. apply steady_if; [apply steady_xerrorf | apply steady_ret].
  - unfold xtakelist. apply fueled_bind; [apply fueled_lift|].
    intros [w b]. apply fueled_if; [apply fueled_xerrorf | apply fueled_ret].
Qed.

Lemma take_remaining (w : string) (p : parser) :
  wf p -> fst (take w p) = true ->
  wf (snd (take w p)) /\ remaining (snd (take w p)) + len w <= remaining p
  /\ budget (snd (take w p)) + len w <= budget p.
Proof.
  intros Hp. unfold take. destruct (hasPrefix w p) eqn:E; simpl;
    [|discriminate].
  intros _. pose proof (hasPrefix_room _ _ Hp E) as Hroom.
  split; [apply wf_set_o; assumption|].
  unfold budget, remaining. simpl. rewrite (wf_len_upper p Hp). lia.
Qed.

Lemma xsectionMsgtext_loop_sound (fuel : nat) :
  forall (hs : list string) (p : parser),
    wf p -> budget p <= fuel ->
    wf (snd (xsectionMsgtext_loop canon fuel hs p))
    /\ budget (snd (xsectionMsgtext_loop canon fuel hs p)) <= budget p
    /\ fst (xsectionMsgtext_loop canon fuel hs p) <> Panic OutOfFuel.
Proof.
  induction fuel as [|f IH]; intros hs p Hp Hf; simpl;
    rewrite bind_lift;
    destruct (take_steady ")" p Hp) as [W0 A0];
    pose proof (budget_advances _ _ A0) as B0;
    destruct (take ")" p) as [ok p0]; simpl in *;
    (destruct ok; simpl;
     [split; [exact W0|]; split; [exact B0 | discriminate]|]).
  - destruct (xspace p0) as [[[]|e] p1] eqn:E1.
    + apply (xspace_Ok _ _ W0) in E1. lia.
    + rewrite (bind_Panic _ _ _ _ _ E1). simpl.
      pose proof (xspace_sound p0 W0) as (W1 & B1 & F1).
      rewrite E1 in *. simpl in *.
      split; [exact W1|]. split; [lia|].
      intros E. apply F1. inversion E. reflexivity.
  - destruct (xspace p0) as [[[]|e] p1] eqn:E1.
    + rewrite (bind_Ok _ _ _ _ _ E1).
      apply (xspace_Ok _ _ W0) in E1. destruct E1 as [W1 B1].
      pose proof (xastring_sound p1 W1) as (W2 & B2 & F2).
      destruct (xastring p1) as [[a|e] p2] eqn:E2; simpl in *.
      * rewrite (bind_Ok _ _ _ _ _ E2).
        destruct (IH (hs ++ [canon a])%list p2 W2) as (W3 & B3 & F3); [lia|].
        split; [exact W3|]. split; [lia | exact F3].
      * rewrite (bind_Panic _ _ _ _ _ E2). simpl.
        split; [exact W2|]. split; [lia|].
        intros E. apply F2. inversion E. reflexivity.
    + rewrite (bind_Panic _ _ _ _ _ E1). simpl.
      pose proof (xspace_sound p0 W0) as (W1 & B1 & F1).
      rewrite E1 in *. simpl in *.
      split; [exact W1|]. split; [lia|].
      intros E. apply F1. inversion E. reflexivity.
Qed.

Lemma xsectionMsgtext_sound : sound (xsectionMsgtext canon).
Proof.
  unfold xsectionMsgtext. apply sound_context.
  apply sound_bind; [apply sound_xtakelist|]. intros w.
  apply sound_if; [|apply sound_ret].
  apply sound_bind; [apply xspace_sound|]. intros _.
  apply sound_bind; [apply sound_xtake|]. intros _.
  apply sound_bind; [apply xastring_sound|]. intros a.
  intros p Hp.
  destruct (xsectionMsgtext_loop_sound (budget p) [canon a] p Hp (le_n _))
    as (W & Bd & F).
  unfold bind.
  destruct (xsectionMsgtext_loop canon (budget p) [canon a] p) as [[hs|e] p1];
    simpl in *.
  - split; [exact W|]. split; [exact Bd | discriminate].
  - split; [exact W|]. split; [exact Bd|].
    intros E. apply F. inversion E. reflexivity.
Qed.

Lemma xsectionSpec_loop_sound (fuel : nat) :
  forall (pt : list Z) (p : parser),
    wf p -> remaining p <= fuel ->
    wf (snd (xsectionSpec_loop canon fuel pt p))
    /\ budget (snd (xsectionSpec_loop canon fuel pt p)) <= budget p
    /\ fst (xsectionSpec_loop canon fuel pt p) <> Panic OutOfFuel.
Proof.
  assert (forall pt p,
            wf p ->
            sound (ok <- lift (take "MIME") ;;
                   if ok
                   then ret (mkSectionPart pt
                               (Some (mkSectionText true None)))
                   else
                     m <- xsectionMsgtext canon ;;
                     ret (mkSectionPart pt
                            (Some (mkSectionText false (Some m)))))) as Htail.
  { intros pt p _. apply sound_bind; [apply sound_take|].
    intros b. apply sound_if; [apply sound_ret|].
    apply sound_bind; [apply xsectionMsgtext_sound|].
    intros m. apply sound_ret. }
  induction fuel as [|f IH]; intros pt p Hp Hf; simpl;
    rewrite bind_lift;
    pose proof (take_remaining "." p Hp) as Ht;
    destruct (take_steady "." p Hp) as [W0 A0];
    pose proof (budget_advances _ _ A0) as B0;
    destruct (take "." p) as [ok p0]; simpl in *;
    (destruct ok; simpl;
     [|split; [exact W0|]; split; [exact B0 | discriminate]]);
    destruct (Ht eq_refl) as (_ & R0 & _); change (len ".") with 1 in R0;
    rewrite bind_lift;
    destruct (nznumber_steady p0 W0) as [W1 A1];
    pose proof (budget_advances _ _ A1) as B1;
    destruct (nznumber p0) as [[n ok] p1]; simpl in *;
    destruct ok.
  - lia.
  - destruct (Htail pt p1 W1 p1 W1) as (W2 & B2 & F2).
    split; [exact W2|]. split; [lia | exact F2].
  - destruct A1 as (_ & Hu & _ & _ & Ho).
    destruct (IH (pt ++ [n])%list p1 W1) as (W2 & B2 & F2).
    + unfold remaining in *. rewrite Hu. lia.
    + split; [exact W2|]. split; [lia | exact F2].
  - destruct (Htail pt p1 W1 p1 W1) as (W2 & B2 & F2).
    split; [exact W2|]. split; [lia | exact F2].
Qed.

Lemma sound_loop_result {A B} (m : M A) (k : A -> B) (p : parser) :
  wf (snd (m p)) /\ budget (snd (m p)) <= budget p
  /\ fst (m p) <> Panic OutOfFuel ->
  wf (snd ((a <- m ;; ret (k a)) p))
  /\ budget (snd ((a <- m ;; ret (k a)) p)) <= budget p
  /\ fst ((a <- m ;; ret (k a)) p) <> Panic OutOfFuel.
Proof.
  intros (W & Bd & F). unfold bind.
  destruct (m p) as [[a|e] p1]; simpl in *.
  - split; [exact W|]. split; [exact Bd | discriminate].
  - split; [exact W|]. split; [exact Bd|].
    intros E. apply F. inversion E. reflexivity.
Qed.

Lemma xsectionSpec_sound : sound (xsectionSpec canon).
Proof.
  unfold xsectionSpec. apply sound_context.
  apply sound_bind.
  - apply sound_steady; [apply steady_lift, nznumber_steady | apply fueled_lift].
  - intros [n ok]. apply sound_if.
    + apply sound_bind; [apply xsectionMsgtext_sound|].
      intros m. apply sound_ret.
    + apply sound_context. intros p Hp.
      apply (sound_loop_result
               (xsectionSpec_loop canon (remaining p) [n])
               (fun pt => mkSectionSpec None (Some pt))).
      apply xsectionSpec_loop_sound; [exact Hp | apply le_n].
Qed.

Lemma xsection_sound : sound (xsection canon).
Proof.
  unfold xsection. apply sound_context.
  apply sound_bind; [apply sound_xtake|]. intros _.
  apply sound_bind; [apply sound_take|]. intros b.
  apply sound_if; [apply sound_ret|].
  apply sound_bind; [apply xsectionSpec_sound|]. intros r.
  apply sound_bind; [apply sound_xtake|]. intros _. apply sound_ret.
Qed.

Lemma xpartial_sound : sound xpartial.
Proof.
  unfold xpartial.
  repeat first
    [ apply sound_ret | apply sound_xtake | apply sound_xnumber
    | apply sound_xnznumber | apply sound_bind | intros ? ].
Qed.

Lemma xsectionBinary_loop_sound (fuel : nat) :
  forall (r : list Z) (p : parser),
    wf p -> remaining p <= fuel ->
    wf (snd (xsectionBinary_loop fuel r p))
    /\ budget (snd (xsectionBinary_loop fuel r p)) <= budget p
    /\ fst (xsectionBinary_loop fuel r p) <> Panic OutOfFuel.
Proof.
  induction fuel as [|f IH]; intros r p Hp Hf; simpl;
    rewrite bind_lift;
    pose proof (take_remaining "." p Hp) as Ht;
    destruct (take_steady "." p Hp) as [W0 A0];
    pose proof (budget_advances _ _ A0) as B0;
    destruct (take "." p) as [ok p0]; simpl in *;
    (destruct ok; simpl;
     [|split; [exact W0|]; split; [exact B0 | discriminate]]);
    destruct (Ht eq_refl) as (_ & R0 & _); change (len ".") with 1 in R0.
  - lia.
  - pose proof (xnznumber_steady p0 W0) as [W1 A1].
    pose proof (budget_advances _ _ A1) as B1.
    pose proof (xnznumber_fueled p0) as F1.
    unfold bind.
    destruct (xnznumber p0) as [[n|e] p1]; simpl in *.
    + destruct A1 as (_ & Hu & _ & _ & Ho).
      destruct (IH (r ++ [n])%list p1 W1) as (W2 & B2 & F2).
      * unfold remaining in *. rewrite Hu. lia.
      * split; [exact W2|]. split; [lia | exact F2].
    + split; [exact W1|]. split; [lia|].
      intros E. apply F1. inversion E. reflexivity.
Qed.

Lemma xsectionBinary_sound : sound xsectionBinary.
Proof.
  unfold xsectionBinary.
  apply sound_bind; [apply sound_xtake|]. intros _.
  apply sound_bind; [apply sound_take|]. intros b.
  apply sound_if; [apply sound_ret|].
  apply sound_bind; [apply sound_xnznumber|]. intros n.
  apply sound_bind.
  - intros p Hp. apply xsectionBinary_loop_sound; [exact Hp | apply le_n].
  - intros r. apply sound_bind; [apply sound_xtake|]. intros _.
    apply sound_ret.
Qed.

Lemma xfetchAtt_sound : sound (xfetchAtt canon).
Proof.
  unfold xfetchAtt. apply sound_context.
  apply sound_bind; [apply sound_xtakelist|]. intros f.
  repeat first
    [ apply sound_ret | apply sound_hasPrefixM | apply xsection_sound
    | apply xpartial_sound | apply xsectionBinary_sound
    | apply sound_bind | apply sound_if | intros ? ].
Qed.

Lemma xnumSet_sound : sound xnumSet.
Proof.
  intros p Hp. destruct (xnumSet_steady p Hp) as [W Adv].
  split; [exact W|]. split; [exact (budget_advances _ _ Adv)|].
  unfold xnumSet, context, defer.
  set (q := set_contexts p (contexts p ++ ["numSet"])).
  assert (wf q) as Hq by exact Hp.
  match goal with
  | |- fst (let (r, p') := ?m q in _) <> _ =>
    assert (fst (m q) <> Panic OutOfFuel) as F;
      [|destruct (m q); exact F]
  end.
  rewrite bind_lift.
  destruct (take_steady "$" q Hq) as [W0 _].
  destruct (take "$" q) as [ok q0]; simpl in *.
  destruct ok; [discriminate|].
  destruct (xnumRange_steady q0 W0) as [W1 _].
  pose proof (xnumRange_fueled q0) as F1.
  unfold bind.
  destruct (xnumRange q0) as [[r|e] q1]; simpl in *.
  - pose proof (xnumSet_loop_fuel (remaining q1) [r] q1 W1 (le_n _)) as F2.
    destruct (xnumSet_loop (remaining q1) [r] q1) as [[l|e] q2]; simpl in *.
    + discriminate.
    + intros E. apply F2. inversion E. reflexivity.
  - intros E. apply F1. inversion E. reflexivity.
Qed.

Lemma xtaggedExtSimple_loop_sound (fuel : nat) :
  forall p : parser,
    wf p -> remaining p <= fuel ->
    wf (snd (xtaggedExtSimple_loop fuel p))
    /\ budget (snd (xtaggedExtSimple_loop fuel p)) <= budget p
    /\ fst (xtaggedExtSimple_loop fuel p) <> Panic OutOfFuel.
Proof.
  induction fuel as [|f IH]; intros p Hp Hf; simpl;
    rewrite bind_lift;
    pose proof (take_remaining "," p Hp) as Ht;
    destruct (take_steady "," p Hp) as [W0 A0];
    pose proof (budget_advances _ _ A0) as B0;
    destruct (take "," p) as [ok p0]; simpl in *;
    (destruct ok; simpl;
     [|split; [exact W0|]; split; [exact B0 | discriminate]]);
    destruct (Ht eq_refl) as (_ & R0 & _); change (len ",") with 1 in R0.
  - lia.
  - pose proof (xnumRange_steady p0 W0) as [W1 A1].
    pose proof (budget_advances _ _ A1) as B1.
    pose proof (xnumRange_fueled p0) as F1.
    unfold bind.
    destruct (xnumRange p0) as [[n|e] p1]; simpl in *.
    + destruct A1 as (_ & Hu & _ & _ & Ho).
      destruct (IH p1 W1) as (W2 & B2 & F2).
      * unfold remaining in *. rewrite Hu. lia.
      * split; [exact W2|]. split; [lia | exact F2].
    + split; [exact W1|]. split; [lia|].
      intros E. apply F1. inversion E. reflexivity.
Qed.

Lemma xtaggedExtSimple_sound : sound xtaggedExtSimple.
Proof.
  unfold xtaggedExtSimple.
  apply sound_bind.
  { apply sound_steady; [apply steady_lift, digits_steady | apply fueled_lift]. }
  intros ds. apply sound_bind.
  { apply sound_if; [|apply sound_ret].
    apply sound_bind; [apply xnumSet_sound|]. intros _. apply sound_ret. }
  intros _. destruct (Strconv.ParseInt ds 64); [|apply sound_xerrorf].
  apply sound_bind; [apply sound_take|]. intros b.
  apply sound_bind.
  { apply sound_if; [|apply sound_ret].
    apply sound_bind; [apply sound_take|]. intros b'.
    apply sound_if; [|apply sound_ret].
    apply sound_bind; [apply sound_xnznumber|]. intros _. apply sound_ret. }
  intros _ p Hp. apply xtaggedExtSimple_loop_sound; [exact Hp | apply le_n].
Qed.

End Adequacy.

(** On every parser in order, the methods with loops panic only with what
    the code panics with: the bound on the turns is never what stops them. *)
Corollary loops_never_run_out (canon : string -> string) (p : parser) :
  wf p ->
  fst (xstring p) <> Panic OutOfFuel
  /\ fst (xnumSet p) <> Panic OutOfFuel
  /\ fst (xfetchAtt canon p) <> Panic OutOfFuel
  /\ fst (xtaggedExtSimple p) <> Panic OutOfFuel.
Proof.
  intros Hp. repeat split.
  - apply (xstring_sound p Hp).
  - apply (xnumSet_sound p Hp).
  - apply (xfetchAtt_sound canon p Hp).
  - apply (xtaggedExtSimple_sound p Hp).
Qed.

(** * Further properties of the parser *)

(** ** Numbers *)



(** ** Character classes *)

Section CharClasses.

Lemma has_byte_app (a b : string) (x : Z) :
  has_byte (a ++ b) x = has_byte a x || has_byte b x.
Proof.
  induction a as [|c t IH]; simpl; [reflexivity|].
  now rewrite IH, orb_assoc.
Qed.

Lemma all_low_app (a b : string) :
  all_low (a ++ b) = all_low a && all_low b.
Proof.
  induction a as [|c t IH]; simpl; [reflexivity|].
  now rewrite IH, andb_assoc.
Qed.

(** On a string of bytes below 0x80 the runes are the bytes. *)
Lemma range_low (v : string) :
  all_low v = true ->
  forall i, map snd (Utf8.range_from 0 i v) = map byte (list_ascii_of_string v).
Proof.
  induction v as [|c t IH]; intros Hv i; [reflexivity|].
  simpl in Hv. apply andb_true_iff in Hv. destruct Hv as [Hc Ht].
  apply Z.ltb_lt in Hc. rewrite (range_from_low c t i Hc).
  simpl. f_equal. now apply IH.
Qed.

Lemma has_byte_bytes (v : string) (x : Z) :
  has_byte v x = existsb (fun b => (b =? x)%Z) (map byte (list_ascii_of_string v)).
Proof.
  induction v as [|c t IH]; simpl; [reflexivity | now rewrite IH].
Qed.

Lemma contains_low (v : string) (x : Z) :
  all_low v = true -> contains v x = has_byte v x.
Proof.
  intros Hv. unfold contains, Utf8.range.
  rewrite has_byte_bytes, <- (range_low v Hv 0).
  induction (Utf8.range_from 0 0 v) as [|[i r] l IH]; simpl;
    [reflexivity | now rewrite IH].
Qed.

Lemma string_of_rune_low (r : Z) :
  (0 <= r < 0x80)%Z ->
  Utf8.string_of_rune r = String (of_byte r) EmptyString.
Proof.
  intros H. unfold Utf8.string_of_rune, Utf8.between.
  destruct (Z.ltb_spec r 0); [lia|].
  destruct (Z.ltb_spec 1114111 r); [lia|].
  destruct (Z.leb_spec 55296 r); [lia|]. simpl.
  destruct (Z.ltb_spec r 128); [reflexivity | lia].
Qed.

Lemma charRange_loop_spec (fuel : nat) :
  forall (c last : Z) (r : string) (x : Z),
    (0 <= c)%Z -> (last <= 127)%Z -> fuel = Z.to_nat (last - c) ->
    all_low r = true ->
    all_low (charRange_loop fuel c last r) = true
    /\ has_byte (charRange_loop fuel c last r) x
       = has_byte r x || ((c <? x)%Z && (x <=? last)%Z).
Proof.
  induction fuel as [|f IH]; intros c last r x Hc Hl Hf Hr; simpl.
  - split; [exact Hr|].
    destruct (Z.ltb_spec c x); destruct (Z.leb_spec x last); simpl;
      try lia; now rewrite orb_false_r.
  - destruct (Z.ltb_spec c last) as [Hlt|Hge]; [|lia].
    destruct (IH (c + 1)%Z last (r ++ Utf8.string_of_rune (c + 1)) x)
      as [Ha Hb]; try lia.
    + rewrite all_low_app, Hr, string_of_rune_low by lia. simpl.
      rewrite byte_of_byte by lia.
      destruct (Z.ltb_spec (c + 1) 128); [reflexivity | lia].
    + split; [exact Ha|]. rewrite Hb, has_byte_app.
      rewrite string_of_rune_low by lia. simpl.
      rewrite byte_of_byte by lia. rewrite <- orb_assoc. f_equal.
      destruct (Z.eqb_spec (c + 1) x); destruct (Z.ltb_spec (c + 1) x);
        destruct (Z.ltb_spec c x); destruct (Z.leb_spec x last);
        simpl; try lia; reflexivity.
Qed.

Lemma charRange_spec (a b x : Z) :
  (0 <= a <= b)%Z -> (b <= 127)%Z ->
  all_low (charRange a b) = true
  /\ has_byte (charRange a b) x = (a <=? x)%Z && (x <=? b)%Z.
Proof.
  intros Hab Hb. unfold charRange.
  destruct (charRange_loop_spec (Z.to_nat (b - a)) a b
              (Utf8.string_of_rune a) x) as [Hl Hh]; try lia.
  - rewrite string_of_rune_low by lia. simpl. rewrite byte_of_byte by lia.
    destruct (Z.ltb_spec a 128); [reflexivity | lia].
  - split; [exact Hl|]. rewrite Hh, string_of_rune_low by lia. simpl.
    rewrite byte_of_byte by lia.
    destruct (Z.eqb_spec a x); destruct (Z.ltb_spec a x);
      destruct (Z.leb_spec a x); destruct (Z.leb_spec x b);
      simpl; try lia; reflexivity.
Qed.

Lemma charRemove_fold (rm : string) (l : list (nat * Z)) :
  Forall (fun ic => (0 <= snd ic < 0x80)%Z) l ->
  forall (acc : string) (x : Z),
    all_low acc = true ->
    all_low (fold_left
               (fun r ic => if contains rm (snd ic) then r
                            else r ++ Utf8.string_of_rune (snd ic)) l acc)
      = true
    /\ has_byte (fold_left
                   (fun r ic => if contains rm (snd ic) then r
                                else r ++ Utf8.string_of_rune (snd ic)) l acc) x
       = has_byte acc x
         || (existsb (fun ic => (snd ic =? x)%Z) l && negb (contains rm x)).
Proof.
  induction 1 as [|[i c] l Hc Hl IH]; intros acc x Hacc; simpl.
  - split; [exact Hacc | now rewrite orb_false_r].
  - simpl in Hc. destruct (contains rm c) eqn:E.
    + destruct (IH acc x Hacc) as [Ha Hb]. split; [exact Ha|].
      rewrite Hb. f_equal.
      destruct (Z.eqb_spec c x) as [->|]; [|reflexivity].
      rewrite E. simpl. now rewrite andb_false_r.
    + assert (all_low (acc ++ Utf8.string_of_rune c) = true) as Hacc'.
      { rewrite all_low_app, Hacc, string_of_rune_low by lia. simpl.
        rewrite byte_of_byte by lia.
        destruct (Z.ltb_spec c 128); [reflexivity | lia]. }
      destruct (IH _ x Hacc') as [Ha Hb]. split; [exact Ha|].
      rewrite Hb, has_byte_app, string_of_rune_low by lia. simpl.
      rewrite byte_of_byte by lia. rewrite orb_false_r, <- orb_assoc. f_equal.
      destruct (Z.eqb_spec c x) as [->|]; [|reflexivity].
      rewrite E. simpl.
      destruct (existsb _ l); reflexivity.
Qed.

Lemma range_low_bounds (v : string) :
  all_low v = true ->
  forall i, Forall (fun ic => (0 <= snd ic < 0x80)%Z) (Utf8.range_from 0 i v).
Proof.
  induction v as [|c t IH]; intros Hv i; [constructor|].
  simpl in Hv. apply andb_true_iff in Hv. destruct Hv as [Hc Ht].
  apply Z.ltb_lt in Hc. rewrite (range_from_low c t i Hc).
  constructor; [simpl; pose proof (byte_range c); lia | now apply IH].
Qed.

Lemma charRemove_spec (v rm : string) (x : Z) :
  all_low v = true ->
  all_low (charRemove v rm) = true
  /\ has_byte (charRemove v rm) x = has_byte v x && negb (contains rm x).
Proof.
  intros Hv. unfold charRemove, Utf8.range.
  destruct (charRemove_fold rm _ (range_low_bounds v Hv 0) EmptyString x
              eq_refl) as [Ha Hb].
  split; [exact Ha|]. rewrite Hb. simpl.
  rewrite <- (contains_low v x Hv). reflexivity.
Qed.

End CharClasses.

(** X3. [charRange first last], for code points below 0x80, holds exactly
    the characters from [first] to [last]; [charRemove s remove], for [s] of
    bytes below 0x80, holds exactly the characters of [s] that are not in
    [remove]. *)
Theorem charRange_charRemove_members :
  forall (first last : Z) (v rm : string) (x : Z),
    (0 <= first <= last)%Z -> (last <= 127)%Z -> all_low v = true ->
    contains (charRange first last) x = (first <=? x)%Z && (x <=? last)%Z
    /\ contains (charRemove v rm) x = contains v x && negb (contains rm x).
Proof.
  intros first last v rm x Hfl Hl Hv. split.
  - destruct (charRange_spec first last x Hfl Hl) as [Ha Hb].
    now rewrite contains_low.
  - destruct (charRemove_spec v rm x Hv) as [Ha Hb].
    now rewrite (contains_low _ x Ha), (contains_low v x Hv).
Qed.

Lemma charRange_charRemove_members_witness :
  contains (charRange 0x01 0x19) 0x19 = true
  /\ contains (charRange 0x01 0x19) 0x1a = false
  /\ contains (charRemove "abc(d" "()") 40 = false
  /\ contains (charRemove "abc(d" "()") 100 = true.
Proof.
  pose proof (charRange_charRemove_members 1 25 "abc(d" "()" 25
                ltac:(lia) ltac:(lia) eq_refl) as [H1 _].
  pose proof (charRange_charRemove_members 1 25 "abc(d" "()" 26
                ltac:(lia) ltac:(lia) eq_refl) as [H2 _].
  pose proof (charRange_charRemove_members 1 25 "abc(d" "()" 40
                ltac:(lia) ltac:(lia) eq_refl) as [_ H3].
  pose proof (charRange_charRemove_members 1 25 "abc(d" "()" 100
                ltac:(lia) ltac:(lia) eq_refl) as [_ H4].
  repeat split; assumption.
Defined.

Section AtomChars.

Lemma contains_outside (cs : string) (lo hi x : Z) :
  forallb (fun ic => (lo <=? snd ic)%Z && (snd ic <=? hi)%Z) (Utf8.range cs)
    = true ->
  (x < lo \/ hi < x)%Z -> contains cs x = false.
Proof.
  intros Hall Hx. unfold contains.
  destruct (existsb (fun ic => (snd ic =? x)%Z) (Utf8.range cs)) eqn:E;
    [|reflexivity].
  apply existsb_exists in E. destruct E as (ic & Hin & Heq).
  rewrite forallb_forall in Hall. specialize (Hall ic Hin).
  apply andb_true_iff in Hall. destruct Hall as [H1 H2].
  apply Z.leb_le in H1. apply Z.leb_le in H2. apply Z.eqb_eq in Heq. lia.
Qed.

(** Two predicates on code points that agree on 0..127 and are false
    elsewhere are equal, the first being membership of a class of
    characters in 0..127. *)
Lemma class_by_table (cs : string) (f : Z -> bool) :
  forallb (fun ic => (0 <=? snd ic)%Z && (snd ic <=? 127)%Z) (Utf8.range cs)
    = true ->
  forallb (fun n => Bool.eqb (contains cs (Z.of_nat n)) (f (Z.of_nat n)))
    (seq 0 128) = true ->
  (forall x, (x < 0 \/ 127 < x)%Z -> f x = false) ->
  forall x, contains cs x = f x.
Proof.
  intros Hcs Htab Hout x.
  destruct (Z.ltb_spec x 0) as [Hneg|Hnn].
  - rewrite (contains_outside cs 0 127 x Hcs) by lia.
    symmetry. apply Hout. lia.
  - destruct (Z.ltb_spec 127 x) as [Hbig|Hin].
    + rewrite (contains_outside cs 0 127 x Hcs) by lia.
      symmetry. apply Hout. lia.
    + rewrite forallb_forall in Htab.
      specialize (Htab (Z.to_nat x)).
      rewrite Z2Nat.id in Htab by lia.
      apply Bool.eqb_prop. apply Htab. apply in_seq. lia.
Qed.

End AtomChars.

(** X4. The atom characters of the parser are the code points 0x1a..0x7f
    other than space, dquote, percent, parentheses, star, backslash, closing
    bracket and opening brace: the control characters the code removes stop
    at 0x19, so 0x1a..0x1f and 0x7f are atom characters.  The astring
    characters are the atom characters and the closing bracket. *)
Theorem atomChar_members :
  forall x : Z,
    contains atomChar x
      = (26 <=? x)%Z && (x <=? 127)%Z && negb (existsb (Z.eqb x) atom_specials)
    /\ contains astringChar x = contains atomChar x || (x =? 93)%Z.
Proof.
  intros x. split.
  - revert x. apply class_by_table; [vm_compute; reflexivity.. |].
    intros x [H|H].
    + destruct (Z.leb_spec 26 x); [lia | reflexivity].
    + destruct (Z.leb_spec x 127); [lia|]. now rewrite andb_false_r.
  - revert x.
    apply (class_by_table astringChar
             (fun x => contains atomChar x || (x =? 93)%Z));
      [vm_compute; reflexivity.. |].
    intros x H.
    rewrite (contains_outside atomChar 0 127 x) by (vm_compute; reflexivity || exact H).
    destruct (Z.eqb_spec x 93); [lia | reflexivity].
Qed.

(** ** Atoms and astrings *)

Section Astrings.

Lemma upper_byte_eqb (d c : ascii) :
  negb ((65 <=? byte d)%Z && (byte d <=? 90)%Z)
  && negb ((97 <=? byte d)%Z && (byte d <=? 122)%Z) = true ->
  Ascii.eqb d (upper_byte c) = Ascii.eqb d c.
Proof.
  intros Hd. apply andb_true_iff in Hd. destruct Hd as [H1 H2].
  apply negb_true_iff in H1. apply negb_true_iff in H2.
  unfold upper_byte.
  destruct ((97 <=? byte c)%Z && (byte c <=? 122)%Z) eqn:Ec; [|reflexivity].
  apply andb_true_iff in Ec. destruct Ec as [Ec1 Ec2].
  apply Z.leb_le in Ec1. apply Z.leb_le in Ec2.
  destruct (Ascii.eqb_spec d (of_byte (byte c - 32))) as [E1|Hne1];
    destruct (Ascii.eqb_spec d c) as [E2|Hne2]; try reflexivity; subst d.
  - rewrite byte_of_byte in H1 by lia.
    destruct (Z.leb_spec 65 (byte c - 32)); destruct (Z.leb_spec (byte c - 32) 90);
      simpl in H1; try lia; discriminate.
  - destruct (Z.leb_spec 97 (byte c)); destruct (Z.leb_spec (byte c) 122);
      simpl in H2; try lia; discriminate.
Qed.

(** A word without letters is matched against the upper-cased view as
    against the original line. *)
Lemma HasPrefix_toUpper (v w : string) :
  no_letters w = true -> HasPrefix (toUpper v) w = HasPrefix v w.
Proof.
  revert v. induction w as [|d w IH]; intros v Hw; [reflexivity|].
  cbn [no_letters] in Hw. apply andb_true_iff in Hw. destruct Hw as [Hd Hw].
  destruct v as [|c v]; [reflexivity|].
  unfold toUpper. cbn [map_bytes HasPrefix].
  rewrite (upper_byte_eqb d c Hd). f_equal. apply IH. exact Hw.
Qed.

Lemma at_hasPrefix (p : parser) (v w : string) :
  at_cursor p v -> no_letters w = true -> hasPrefix w p = HasPrefix v w.
Proof.
  intros H Hw. unfold hasPrefix. rewrite (at_upper p v H).
  now apply HasPrefix_toUpper.
Qed.

Lemma astringChar_ascii : ascii_class astringChar = true.
Proof. vm_compute. reflexivity. Qed.

End Astrings.

(** X5. Where the line at the cursor does not start with a double quote, an
    opening brace or a tilde and a brace, [xastring] returns the longest run
    of astring characters at the cursor, in the spelling of the original
    line, and moves over it; an empty run is a syntax error ("unexpected
    end" at the end of the line).  [xatom] does the same over the atom
    characters. *)
Theorem xastring_longest_run :
  forall (p : parser) (a rest : string),
    at_cursor p (a ++ rest) ->
    (in_class astringChar a = true -> stops astringChar rest = true ->
     HasPrefix (a ++ rest) DQUOTE = false ->
     HasPrefix (a ++ rest) "{" = false ->
     HasPrefix (a ++ rest) "~{" = false ->
     xastring p =
       match a with
       | EmptyString =>
         (Panic (PanicSyntax
                   (mkSyntaxError "" ""
                      (if (len rest =? 0)%nat then "unexpected end"
                       else "expected chars from %s"))), p)
       | _ => (Ok a, set_o p (o p + len a))
       end)
    /\ (in_class atomChar a = true -> stops atomChar rest = true ->
        xatom p =
          match a with
          | EmptyString =>
            (Panic (PanicSyntax
                      (mkSyntaxError "" ""
                         (if (len rest =? 0)%nat then "unexpected end"
                          else "expected chars from %s"))), p)
          | _ => (Ok a, set_o p (o p + len a))
          end).
Proof.
  intros p a rest H. split.
  - intros Ha Hs Hq Hb Htb. unfold xastring.
    rewrite (at_hasPrefix p _ DQUOTE H eq_refl), Hq.
    rewrite (at_hasPrefix p _ "{" H eq_refl), Hb.
    rewrite (at_hasPrefix p _ "~{" H eq_refl), Htb.
    cbn [orb].
    exact (xtakechars_on p astringChar "astring" a rest H
             astringChar_ascii Ha Hs).
  - intros Ha Hs.
    exact (xtakechars_on p atomChar "atom" a rest H atomChar_ascii Ha Hs).
Qed.

Lemma xastring_longest_run_witness :
  xastring (set_o (on_line "a1 login Alice pw]x") 9)
    = (Ok "Alice", set_o (on_line "a1 login Alice pw]x") 14)
  /\ xastring (set_o (on_line "a1 login Alice pw]x") 15)
       = (Ok "pw]x", set_o (on_line "a1 login Alice pw]x") 19)
  /\ xatom (set_o (on_line "a1 login Alice pw]x") 15)
       = (Ok "pw", set_o (on_line "a1 login Alice pw]x") 17).
Proof.
  assert (forall n, n <= 19 -> wf (set_o (on_line "a1 login Alice pw]x") n))
    as Hwf by (intros n Hn; split; [reflexivity | exact Hn]).
  split; [|split].
  - apply (proj1 (xastring_longest_run
                    (set_o (on_line "a1 login Alice pw]x") 9)
                    "Alice" " pw]x"
                    (conj (Hwf 9 ltac:(lia)) eq_refl)));
      reflexivity.
  - apply (proj1 (xastring_longest_run
                    (set_o (on_line "a1 login Alice pw]x") 15)
                    "pw]x" "" (conj (Hwf 15 ltac:(lia)) eq_refl)));
      reflexivity.
  - apply (proj2 (xastring_longest_run
                    (set_o (on_line "a1 login Alice pw]x") 15)
                    "pw" "]x" (conj (Hwf 15 ltac:(lia)) eq_refl)));
      reflexivity.
Defined.

(** ** Quoted strings *)

Section QuotedContent.

Lemma string_of_rune_byte (c : ascii) :
  (byte c < 0x80)%Z -> Utf8.string_of_rune (byte c) = String c EmptyString.
Proof.
  intros H. pose proof (byte_range c).
  rewrite string_of_rune_low by lia. now rewrite of_byte_byte.
Qed.

(** The loop of the quoted branch moves over plain characters and adds them
    as they are. *)
Lemma xstring_loop_plain (a : string) :
  plain a = true ->
  forall (j : nat) (r tail : string) (p : parser),
    xstring_loop (Utf8.range_from 0 j (a ++ tail)) false r p
    = xstring_loop (Utf8.range_from 0 (j + len a) tail) false (r ++ a) p.
Proof.
  induction a as [|c t IH]; intros Ha j r tail p.
  - cbn [append]. rewrite append_nil_r. unfold len. simpl.
    now replace (j + 0) with j by lia.
  - cbn [plain] in Ha. apply andb_true_iff in Ha. destruct Ha as [Hc Ht].
    apply andb_true_iff in Hc. destruct Hc as [Hlow Hsp].
    apply Z.ltb_lt in Hlow. apply negb_true_iff in Hsp.
    repeat (apply orb_false_iff in Hsp; destruct Hsp as [Hsp ?]).
    cbn [append]. rewrite (range_from_low c (t ++ tail) j Hlow).
    cbn [xstring_loop].
    repeat match goal with
           | H : (byte c =? _)%Z = false |- _ => rewrite H; clear H
           end.
    cbn [orb]. rewrite (string_of_rune_byte c Hlow), (IH Ht).
    rewrite append_assoc. cbn [append].
    unfold len. cbn [String.length].
    now replace (S j + String.length t) with (j + S (String.length t)) by lia.
Qed.

(** An escaped dquote adds a dquote. *)
Lemma xstring_loop_escaped_quote (j : nat) (r tail : string) (p : parser) :
  xstring_loop (Utf8.range_from 0 j (BACKSLASH ++ DQUOTE ++ tail)) false r p
  = xstring_loop (Utf8.range_from 0 (j + 2) tail) false (r ++ DQUOTE) p.
Proof.
  unfold BACKSLASH, DQUOTE. cbn [append].
  rewrite range_from_low by (vm_compute; reflexivity).
  rewrite range_from_low by (vm_compute; reflexivity).
  cbn [xstring_loop]. change (byte "092") with 92%Z.
  change (byte "034") with 34%Z. cbn.
  now replace (S (S j)) with (j + 2) by lia.
Qed.

(** The closing dquote ends the string. *)
Lemma xstring_loop_close (j : nat) (r tail : string) (p : parser) :
  xstring_loop (Utf8.range_from 0 j (DQUOTE ++ tail)) false r p
  = (Ok r, set_o p (o p + (j + 1))).
Proof.
  unfold DQUOTE. cbn [append].
  rewrite range_from_low by (vm_compute; reflexivity).
  reflexivity.
Qed.

Lemma xstring_quoted (p : parser) (v : string) :
  at_cursor p (DQUOTE ++ v) ->
  xstring p
  = xstring_loop (Utf8.range_from 0 0 v) false EmptyString
      (set_o p (o p + 1)).
Proof.
  intros H. unfold xstring. rewrite bind_lift.
  pose proof (at_take p DQUOTE v H) as Ht.
  change (toUpper DQUOTE) with DQUOTE in Ht. rewrite Ht. cbn [fst snd].
  change (len DQUOTE) with 1.
  destruct (at_advance p DQUOTE v H) as [_ Hv].
  change (len DQUOTE) with 1 in Hv. simpl in Hv.
  unfold Utf8.range. simpl o. simpl orig. now rewrite Hv.
Qed.

End QuotedContent.

(** X6. A quoted string of plain ASCII characters (no NUL, CR, LF, dquote or
    backslash) is returned as it is written, and the cursor ends after the
    closing dquote; the empty quoted string gives the empty string.  An
    escaped dquote between plain characters gives a dquote. *)
Theorem xstring_quoted_plain :
  forall (p : parser) (a b rest : string),
    plain a = true -> plain b = true ->
    (at_cursor p (DQUOTE ++ a ++ DQUOTE ++ rest) ->
     xstring p = (Ok a, set_o p (o p + len a + 2)))
    /\ (at_cursor p (DQUOTE ++ a ++ BACKSLASH ++ DQUOTE ++ b ++ DQUOTE ++ rest) ->
        xstring p
          = (Ok (a ++ DQUOTE ++ b), set_o p (o p + len a + len b + 4))).
Proof.
  intros p a b rest Ha Hb. split; intros H.
  - rewrite (xstring_quoted p _ H), (xstring_loop_plain a Ha).
    rewrite xstring_loop_close. cbn [append]. f_equal.
    unfold set_o. cbn [orig upper o contexts pconn]. f_equal. lia.
  - rewrite (xstring_quoted p _ H), (xstring_loop_plain a Ha).
    rewrite xstring_loop_escaped_quote, (xstring_loop_plain b Hb).
    rewrite xstring_loop_close. cbn [append].
    rewrite append_assoc. f_equal.
    unfold set_o. cbn [orig upper o contexts pconn]. f_equal. lia.
Qed.

Lemma xstring_quoted_plain_witness :
  xstring (set_o (on_line ("login " ++ DQUOTE ++ "al ice" ++ DQUOTE ++ " x")) 6)
    = (Ok "al ice",
       set_o (on_line ("login " ++ DQUOTE ++ "al ice" ++ DQUOTE ++ " x")) 14)
  /\ xstring (on_line (DQUOTE ++ DQUOTE))
       = (Ok EmptyString, set_o (on_line (DQUOTE ++ DQUOTE)) 2)
  /\ xstring (on_line (DQUOTE ++ "a" ++ BACKSLASH ++ DQUOTE ++ "b" ++ DQUOTE))
       = (Ok ("a" ++ DQUOTE ++ "b"),
          set_o (on_line (DQUOTE ++ "a" ++ BACKSLASH ++ DQUOTE ++ "b"
                          ++ DQUOTE)) 6).
Proof.
  split; [|split].
  - apply (proj1 (xstring_quoted_plain
                    (set_o (on_line ("login " ++ DQUOTE ++ "al ice" ++ DQUOTE
                                     ++ " x")) 6)
                    "al ice" "" " x" eq_refl eq_refl)).
    split; [split; [reflexivity | simpl; lia] | reflexivity].
  - apply (proj1 (xstring_quoted_plain (on_line (DQUOTE ++ DQUOTE))
                    "" "" "" eq_refl eq_refl)).
    split; [apply wf_newParser | reflexivity].
  - apply (proj2 (xstring_quoted_plain
                    (on_line (DQUOTE ++ "a" ++ BACKSLASH ++ DQUOTE ++ "b"
                              ++ DQUOTE))
                    "a" "b" "" eq_refl eq_refl)).
    split; [apply wf_newParser | reflexivity].
Defined.

(** ** Tags and command names *)

Section Tags.

Lemma tag_class (x : Z) : contains (charRemove astringChar "+") x = tag_byte x.
Proof.
  apply (class_by_table (charRemove astringChar "+") tag_byte).
  - vm_compute. reflexivity.
  - vm_compute. reflexivity.
  - intros y Hy. unfold tag_byte.
    rewrite (contains_outside astringChar 0 127 y);
      [reflexivity | vm_compute; reflexivity | exact Hy].
Qed.

Lemma xtag_scan_class (rs : list (nat * Z)) :
  xtag_scan rs = first_outside (charRemove astringChar "+") rs.
Proof.
  induction rs as [|[i c] rs IH]; [reflexivity|].
  cbn [xtag_scan first_outside]. rewrite tag_class, IH. unfold tag_byte.
  destruct (c =? 43)%Z; destruct (contains astringChar c); reflexivity.
Qed.

(** A tag is read as a run of the astring characters less the plus sign. *)
Lemma xtag_xtakechars (p : parser) :
  xtag p = xtakechars (charRemove astringChar "+") "tag" p.
Proof.
  unfold xtag, xtakechars, bind.
  destruct (xnonempty p) as [[[]|e] q]; [|reflexivity].
  now rewrite xtag_scan_class.
Qed.

Lemma in_class_all_bytes (cs : string) (f : Z -> bool) (v : string) :
  (forall x, contains cs x = f x) -> in_class cs v = all_bytes f v.
Proof.
  intros H. induction v as [|c t IH]; [reflexivity|].
  cbn [in_class all_bytes]. now rewrite H, IH.
Qed.

Lemma stops_ends_run (cs : string) (f : Z -> bool) (v : string) :
  (forall x, contains cs x = f x) -> stops cs v = ends_run f v.
Proof. intros H. destruct v; [reflexivity|]. simpl. now rewrite H. Qed.

End Tags.

(** X7. [xtag] returns the longest run at the cursor of astring characters
    other than the plus sign and moves over it; an empty run is an error
    that leaves the cursor in place: "unexpected end" at the end of the
    line, "expected chars from %s" before any other byte. *)
Theorem xtag_longest_run :
  forall (p : parser) (a rest : string),
    at_cursor p (a ++ rest) ->
    all_bytes tag_byte a = true -> ends_run tag_byte rest = true ->
    xtag p =
      match a with
      | EmptyString =>
        (Panic (PanicSyntax
                  (mkSyntaxError "" ""
                     (if (len rest =? 0)%nat then "unexpected end"
                      else "expected chars from %s"))), p)
      | _ => (Ok a, set_o p (o p + len a))
      end.
Proof.
  intros p a rest H Ha Hs. rewrite xtag_xtakechars.
  apply xtakechars_on; [exact H | vm_compute; reflexivity | |].
  - now rewrite (in_class_all_bytes _ tag_byte a tag_class).
  - now rewrite (stops_ends_run _ tag_byte rest tag_class).
Qed.

Lemma xtag_longest_run_witness :
  xtag (on_line "a001 LOGIN") = (Ok "a001", set_o (on_line "a001 LOGIN") 4)
  /\ xtag (on_line "+ idle")
     = (Panic (PanicSyntax (mkSyntaxError "" "" "expected chars from %s")),
        on_line "+ idle").
Proof.
  split.
  - apply (xtag_longest_run (on_line "a001 LOGIN") "a001" " LOGIN");
      [split; [apply wf_newParser | reflexivity] | reflexivity | reflexivity].
  - apply (xtag_longest_run (on_line "+ idle") "" "+ idle");
      [split; [apply wf_newParser | reflexivity] | reflexivity | reflexivity].
Defined.

Section Commands.

Lemma upper_letter (c : ascii) :
  ((65 <=? byte (upper_byte c)) && (byte (upper_byte c) <=? 90))%Z
  = letter (byte c).
Proof. destruct c as [[] [] [] [] [] [] [] []]; reflexivity. Qed.

Lemma upper_space (c : ascii) :
  (byte (upper_byte c) =? 32)%Z = (byte c =? 32)%Z.
Proof. destruct c as [[] [] [] [] [] [] [] []]; reflexivity. Qed.

Lemma len_toUpper (v : string) : len (toUpper v) = len v.
Proof. unfold toUpper. apply len_map_bytes. Qed.

(** The part of the upper-cased line between the cursor and an index. *)
Lemma at_slice_upper (p : parser) (v : string) (j : nat) :
  at_cursor p v -> slice (upper p) (o p) (o p + j) = upto j (toUpper v).
Proof.
  intros H. unfold slice. rewrite (at_upper p v H).
  now replace (o p + j - o p) with j by lia.
Qed.

(** The loop of [xcommand] moves over letters. *)
Lemma xcommand_scan_letters (p : parser) (w : string) :
  all_bytes letter w = true ->
  forall (j : nat) (tail : string),
    xcommand_scan p (Utf8.range_from 0 j (toUpper w ++ tail))
    = xcommand_scan p (Utf8.range_from 0 (j + len w) tail).
Proof.
  induction w as [|c t IH]; intros Hw j tail.
  - unfold len. simpl. now replace (j + 0) with j by lia.
  - cbn [all_bytes] in Hw. apply andb_true_iff in Hw. destruct Hw as [Hc Ht].
    unfold toUpper. cbn [map_bytes append]. fold (toUpper t).
    pose proof (upper_letter c) as Hu. rewrite Hc in Hu.
    assert (byte (upper_byte c) < 0x80)%Z as Hlo.
    { apply andb_true_iff in Hu. destruct Hu as [_ Hu].
      apply Z.leb_le in Hu. lia. }
    rewrite (range_from_low _ _ j Hlo). cbn [xcommand_scan].
    rewrite Hu. cbn [orb negb]. rewrite (IH Ht).
    unfold len. cbn [String.length].
    now replace (S j + String.length t) with (j + S (String.length t)) by lia.
Qed.

(** It stops at the end of the line and before a byte that is no letter,
    unless that byte is the space after [UID]. *)
Lemma xcommand_scan_stop (p : parser) (j : nat) (rest : string) :
  ends_run letter rest = true ->
  (HasPrefix rest " " = true ->
   String.eqb (slice (upper p) (o p) (o p + j)) "UID" = false) ->
  xcommand_scan p (Utf8.range_from 0 j (toUpper rest))
  = if (len rest =? 0)%nat then None else Some j.
Proof.
  destruct rest as [|c t]; intros He Hs; [reflexivity|].
  cbn [ends_run] in He. apply negb_true_iff in He.
  unfold toUpper. cbn [map_bytes]. fold (toUpper t).
  change (len (String c t) =? 0)%nat with false. cbv iota.
  destruct (Z.ltb_spec (byte (upper_byte c)) 0x80) as [Hlo|Hhi].
  - rewrite (range_from_low _ _ j Hlo). cbn [xcommand_scan].
    rewrite upper_letter, upper_space, He. cbn [orb].
    destruct (Z.eqb_spec (byte c) 32) as [E|E]; [|reflexivity].
    rewrite Hs; [reflexivity|].
    assert (c = " "%char) as -> by (apply byte_inj; exact E).
    reflexivity.
  - destruct (range_from_high _ (toUpper t) j Hhi) as (r & rs & -> & Hr).
    cbn [xcommand_scan].
    destruct (Z.leb_spec r 90); [lia|].
    destruct (Z.eqb_spec r 32); [lia|].
    now rewrite andb_false_r.
Qed.

(** What [xcommand] returns once its loop has found where the name ends. *)
Lemma xcommand_found (p : parser) (a rest : string) :
  at_cursor p (a ++ rest) ->
  xcommand_scan p (Utf8.range (from (o p) (upper p)))
  = (if (len rest =? 0)%nat then None else Some (len a)) ->
  xcommand p =
    match a, rest with
    | EmptyString, String _ _ =>
      (Panic (PanicSyntax (mkSyntaxError "" "" "expected chars from %s")), p)
    | _, _ => (Ok a, set_o p (o p + len a))
    end.
Proof.
  intros H Hscan. unfold xcommand. rewrite Hscan.
  destruct rest as [|c t].
  - change (len EmptyString =? 0)%nat with true. cbv iota.
    rewrite append_nil_r in H. destruct H as [[Hu Ho] Hv].
    unfold xtakeall. rewrite Hv.
    assert (len (from (o p) (orig p)) = len a) as Hl by now rewrite Hv.
    rewrite len_from in Hl.
    replace (len (orig p)) with (o p + len a) by lia.
    now destruct a.
  - change (len (String c t) =? 0)%nat with false. cbv iota.
    unfold xtake1n. destruct a as [|d a']; [reflexivity|].
    change (len (String d a') =? 0)%nat with false. cbv iota.
    exact (at_xtaken p _ _ H).
Qed.

End Commands.

(** X8. [xcommand] returns, in the spelling of the line, the letters at the
    cursor up to the first byte that is no ASCII letter, and moves over
    them.  When these letters are UID in any case and a space follows, the
    space and the letters after it belong to the name as well.  At the end
    of the line the result is the empty name and no error; before a byte
    that is no letter it is the error "expected chars from %s". *)
Theorem xcommand_reads_name :
  forall (p : parser) (w w2 rest : string),
    all_bytes letter w2 = true -> ends_run letter rest = true ->
    (at_cursor p (w2 ++ rest) ->
     String.eqb (toUpper w2) "UID" && HasPrefix rest " " = false ->
     xcommand p =
       match w2, rest with
       | EmptyString, String _ _ =>
         (Panic (PanicSyntax (mkSyntaxError "" "" "expected chars from %s")),
          p)
       | _, _ => (Ok w2, set_o p (o p + len w2))
       end)
    /\ (at_cursor p (w ++ " " ++ w2 ++ rest) ->
        toUpper w = "UID" ->
        xcommand p
        = (Ok (w ++ " " ++ w2), set_o p (o p + len (w ++ " " ++ w2)))).
Proof.
  intros p w w2 rest Hw2 Hrest. split.
  - intros H Huid. apply (xcommand_found p w2 rest H).
    unfold Utf8.range. rewrite (at_upper p _ H), toUpper_app.
    rewrite (xcommand_scan_letters p w2 Hw2). cbn [Nat.add].
    apply xcommand_scan_stop; [exact Hrest|].
    intros Hsp. rewrite (at_slice_upper p _ (len w2) H), toUpper_app.
    rewrite <- (len_toUpper w2), upto_len_app.
    rewrite Hsp, andb_true_r in Huid. exact Huid.
  - intros H Huid.
    assert (len w = 3) as Hl3 by (rewrite <- len_toUpper, Huid; reflexivity).
    assert (at_cursor p ((w ++ " " ++ w2) ++ rest)) as H'.
    { now rewrite !append_assoc. }
    replace (xcommand p)
      with (match w ++ " " ++ w2, rest with
            | EmptyString, String _ _ =>
              (Panic (PanicSyntax
                        (mkSyntaxError "" "" "expected chars from %s")), p)
            | _, _ =>
              (Ok (w ++ " " ++ w2), set_o p (o p + len (w ++ " " ++ w2)))
            end).
    { destruct w as [|c t]; [discriminate|]. now destruct rest. }
    symmetry. apply (xcommand_found p _ rest H').
    unfold Utf8.range. rewrite (at_upper p _ H), toUpper_app, Huid.
    rewrite toUpper_app. change (toUpper " ") with " ".
    rewrite toUpper_app.
    cbn [append].
    rewrite !range_from_low by (vm_compute; reflexivity).
    cbn [xcommand_scan].
    change (byte "U") with 85%Z. change (byte "I") with 73%Z.
    change (byte "D") with 68%Z. change (byte " ") with 32%Z.
    cbn [Z.leb Z.eqb Z.compare Pos.compare Pos.compare_cont andb orb negb
         Pos.eqb].
    rewrite (at_slice_upper p _ 3 H), toUpper_app, Huid.
    cbn [append upto]. cbn.
    rewrite (xcommand_scan_letters p w2 Hw2).
    rewrite !len_app, Hl3. change (len " ") with 1.
    replace (3 + (1 + len w2)) with (4 + len w2) by lia.
    apply xcommand_scan_stop; [exact Hrest|].
    intros _. rewrite (at_slice_upper p _ _ H), toUpper_app, Huid.
    reflexivity.
Qed.

Lemma xcommand_reads_name_witness :
  xcommand (set_o (on_line "a1 uid Fetch 1:*") 3)
    = (Ok "uid Fetch", set_o (on_line "a1 uid Fetch 1:*") 12)
  /\ xcommand (set_o (on_line "a1 Fetch 1:*") 3)
       = (Ok "Fetch", set_o (on_line "a1 Fetch 1:*") 8)
  /\ xcommand (set_o (on_line "a1 ") 3) = (Ok "", set_o (on_line "a1 ") 3).
Proof.
  split; [|split].
  - apply (proj2 (xcommand_reads_name (set_o (on_line "a1 uid Fetch 1:*") 3)
                    "uid" "Fetch" " 1:*" eq_refl eq_refl)).
    + split; [split; [reflexivity | simpl; lia] | reflexivity].
    + reflexivity.
  - apply (proj1 (xcommand_reads_name (set_o (on_line "a1 Fetch 1:*") 3)
                    "" "Fetch" " 1:*" eq_refl eq_refl)).
    + split; [split; [reflexivity | simpl; lia] | reflexivity].
    + reflexivity.
  - apply (proj1 (xcommand_reads_name (set_o (on_line "a1 ") 3)
                    "" "" "" eq_refl eq_refl)).
    + split; [split; [reflexivity | simpl; lia] | reflexivity].
    + reflexivity.
Defined.

(** ** Labels of tagged extensions *)

Section Labels.

Variable fn : nat -> Z -> bool.

(** The loop of [xtake1fn] adds the bytes [fn] accepts. *)
Lemma xtake1fn_loop_run (v : string) :
  forall (i j : nat) (acc tail : string),
    accepted fn i v = true ->
    xtake1fn_loop fn i acc (Utf8.range_from 0 j (v ++ tail))
    = xtake1fn_loop fn (i + len v) (acc ++ v)
        (Utf8.range_from 0 (j + len v) tail).
Proof.
  unfold len. induction v as [|c t IH]; intros i j acc tail Hv.
  - cbn [append String.length]. rewrite append_nil_r.
    now replace (i + 0) with i by lia; replace (j + 0) with j by lia.
  - cbn [accepted] in Hv. apply andb_true_iff in Hv. destruct Hv as [Hc Ht].
    apply andb_true_iff in Hc. destruct Hc as [Hlo Hfn].
    apply Z.ltb_lt in Hlo.
    cbn [append]. rewrite (range_from_low c _ j Hlo).
    cbn [xtake1fn_loop]. rewrite Hfn. cbn [negb].
    rewrite (string_of_rune_byte c Hlo), (IH _ _ _ _ Ht).
    rewrite append_assoc. cbn [append String.length].
    now replace (S i + String.length t) with (i + S (String.length t)) by lia;
      replace (S j + String.length t) with (j + S (String.length t)) by lia.
Qed.

(** It ends at the end of the line and at a rune [fn] refuses. *)
Lemma xtake1fn_loop_stop (i j : nat) (acc tail : string) :
  (forall r, (0x80 <= r)%Z -> fn i r = false) ->
  ends_run (fn i) tail = true ->
  xtake1fn_loop fn i acc (Utf8.range_from 0 j tail) = acc.
Proof.
  intros Hhigh He. destruct tail as [|c t]; [reflexivity|].
  cbn [ends_run] in He. apply negb_true_iff in He.
  destruct (Z.ltb_spec (byte c) 0x80) as [Hlo|Hhi].
  - rewrite (range_from_low c t j Hlo). cbn [xtake1fn_loop]. now rewrite He.
  - destruct (range_from_high c t j Hhi) as (r & rs & -> & Hr).
    cbn [xtake1fn_loop]. now rewrite (Hhigh r Hr).
Qed.

Lemma xtake1fn_on (p : parser) (a rest : string) :
  at_cursor p (a ++ rest) ->
  accepted fn 0 (toUpper a) = true ->
  (forall r, (0x80 <= r)%Z -> fn (len a) r = false) ->
  ends_run (fn (len a)) (toUpper rest) = true ->
  xtake1fn fn p =
    match a with
    | EmptyString =>
      (Panic (PanicSyntax
                (mkSyntaxError "" "" "expected at least one character")), p)
    | _ => (Ok (toUpper a), set_o p (o p + len a))
    end.
Proof.
  intros H Ha Hhigh He. unfold xtake1fn, Utf8.range.
  rewrite (at_upper p _ H), toUpper_app.
  rewrite (xtake1fn_loop_run _ 0 0 EmptyString _ Ha).
  cbn [Nat.add append]. rewrite len_toUpper.
  rewrite (xtake1fn_loop_stop _ _ _ _ Hhigh He).
  destruct a as [|c t]; [reflexivity|].
  unfold toUpper at 1. cbn [map_bytes String.eqb]. cbv iota.
  now rewrite len_toUpper.
Qed.

End Labels.

Section LabelBytes.

Lemma label_fn_first (c : ascii) :
  xtaggedExtLabel_fn 0 (byte (upper_byte c)) = label_first (byte c).
Proof. destruct c as [[] [] [] [] [] [] [] []]; reflexivity. Qed.

Lemma label_fn_next (i : nat) (c : ascii) :
  xtaggedExtLabel_fn (S i) (byte (upper_byte c)) = label_byte (byte c).
Proof. destruct c as [[] [] [] [] [] [] [] []]; reflexivity. Qed.

Lemma label_fn_high (i : nat) (r : Z) :
  (0x80 <= r)%Z -> xtaggedExtLabel_fn i r = false.
Proof.
  intros H. unfold xtaggedExtLabel_fn.
  destruct (Z.leb_spec r 90); [lia|]. destruct (Z.leb_spec r 57); [lia|].
  destruct (Z.eqb_spec r 45); [lia|]. destruct (Z.eqb_spec r 95); [lia|].
  destruct (Z.eqb_spec r 46); [lia|]. destruct (Z.eqb_spec r 58); [lia|].
  now rewrite !andb_false_r.
Qed.

Lemma label_byte_low (c : ascii) :
  label_byte (byte c) = true -> (byte (upper_byte c) <? 0x80)%Z = true.
Proof. destruct c as [[] [] [] [] [] [] [] []]; intros H; try reflexivity; discriminate H. Qed.

Lemma label_accepted (t : string) (i : nat) :
  all_bytes label_byte t = true ->
  accepted xtaggedExtLabel_fn (S i) (toUpper t) = true.
Proof.
  revert i. induction t as [|c t IH]; intros i Ht; [reflexivity|].
  cbn [all_bytes] in Ht. apply andb_true_iff in Ht. destruct Ht as [Hc Ht].
  unfold toUpper. cbn [map_bytes accepted]. fold (toUpper t).
  now rewrite (label_byte_low c Hc), label_fn_next, Hc, (IH _ Ht).
Qed.

Lemma label_ends (f : Z -> bool) (g : Z -> bool) (rest : string) :
  (forall c : ascii, g (byte (upper_byte c)) = f (byte c)) ->
  ends_run f rest = true -> ends_run g (toUpper rest) = true.
Proof.
  intros Hfg. destruct rest as [|c t]; [reflexivity|].
  simpl. now rewrite Hfg.
Qed.

End LabelBytes.

(** X9. [xtaggedExtLabel] reads a label that starts with a letter, a minus
    sign, an underscore or a dot and goes on with these, digits and colons.
    It returns the label in upper case, whatever its case on the line, and
    moves over it.  When the byte at the cursor cannot start a label, or the
    line has ended, it fails and leaves the cursor in place. *)
Theorem xtaggedExtLabel_upper :
  forall (p : parser) (c : ascii) (t rest : string),
    (at_cursor p (String c t ++ rest) ->
     label_first (byte c) = true -> all_bytes label_byte t = true ->
     ends_run label_byte rest = true ->
     xtaggedExtLabel p
     = (Ok (toUpper (String c t)), set_o p (o p + len (String c t))))
    /\ (at_cursor p rest -> ends_run label_first rest = true ->
        xtaggedExtLabel p
        = (Panic (PanicSyntax
                    (mkSyntaxError "" "" "expected at least one character")),
           p)).
Proof.
  intros p c t rest. split.
  - intros H Hc Ht Hr. unfold xtaggedExtLabel.
    apply (xtake1fn_on xtaggedExtLabel_fn p (String c t) rest H).
    + unfold toUpper. cbn [map_bytes accepted]. fold (toUpper t).
      rewrite label_fn_first, Hc, (label_accepted t 0 Ht).
      rewrite (label_byte_low c); [reflexivity|].
      unfold label_byte. now rewrite Hc.
    + intros r. apply label_fn_high.
    + apply (label_ends label_byte); [|exact Hr].
      intros d. apply label_fn_next.
  - intros H Hr. unfold xtaggedExtLabel.
    apply (xtake1fn_on xtaggedExtLabel_fn p EmptyString rest H).
    + reflexivity.
    + intros r. apply label_fn_high.
    + apply (label_ends label_first); [|exact Hr].
      intros d. apply label_fn_first.
Qed.

Lemma xtaggedExtLabel_upper_witness :
  xtaggedExtLabel (on_line "Mod-seq.2:x (1)")
    = (Ok "MOD-SEQ.2:X", set_o (on_line "Mod-seq.2:x (1)") 11)
  /\ xtaggedExtLabel (on_line "2x")
     = (Panic (PanicSyntax
                 (mkSyntaxError "" "" "expected at least one character")),
        on_line "2x").
Proof.
  split.
  - apply (proj1 (xtaggedExtLabel_upper (on_line "Mod-seq.2:x (1)")
                    "M" "od-seq.2:x" " (1)"));
      [split; [apply wf_newParser | reflexivity] | reflexivity..].
  - apply (proj2 (xtaggedExtLabel_upper (on_line "2x") "a" "" "2x"));
      [split; [apply wf_newParser | reflexivity] | reflexivity].
Defined.

(** ** Lists of flags *)

Section FlagLists.

Lemma at_remaining (p : parser) (v : string) :
  at_cursor p v -> remaining p = len v.
Proof.
  intros [Hp Hv]. unfold remaining.
  rewrite (wf_len_upper p Hp), <- Hv, len_from. reflexivity.
Qed.

Lemma length_after_spaces (l : list string) :
  List.length l <= len (after_spaces l).
Proof.
  induction l as [|w l IH]; [apply le_0_n|].
  cbn [after_spaces List.length]. rewrite !len_app. change (len " ") with 1. lia.
Qed.

Lemma len_after_spaces (w : string) (l : list string) :
  len (after_spaces (w :: l)) = 1 + len w + len (after_spaces l).
Proof.
  cbn [after_spaces]. rewrite !len_app. change (len " ") with 1. lia.
Qed.

Lemma takelist_none (l : list string) (p : parser) :
  (forall g, In g l -> hasPrefix g p = false) ->
  takelist l p = ((EmptyString, false), p).
Proof.
  intros H. rewrite <- (List.app_nil_r l). now rewrite takelist_skip.
Qed.

Lemma at_xspace (p : parser) (rest : string) :
  at_cursor p (" " ++ rest) -> xspace p = (Ok tt, set_o p (o p + 1)).
Proof.
  intros H. unfold xspace, space. rewrite bind_lift.
  pose proof (at_take p " " rest H) as Ht.
  change (toUpper " ") with " " in Ht. now rewrite Ht.
Qed.

(** [xflag] on a flag followed by a byte that is no atom character. *)
Lemma xflag_word (p : parser) (v rest : string) :
  at_cursor p (v ++ rest) -> flag_word v = true ->
  stops atomChar rest = true ->
  xflag p = (Ok v, set_o p (o p + len v)).
Proof.
  intros H Hv Hs. destruct v as [|c t]; [discriminate|].
  unfold flag_word in Hv.
  destruct (Z.eqb_spec (byte c) 92) as [E92|N92].
  - assert (c = "092"%char) as -> by (apply byte_inj; exact E92).
    apply andb_true_iff in Hv. destruct Hv as [Hv Hsys].
    apply andb_true_iff in Hv. destruct Hv as [Hne Ht].
    apply negb_true_iff in Hne.
    assert (t <> EmptyString) as Hne' by (intros ->; discriminate).
    change (String "092" t) with (BACKSLASH ++ t) in *.
    rewrite append_assoc in H.
    rewrite (xflag_on p t rest H Ht Hs Hne'), Hsys.
    rewrite len_app. change (len BACKSLASH) with 1.
    now rewrite Nat.add_assoc.
  - destruct (Z.eqb_spec (byte c) 36) as [E36|N36].
    + assert (c = "$"%char) as -> by (apply byte_inj; exact E36).
      apply andb_true_iff in Hv. destruct Hv as [Hne Ht].
      apply negb_true_iff in Hne.
      change (String "$" t) with ("$" ++ t) in *.
      rewrite append_assoc in H.
      unfold xflag. rewrite bind_lift.
      change [BACKSLASH; "$"] with ([BACKSLASH] ++ "$" :: [])%list.
      rewrite takelist_at.
      * cbn [fst snd]. change (len "$") with 1.
        pose proof (at_advance p "$" _ H) as H1.
        change (len "$") with 1 in H1.
        assert (xatom (set_o p (o p + 1))
                = (Ok t, set_o p (o p + 1 + len t))) as Ex.
        { unfold xatom.
          rewrite (xtakechars_on _ atomChar "atom" t rest H1
                     atomChar_ascii Ht Hs).
          destruct t; [discriminate | reflexivity]. }
        rewrite (bind_Ok _ _ _ _ _ Ex). cbn.
        unfold ret, len. do 2 f_equal. lia.
      * intros g [<-|[]].
        now rewrite (at_hasPrefix p _ BACKSLASH H eq_refl).
      * now rewrite (at_hasPrefix p _ "$" H eq_refl).
    + unfold xflag. rewrite bind_lift.
      rewrite takelist_none.
      * cbn [fst snd].
        assert (xatom p = (Ok (String c t), set_o p (o p + len (String c t))))
          as Ex.
        { unfold xatom.
          now rewrite (xtakechars_on _ atomChar "atom" _ rest H
                         atomChar_ascii Hv Hs). }
        rewrite (bind_Ok _ _ _ _ _ Ex). cbn [append index String.get].
        destruct (Z.eqb_spec (byte c) 92); [contradiction | reflexivity].
      * intros g [<-|[<-|[]]].
        -- rewrite (at_hasPrefix p _ BACKSLASH H eq_refl).
           unfold BACKSLASH. cbn [append HasPrefix].
           destruct (Ascii.eqb_spec "092" c) as [<-|]; [|reflexivity].
           now contradiction N92.
        -- rewrite (at_hasPrefix p _ "$" H eq_refl).
           cbn [append HasPrefix].
           destruct (Ascii.eqb_spec "$" c) as [<-|]; [|reflexivity].
           now contradiction N36.
Qed.

Lemma flag_word_first (w rest : string) :
  flag_word w = true -> HasPrefix (w ++ rest) ")" = false.
Proof.
  destruct w as [|c t]; [discriminate|]. intros H.
  cbn [append HasPrefix].
  destruct (Ascii.eqb_spec ")" c) as [<-|]; [|reflexivity].
  vm_compute in H. discriminate.
Qed.

Lemma stops_after_spaces (l : list string) (rest : string) :
  stops atomChar (after_spaces l ++ ")" ++ rest) = true.
Proof. destruct l; vm_compute; reflexivity. Qed.

Lemma xflagList_loop_eq (fuel : nat) (l : list string) :
  xflagList_loop fuel l =
    (ok <- lift (take ")") ;;
     if ok then ret l
     else
       xspace ;;
       match fuel with
       | O => raise OutOfFuel
       | S f => w <- xflag ;; xflagList_loop f (l ++ [w])%list
       end).
Proof. destruct fuel; reflexivity. Qed.

(** The loop of [xflagList] on flags, each after one space, and the closing
    parenthesis. *)
Lemma xflagList_loop_on (l : list string) :
  forall (fuel : nat) (acc : list string) (p : parser) (rest : string),
    forallb flag_word l = true -> List.length l <= fuel ->
    at_cursor p (after_spaces l ++ ")" ++ rest) ->
    xflagList_loop fuel acc p
    = (Ok (acc ++ l)%list, set_o p (o p + len (after_spaces l) + 1)).
Proof.
  induction l as [|w l IH]; intros fuel acc p rest Hl Hf H;
    rewrite xflagList_loop_eq, bind_lift.
  - cbn [after_spaces append] in H.
    pose proof (at_take p ")" rest H) as Ht.
    change (toUpper ")") with ")" in Ht. rewrite Ht. cbn [fst snd ret].
    rewrite List.app_nil_r. unfold ret. f_equal.
    unfold set_o. cbn [orig upper o contexts pconn after_spaces].
    unfold len. simpl. f_equal. lia.
  - cbn [forallb] in Hl. apply andb_true_iff in Hl. destruct Hl as [Hw Hl].
    destruct fuel as [|f]; [simpl in Hf; lia|].
    cbn [List.length] in Hf.
    cbn [after_spaces] in H. rewrite !append_assoc in H.
    rewrite (at_take_not p _ ")" H) by reflexivity. cbn [fst snd negb].
    rewrite (bind_Ok _ _ _ _ _ (at_xspace p _ H)).
    pose proof (at_advance p " " _ H) as H1. change (len " ") with 1 in H1.
    pose proof (xflag_word _ w _ H1 Hw (stops_after_spaces l rest)) as Ex.
    rewrite (bind_Ok _ _ _ _ _ Ex).
    pose proof (at_advance _ w _ H1) as H2.
    rewrite (IH f (acc ++ [w])%list _ rest Hl ltac:(lia) H2).
    rewrite <- List.app_assoc. cbn [app]. f_equal.
    rewrite len_after_spaces.
    unfold set_o. cbn [orig upper o contexts pconn]. f_equal. lia.
Qed.

End FlagLists.

(** X10. [xflagList] reads a parenthesised list of flags separated by single
    spaces and returns the flags in order and in the spelling of the line,
    with the cursor after the closing parenthesis; the empty pair of
    parentheses gives the empty list.  A flag is a backslash with the name
    of a system flag, a dollar sign with an atom after it, or an atom. *)
Theorem xflagList_reads_flags :
  forall (p : parser) (l : list string) (rest : string),
    forallb flag_word l = true ->
    at_cursor p ("(" ++ spaced l ++ ")" ++ rest) ->
    xflagList p = (Ok l, set_o p (o p + len (spaced l) + 2)).
Proof.
  intros p l rest Hl H. unfold xflagList.
  pose proof (at_xtake p "(" _ H) as E1.
  change (toUpper "(") with "(" in E1. change (len "(") with 1 in E1.
  rewrite (bind_Ok _ _ _ _ _ E1).
  pose proof (at_advance p "(" _ H) as H1. change (len "(") with 1 in H1.
  unfold bind at 1. unfold hasPrefixM.
  rewrite (at_hasPrefix _ _ ")" H1 eq_refl).
  destruct l as [|w l].
  - cbn [spaced append HasPrefix Ascii.eqb Bool.eqb andb negb].
    unfold bind at 1. cbn [ret].
    cbn [spaced append] in H1.
    rewrite (xflagList_loop_on [] _ [] _ rest eq_refl (le_0_n _) H1).
    f_equal. unfold set_o. cbn [orig upper o contexts pconn after_spaces].
    unfold len. simpl. f_equal. lia.
  - cbn [forallb] in Hl. apply andb_true_iff in Hl. destruct Hl as [Hw Hl].
    cbn [spaced] in *. rewrite append_assoc in H1. rewrite append_assoc.
    rewrite (flag_word_first w _ Hw). cbn [negb].
    pose proof (xflag_word _ w _ H1 Hw (stops_after_spaces l rest)) as Ex.
    unfold bind at 1. rewrite (bind_Ok _ _ _ _ _ Ex). cbn [ret].
    pose proof (at_advance _ w _ H1) as H2.
    rewrite (xflagList_loop_on l _ [w] _ rest Hl) ; [| |exact H2].
    + cbn [app]. f_equal. rewrite len_app.
      unfold set_o. cbn [orig upper o contexts pconn]. f_equal. lia.
    + rewrite (at_remaining _ _ H2), len_app.
      pose proof (length_after_spaces l). lia.
Qed.

Lemma xflagList_reads_flags_witness :
  xflagList (on_line ("(" ++ BACKSLASH ++ "Seen $Label1 custom) x"))
  = (Ok [BACKSLASH ++ "Seen"; "$Label1"; "custom"],
     set_o (on_line ("(" ++ BACKSLASH ++ "Seen $Label1 custom) x")) 22).
Proof.
  apply (xflagList_reads_flags
           (on_line ("(" ++ BACKSLASH ++ "Seen $Label1 custom) x"))
           [BACKSLASH ++ "Seen"; "$Label1"; "custom"] " x").
  - vm_compute. reflexivity.
  - split; [apply wf_newParser | reflexivity].
Defined.


(** ** Lists of mailboxes *)

Section MailboxLists.

Lemma listChar_ascii :
  ascii_class (atomChar ++ listWildcards ++ respSpecials) = true.
Proof. vm_compute. reflexivity. Qed.

Lemma list_word_first (w rest : string) :
  list_word w = true ->
  HasPrefix (w ++ rest) DQUOTE = false /\ HasPrefix (w ++ rest) "{" = false
  /\ HasPrefix (w ++ rest) "(" = false /\ HasPrefix (w ++ rest) ")" = false.
Proof.
  destruct w as [|c t]; [discriminate|]. intros H.
  unfold DQUOTE. cbn [append HasPrefix].
  repeat split.
  - destruct (Ascii.eqb_spec "034" c) as [<-|]; [|reflexivity].
    vm_compute in H. discriminate.
  - destruct (Ascii.eqb_spec "{" c) as [<-|]; [|reflexivity].
    vm_compute in H. discriminate.
  - destruct (Ascii.eqb_spec "(" c) as [<-|]; [|reflexivity].
    vm_compute in H. discriminate.
  - destruct (Ascii.eqb_spec ")" c) as [<-|]; [|reflexivity].
    vm_compute in H. discriminate.
Qed.

(** [xlistMailbox] on a name without quotes, followed by a byte that does
    not belong to such a name. *)
Lemma xlistMailbox_word (p : parser) (w rest : string) :
  at_cursor p (w ++ rest) -> list_word w = true ->
  stops (atomChar ++ listWildcards ++ respSpecials) rest = true ->
  xlistMailbox p = (Ok w, set_o p (o p + len w)).
Proof.
  intros H Hw Hs. unfold xlistMailbox.
  destruct (list_word_first w rest Hw) as (Hq & Hb & _).
  rewrite (at_hasPrefix p _ DQUOTE H eq_refl), Hq.
  rewrite (at_hasPrefix p _ "{" H eq_refl), Hb. cbn [orb].
  unfold list_word in Hw. apply andb_true_iff in Hw. destruct Hw as [Hne Hw].
  rewrite (xtakechars_on p _ "list-char" w rest H listChar_ascii Hw Hs).
  destruct w; [discriminate | reflexivity].
Qed.

Lemma stops_list_after_spaces (l : list string) (rest : string) :
  stops (atomChar ++ listWildcards ++ respSpecials)
    (after_spaces l ++ ")" ++ rest) = true.
Proof. destruct l; vm_compute; reflexivity. Qed.

Lemma xmboxOrPat_loop_eq (fuel : nat) (l : list string) :
  xmboxOrPat_loop fuel l =
    (ok <- lift (take ")") ;;
     if ok then ret l
     else
       xspace ;;
       match fuel with
       | O => raise OutOfFuel
       | S f => w <- xlistMailbox ;; xmboxOrPat_loop f (l ++ [w])%list
       end).
Proof. destruct fuel; reflexivity. Qed.

Lemma xmboxOrPat_loop_on (l : list string) :
  forall (fuel : nat) (acc : list string) (p : parser) (rest : string),
    forallb list_word l = true -> List.length l <= fuel ->
    at_cursor p (after_spaces l ++ ")" ++ rest) ->
    xmboxOrPat_loop fuel acc p
    = (Ok (acc ++ l)%list, set_o p (o p + len (after_spaces l) + 1)).
Proof.
  induction l as [|w l IH]; intros fuel acc p rest Hl Hf H;
    rewrite xmboxOrPat_loop_eq, bind_lift.
  - cbn [after_spaces append] in H.
    pose proof (at_take p ")" rest H) as Ht.
    change (toUpper ")") with ")" in Ht. rewrite Ht. cbn [fst snd ret].
    rewrite List.app_nil_r. unfold ret. f_equal.
    unfold set_o. cbn [orig upper o contexts pconn after_spaces].
    unfold len. simpl. f_equal. lia.
  - cbn [forallb] in Hl. apply andb_true_iff in Hl. destruct Hl as [Hw Hl].
    destruct fuel as [|f]; [simpl in Hf; lia|].
    cbn [List.length] in Hf.
    cbn [after_spaces] in H. rewrite !append_assoc in H.
    rewrite (at_take_not p _ ")" H) by reflexivity. cbn [fst snd negb].
    rewrite (bind_Ok _ _ _ _ _ (at_xspace p _ H)).
    pose proof (at_advance p " " _ H) as H1. change (len " ") with 1 in H1.
    pose proof (xlistMailbox_word _ w _ H1 Hw (stops_list_after_spaces l rest))
      as Ex.
    rewrite (bind_Ok _ _ _ _ _ Ex).
    pose proof (at_advance _ w _ H1) as H2.
    rewrite (IH f (acc ++ [w])%list _ rest Hl ltac:(lia) H2).
    rewrite <- List.app_assoc. cbn [app]. f_equal.
    rewrite len_after_spaces.
    unfold set_o. cbn [orig upper o contexts pconn]. f_equal. lia.
Qed.

Lemma budget_remaining (p : parser) : remaining p <= budget p.
Proof. unfold budget. lia. Qed.

End MailboxLists.

(** X11. [xmboxOrPat] reads one mailbox name or pattern, or a parenthesised
    list of them separated by single spaces, and tells the two forms apart
    by its second result.  The list it returns is never empty: an empty
    pair of parentheses is an error. *)
Theorem xmboxOrPat_reads_patterns :
  forall (p : parser) (w : string) (l : list string) (rest : string),
    list_word w = true -> forallb list_word l = true ->
    (at_cursor p (w ++ rest) ->
     stops (atomChar ++ listWildcards ++ respSpecials) rest = true ->
     xmboxOrPat p = (Ok ([w], false), set_o p (o p + len w)))
    /\ (at_cursor p ("(" ++ spaced (w :: l) ++ ")" ++ rest) ->
        xmboxOrPat p
        = (Ok (w :: l, true), set_o p (o p + len (spaced (w :: l)) + 2)))
    /\ (at_cursor p ("()" ++ rest) ->
        xmboxOrPat p
        = (Panic (PanicSyntax
                    (mkSyntaxError "" "" "expected chars from %s")),
           set_o p (o p + 1))).
Proof.
  intros p w l rest Hw Hl. split; [|split].
  - intros H Hs. unfold xmboxOrPat. rewrite bind_lift.
    destruct (list_word_first w rest Hw) as (_ & _ & Hpar & _).
    rewrite (at_take_not p _ "(" H)
      by now rewrite (HasPrefix_toUpper _ "(" eq_refl).
    cbn [fst snd negb].
    now rewrite (bind_Ok _ _ _ _ _ (xlistMailbox_word p w rest H Hw Hs)).
  - intros H. unfold xmboxOrPat. rewrite bind_lift.
    pose proof (at_take p "(" _ H) as E1.
    change (toUpper "(") with "(" in E1. change (len "(") with 1 in E1.
    rewrite E1. cbn [fst snd negb].
    pose proof (at_advance p "(" _ H) as H1. change (len "(") with 1 in H1.
    cbn [spaced] in *. rewrite append_assoc in H1.
    pose proof (xlistMailbox_word _ w _ H1 Hw (stops_list_after_spaces l rest))
      as Ex.
    rewrite (bind_Ok _ _ _ _ _ Ex).
    pose proof (at_advance _ w _ H1) as H2.
    unfold bind.
    rewrite (xmboxOrPat_loop_on l _ [w] _ rest Hl); [| |exact H2].
    + unfold ret. cbn [app]. f_equal. rewrite len_app.
      unfold set_o. cbn [orig upper o contexts pconn]. f_equal. lia.
    + pose proof (budget_remaining (set_o (set_o p (o p + 1))
                                      (o (set_o p (o p + 1)) + len w))) as Hb.
      rewrite (at_remaining _ _ H2), len_app in Hb.
      pose proof (length_after_spaces l). lia.
  - intros H. unfold xmboxOrPat. rewrite bind_lift.
    change ("()" ++ rest) with ("(" ++ ")" ++ rest) in H.
    pose proof (at_take p "(" _ H) as E1.
    change (toUpper "(") with "(" in E1. change (len "(") with 1 in E1.
    rewrite E1. cbn [fst snd negb].
    pose proof (at_advance p "(" _ H) as H1. change (len "(") with 1 in H1.
    assert (xlistMailbox (set_o p (o p + 1))
            = (Panic (PanicSyntax
                        (mkSyntaxError "" "" "expected chars from %s")),
               set_o p (o p + 1))) as Ex.
    { unfold xlistMailbox.
      rewrite (at_hasPrefix _ _ DQUOTE H1 eq_refl).
      rewrite (at_hasPrefix _ _ "{" H1 eq_refl).
      change (HasPrefix (")" ++ rest) DQUOTE) with false.
      change (HasPrefix (")" ++ rest) "{") with false. cbn [orb].
      change (")" ++ rest) with (EmptyString ++ ")" ++ rest) in H1.
      rewrite (xtakechars_on _ _ "list-char" EmptyString _ H1 listChar_ascii
                 eq_refl) by (vm_compute; reflexivity).
      reflexivity. }
    now rewrite (bind_Panic _ _ _ _ _ Ex).
Qed.

Lemma xmboxOrPat_reads_patterns_witness :
  xmboxOrPat (on_line "INBOX/% x")
    = (Ok (["INBOX/%"], false), set_o (on_line "INBOX/% x") 7)
  /\ xmboxOrPat (on_line "(a* b%c) x")
     = (Ok (["a*"; "b%c"], true), set_o (on_line "(a* b%c) x") 8).
Proof.
  split.
  - apply (proj1 (xmboxOrPat_reads_patterns (on_line "INBOX/% x")
                    "INBOX/%" [] " x" eq_refl eq_refl));
      [split; [apply wf_newParser | reflexivity] | vm_compute; reflexivity].
  - apply (proj1 (proj2 (xmboxOrPat_reads_patterns (on_line "(a* b%c) x")
                           "a*" ["b%c"] " x" eq_refl eq_refl))).
    split; [apply wf_newParser | reflexivity].
Defined.

(** ** The size of a literal *)

Section LiteralSizes.

Lemma upper_digit (c : ascii) :
  decimal_digit (byte (upper_byte c)) = decimal_digit (byte c).
Proof. destruct c as [[] [] [] [] [] [] [] []]; reflexivity. Qed.

Lemma digit_bytes_app (d r : string) :
  all_digits d = true -> ends_run decimal_digit r = true ->
  digit_bytes (toUpper (d ++ r)) = len d.
Proof.
  intros Hd Hr. unfold len. induction d as [|c t IH].
  - destruct r as [|c t]; [reflexivity|].
    cbn [ends_run] in Hr. apply negb_true_iff in Hr.
    unfold toUpper. cbn [append map_bytes digit_bytes].
    fold (decimal_digit (byte (upper_byte c))).
    now rewrite upper_digit, Hr.
  - cbn [all_digits] in Hd. apply andb_true_iff in Hd. destruct Hd as [Hc Ht].
    unfold toUpper. cbn [append map_bytes digit_bytes]. fold (toUpper (t ++ r)).
    fold (decimal_digit (byte (upper_byte c))).
    rewrite upper_digit. unfold decimal_digit. rewrite Hc, (IH Ht).
    reflexivity.
Qed.

Lemma toUpper_digits (d : string) : all_digits d = true -> toUpper d = d.
Proof.
  intros Hd. induction d as [|c t IH]; [reflexivity|].
  cbn [all_digits] in Hd. apply andb_true_iff in Hd. destruct Hd as [Hc Ht].
  unfold toUpper. cbn [map_bytes]. fold (toUpper t). rewrite (IH Ht).
  f_equal. unfold upper_byte.
  apply andb_true_iff in Hc. destruct Hc as [_ Hc]. apply Z.leb_le in Hc.
  destruct (Z.leb_spec 97 (byte c)); [lia | reflexivity].
Qed.

(** The digit run at a cursor that stands before digits. *)
Lemma at_digit_run (p : parser) (d rest : string) :
  at_cursor p (d ++ rest) -> all_digits d = true ->
  ends_run decimal_digit rest = true -> digit_run p = d.
Proof.
  intros H Hd Hr. rewrite digit_run_eq, (at_upper p _ H).
  rewrite (digit_bytes_app d rest Hd Hr), toUpper_app.
  rewrite <- (len_toUpper d), upto_len_app. now apply toUpper_digits.
Qed.

Lemma at_xnumber64 (p : parser) (d rest : string) :
  at_cursor p (d ++ rest) -> all_digits d = true -> d <> EmptyString ->
  ends_run decimal_digit rest = true ->
  (decimal_value d <= 9223372036854775807)%Z ->
  xnumber64 p = (Ok (decimal_value d), set_o p (o p + len d)).
Proof.
  intros H Hd Hne Hr Hfit. rewrite xnumber64_run.
  rewrite (at_digit_run p d rest H Hd Hr).
  destruct (String.eqb_spec d EmptyString); [contradiction|].
  destruct (Z.leb_spec (decimal_value d) 9223372036854775807);
    [reflexivity | lia].
Qed.

Lemma at_end (p : parser) : at_cursor p EmptyString -> empty p = true.
Proof.
  intros H. pose proof (at_remaining p _ H) as Hr. destruct H as [Hp _].
  pose proof (wf_len_upper p Hp) as Hl. destruct Hp as [_ Ho].
  unfold empty. unfold remaining in Hr. change (len EmptyString) with 0 in Hr.
  apply Nat.eqb_eq. lia.
Qed.

End LiteralSizes.

Section LiteralMarker.

Lemma xliteralSize_marker_at :
  forall (p : parser) (maxSize : Z) (lit8 tilde plus : bool)
         (d rest : string),
    let text :=
      (if tilde then "~" else EmptyString) ++ "{" ++ d
      ++ (if plus then "+" else EmptyString) ++ "}" in
    at_cursor p (text ++ rest) ->
    (tilde = true -> lit8 = true) ->
    all_digits d = true -> d <> EmptyString ->
    (decimal_value d <= 9223372036854775807)%Z ->
    (maxSize <= 0 \/ decimal_value d <= maxSize)%Z ->
    xliteralSize maxSize lit8 p =
      (match rest with
       | EmptyString => Ok (decimal_value d, negb plus)
       | _ => Panic (PanicSyntax (mkSyntaxError "" "" "leftover data"))
       end,
       set_o p (o p + len text)).
Proof.
  intros p maxSize lit8 tilde plus d rest text H Htilde Hd Hne Hfit Hmax.
  unfold text in *. clear text. rewrite !append_assoc in H.
  unfold xliteralSize.
  set (p0 := set_o p (o p + (if tilde then 1 else 0))).
  assert ((if lit8 then _ <- lift (take "~") ;; ret tt else ret tt) p
          = (Ok tt, p0)
          /\ at_cursor p0 ("{" ++ d ++ (if plus then "+" else EmptyString)
                           ++ "}" ++ rest)) as [E0 H0].
  { unfold p0. destruct tilde.
    - rewrite (Htilde eq_refl). rewrite bind_lift.
      pose proof (at_take p "~" _ H) as Ht.
      change (toUpper "~") with "~" in Ht. rewrite Ht.
      split; [reflexivity | exact (at_advance p "~" _ H)].
    - cbn [append] in H.
      assert (set_o p (o p + 0) = p) as ->.
      { destruct p. unfold set_o. simpl. f_equal. lia. }
      split; [|exact H].
      destruct lit8; [|reflexivity].
      rewrite bind_lift. now rewrite (at_take_not p _ "~" H). }
  rewrite (bind_Ok _ _ _ _ _ E0).
  pose proof (at_xtake p0 "{" _ H0) as E1.
  change (toUpper "{") with "{" in E1. change (len "{") with 1 in E1.
  rewrite (bind_Ok _ _ _ _ _ E1).
  pose proof (at_advance p0 "{" _ H0) as H1. change (len "{") with 1 in H1.
  assert (ends_run decimal_digit
            ((if plus then "+" else EmptyString) ++ "}" ++ rest) = true) as Hr
      by (destruct plus; reflexivity).
  rewrite (bind_Ok _ _ _ _ _ (at_xnumber64 _ d _ H1 Hd Hne Hr Hfit)).
  pose proof (at_advance _ d _ H1) as H2.
  replace ((0 <? maxSize)%Z && (maxSize <? decimal_value d)%Z) with false.
  2:{ symmetry. apply andb_false_iff.
      destruct Hmax; [left | right]; apply Z.ltb_ge; lia. }
  unfold bind at 1. cbn [ret]. rewrite bind_lift.
  set (p2 := set_o (set_o p0 (o p0 + 1)) (o (set_o p0 (o p0 + 1)) + len d))
    in *.
  set (p3 := set_o p2 (o p2 + (if plus then 1 else 0))).
  assert (take "+" p2 = (plus, p3)
          /\ at_cursor p3 ("}" ++ rest)) as [E3 H3].
  { unfold p3. destruct plus.
    - pose proof (at_take p2 "+" _ H2) as Ht.
      change (toUpper "+") with "+" in Ht. rewrite Ht.
      split; [reflexivity | exact (at_advance p2 "+" _ H2)].
    - cbn [append] in H2.
      assert (set_o p2 (o p2 + 0) = p2) as ->.
      { destruct p2. unfold set_o. simpl. f_equal. lia. }
      split; [|exact H2].
      now rewrite (at_take_not p2 _ "+" H2). }
  rewrite E3. cbn [fst snd].
  pose proof (at_xtake p3 "}" _ H3) as E4.
  change (toUpper "}") with "}" in E4. change (len "}") with 1 in E4.
  rewrite (bind_Ok _ _ _ _ _ E4).
  pose proof (at_advance p3 "}" _ H3) as H4. change (len "}") with 1 in H4.
  assert (set_o p3 (o p3 + 1)
          = set_o p
              (o p + len ((if tilde then "~" else EmptyString) ++ "{" ++ d
                          ++ (if plus then "+" else EmptyString) ++ "}")))
    as Hq.
  { unfold p3, p2, p0, set_o. cbn [orig upper o contexts pconn]. f_equal.
    rewrite !len_app. change (len "{") with 1. change (len "}") with 1.
    destruct tilde; destruct plus; unfold len; simpl; lia. }
  rewrite Hq in *.
  unfold bind, xempty.
  destruct rest as [|c t].
  - now rewrite (at_end _ H4).
  - now rewrite (proj1 (at_empty _ c t H4)).
Qed.


End LiteralMarker.

(** X12. [xliteralSize] accepts a literal marker that ends the line: an
    opening brace, a decimal size that fits 63 bits and the limit when
    there is one, an optional plus sign and a closing brace, with a tilde
    before it allowed when [lit8] holds.  It returns the size, and whether
    the plus sign is absent.  Anything after the closing brace is the
    error "leftover data". *)
Theorem xliteralSize_marker :
  forall (p : parser) (maxSize : Z) (lit8 tilde plus : bool)
         (d rest : string),
    let text :=
      (if tilde then "~" else EmptyString) ++ "{" ++ d
      ++ (if plus then "+" else EmptyString) ++ "}" in
    at_cursor p (text ++ rest) ->
    (tilde = true -> lit8 = true) ->
    all_digits d = true -> d <> EmptyString ->
    (decimal_value d <= 9223372036854775807)%Z ->
    (maxSize <= 0 \/ decimal_value d <= maxSize)%Z ->
    xliteralSize maxSize lit8 p =
      (match rest with
       | EmptyString => Ok (decimal_value d, negb plus)
       | _ => Panic (PanicSyntax (mkSyntaxError "" "" "leftover data"))
       end,
       set_o p (o p + len text)).
Proof.
  intros p maxSize lit8 tilde plus d rest text.
  exact (xliteralSize_marker_at p maxSize lit8 tilde plus d rest).
Qed.

Lemma xliteralSize_marker_witness :
  xliteralSize 102400 false (set_o (on_line "a login {5+}") 8)
    = (Ok (5%Z, false), set_o (on_line "a login {5+}") 12)
  /\ xliteralSize 0 true (on_line "~{007} x")
     = (Panic (PanicSyntax (mkSyntaxError "" "" "leftover data")),
        set_o (on_line "~{007} x") 6).
Proof.
  split.
  - apply (xliteralSize_marker (set_o (on_line "a login {5+}") 8) 102400
             false false true "5" "");
      [split; [split; [reflexivity | simpl; lia] | reflexivity]
      | discriminate | reflexivity | discriminate | vm_compute; discriminate
      | right; vm_compute; discriminate].
  - apply (xliteralSize_marker (on_line "~{007} x") 0 true true false
             "007" " x");
      [split; [apply wf_newParser | reflexivity]
      | reflexivity | reflexivity | discriminate | vm_compute; discriminate
      | left; lia].
Defined.

(** ** Literal strings *)

(** X13. When the line ends with a literal marker of at most 100 KiB,
    [xstring] asks the connection for that many octets, with the
    continuation prompt exactly when the marker has no plus sign, and then
    for the next line.  It returns the octets as they came and goes on at
    the start of the new line, whose upper-cased copy it recomputes. *)
Theorem xstring_literal :
  forall (p : parser) (plus : bool) (d body ln : string) (q2 q3 : parser),
    let text := "{" ++ d ++ (if plus then "+" else EmptyString) ++ "}" in
    at_cursor p text ->
    all_digits d = true -> d <> EmptyString ->
    (decimal_value d <= 102400)%Z ->
    xreadliteral (decimal_value d) (negb plus) (set_o p (o p + len text))
      = (Ok body, q2) ->
    readline q2 = (Ok ln, q3) ->
    xstring p = (Ok body, rebind q3 ln) /\ at_cursor (rebind q3 ln) ln.
Proof.
  intros p plus d body ln q2 q3 text H Hd Hne Hfit Hread Hline.
  split.
  - unfold xstring. rewrite bind_lift.
    rewrite (at_take_not p _ DQUOTE H) by reflexivity. cbn [fst snd].
    assert (at_cursor p (((if false then "~" else EmptyString) ++ "{" ++ d
                          ++ (if plus then "+" else EmptyString) ++ "}")
                         ++ EmptyString)) as H'.
    { cbn [append]. now rewrite append_nil_r. }
    pose proof (xliteralSize_marker_at p (100 * 1024) false false plus d
                  EmptyString H' ltac:(discriminate) Hd Hne ltac:(lia)
                  ltac:(right; change (100 * 1024)%Z with 102400%Z; lia))
      as E.
    cbn [append] in E. fold text in E.
    rewrite (bind_Ok _ _ _ _ _ E). cbn beta iota.
    rewrite (bind_Ok _ _ _ _ _ Hread), (bind_Ok _ _ _ _ _ Hline).
    reflexivity.
  - split; [split|]; simpl; [reflexivity | apply le_0_n | reflexivity].
Qed.

Lemma xstring_literal_witness :
  xstring
    (newParser "{3}"
       (mkConn ("abc x" ++ String "013" (String "010" EmptyString)) []))
  = (Ok "abc",
     mkParser " x" " X" 0 []
       (mkConn EmptyString [SendContinuation; ReadOctets 3; ReadLine]))
  /\ at_cursor
       (mkParser " x" " X" 0 []
          (mkConn EmptyString [SendContinuation; ReadOctets 3; ReadLine]))
       " x".
Proof.
  exact (xstring_literal
           (newParser "{3}"
              (mkConn ("abc x" ++ String "013" (String "010" EmptyString)) []))
           false "3" "abc" " x"
           (mkParser "{3}" "{3}" 3 []
              (mkConn (" x" ++ String "013" (String "010" EmptyString))
                 [SendContinuation; ReadOctets 3]))
           (mkParser "{3}" "{3}" 3 []
              (mkConn EmptyString [SendContinuation; ReadOctets 3; ReadLine]))
           (conj (wf_newParser _ _) eq_refl) eq_refl
           ltac:(discriminate) ltac:(vm_compute; discriminate)
           eq_refl eq_refl).
Defined.
